(** * meta-checker: a shallow embedding of the crawl pipeline's core

    The development follows the layout of the repository.  Part I embeds the
    source files, one module per file:

      - [Js]        the JavaScript string and list primitives the sources use
      - [Csv]       src/io/csv.js
      - [Matcher]   src/match/normalize.js (text part) and src/match/matcher.js
      - [Reports]   the title-based branch of src/io/reports.js
      - [Normalize] src/match/normalize.js (URL part) over a record for the
                    platform's URL object, on a delimited class of URLs
      - [Telemetry] the pre-flight classifier and gate of src/utils/telemetry.js
                    and the validation of its POST /config handler
      - [Gating]    src/lib/output-gating.js, the stand-alone gate
      - [Run]       the input-mode resolution of src/run.js
      - [Frontier]  src/discover/frontier.js (claim ledger and bucket cursor)
      - [Crawler]   the work/idle loop of src/discover/crawler.js
      - [ShardRun]  the URL merge of scripts/shard-run.js
      - [Spec]      the specification's own wording of some notions
      - [Buckets]   src/discover/frontier.js (filling the buckets, stealing)
      - [ReportsCsv] and [ReportsClassify]
                    src/io/reports.js (report lines, classification of rows)
      - [RunShard]  the shard slice of src/run.js
      - [ShardMerge] the working-URL lists of src/run.js and
                    scripts/shard-run.js
      - [Retry]     src/discover/frontier.js (retry wrappers)
      - [Legacy]    src/discover/frontier.js (single-file frontier)

    The modules are followed by the notions and the concrete inputs that
    the statements use.  Part II states and proves the properties.

    Strings.  A JavaScript string is modelled by [string]; its characters are
    the code units below 256.  Every character class the sources test
    (separators, quotes, ASCII letters and digits, white space) lives in that
    range.  Numbers that the sources compute as quotients of small counts
    (URL shares, average lengths, Jaccard scores) are kept as exact
    rationals: for counts below 2^26 two such quotients are equal, or
    ordered, as doubles exactly when they are as rationals. *)

From Stdlib Require Import List String Ascii Bool Arith ZArith QArith Lia.
Import ListNotations.
Close Scope Q_scope.
Open Scope string_scope.
Open Scope nat_scope.

(* ====================================================================== *)
(** * Part I — the embedding                                               *)
(* ====================================================================== *)

Module Js.

Definition LF : ascii := "010"%char.
Definition CR : ascii := "013"%char.
Definition DQUOTE : ascii := "034"%char.
Definition COMMA : ascii := ","%char.
Definition TAB : ascii := "009"%char.

Definition NL : string := String LF EmptyString.
Definition CRLF : string := String CR (String LF EmptyString).

(** White space and line terminators of ECMAScript below code unit 256:
    TAB, LF, VT, FF, CR, SP and NBSP.  This is what [trim] removes and what
    the regular expression class [\s] matches. *)
Definition isWhite (c : ascii) : bool :=
  let n := nat_of_ascii c in
  ((9 <=? n) && (n <=? 13)) || (n =? 32) || (n =? 160).

Fixpoint trimStart (s : string) : string :=
  match s with
  | EmptyString => EmptyString
  | String c t => if isWhite c then trimStart t else s
  end.

(** [trimEnd] drops the trailing white space: a character is kept when it is
    not white or when something non-white follows it. *)
Fixpoint trimEnd (s : string) : string :=
  match s with
  | EmptyString => EmptyString
  | String c t =>
      match trimEnd t with
      | EmptyString => if isWhite c then EmptyString else String c EmptyString
      | t' => String c t'
      end
  end.

Definition trim (s : string) : string := trimEnd (trimStart s).

Definition startsWith (s p : string) : bool := String.prefix p s.

Fixpoint rev_string (s : string) : string :=
  match s with
  | EmptyString => EmptyString
  | String c t => rev_string t ++ String c EmptyString
  end.

Definition endsWith (s p : string) : bool :=
  String.prefix (rev_string p) (rev_string s).

(** [s.slice(1, -1)] *)
Definition slice_1_m1 (s : string) : string :=
  substring 1 (String.length s - 2) s.

(** [s.slice(0, -1)] *)
Definition slice_0_m1 (s : string) : string :=
  substring 0 (String.length s - 1) s.

(** [s.split(d)] for a one-character separator [d]: always at least one
    piece. *)
Fixpoint split (d : ascii) (s : string) : list string :=
  match s with
  | EmptyString => [EmptyString]
  | String c t =>
      if Ascii.eqb c d then EmptyString :: split d t
      else match split d t with
           | p :: ps => String c p :: ps
           | [] => [String c EmptyString]
           end
  end.

(** [s.split(/\r?\n/)]: a line feed, or a carriage return directly followed
    by a line feed, is a separator; a lone carriage return stays in its
    piece. *)
Fixpoint splitLines (s : string) : list string :=
  match s with
  | EmptyString => [EmptyString]
  | String c t =>
      if Ascii.eqb c LF then EmptyString :: splitLines t
      else
        match t with
        | String c' t' =>
            if Ascii.eqb c CR && Ascii.eqb c' LF
            then EmptyString :: splitLines t'
            else match splitLines t with
                 | p :: ps => String c p :: ps
                 | [] => [String c EmptyString]
                 end
        | EmptyString => [String c EmptyString]
        end
  end.

(** [s.replace(/\r\n/g, '\n')] *)
Fixpoint replaceCRLF (s : string) : string :=
  match s with
  | EmptyString => EmptyString
  | String c t =>
      match t with
      | String c' t' =>
          if Ascii.eqb c CR && Ascii.eqb c' LF
          then String LF (replaceCRLF t')
          else String c (replaceCRLF t)
      | EmptyString => String c EmptyString
      end
  end.

(** [l.join(sep)] *)
Fixpoint join (sep : string) (l : list string) : string :=
  match l with
  | [] => EmptyString
  | [x] => x
  | x :: xs => x ++ sep ++ join sep xs
  end.

(** [toLowerCase] on code units below 256: A-Z and the accented capitals
    of Latin-1 move up by 32. *)
Definition lowerChar (c : ascii) : ascii :=
  let n := nat_of_ascii c in
  if ((65 <=? n) && (n <=? 90))
     || ((192 <=? n) && (n <=? 222) && negb (n =? 215))
  then ascii_of_nat (n + 32) else c.

Fixpoint toLowerCase (s : string) : string :=
  match s with
  | EmptyString => EmptyString
  | String c t => String (lowerChar c) (toLowerCase t)
  end.

(** [s.includes(p)] *)
Fixpoint includes (s p : string) : bool :=
  String.prefix p s ||
  match s with
  | EmptyString => false
  | String _ t => includes t p
  end.

Definition isDigit (c : ascii) : bool :=
  let n := nat_of_ascii c in (48 <=? n) && (n <=? 57).

Definition isLowerAlnum (c : ascii) : bool :=
  let n := nat_of_ascii c in
  isDigit c || ((97 <=? n) && (n <=? 122)).

Fixpoint digitsVal (acc : Z) (seen : bool) (s : string) : option Z :=
  match s with
  | EmptyString => if seen then Some acc else None
  | String c t =>
      if isDigit c
      then digitsVal (10 * acc + Z.of_nat (nat_of_ascii c - 48)) true t
      else if seen then Some acc else None
  end.

(** [parseInt(s, 10)]: leading white space, an optional sign, then the
    longest run of decimal digits; [None] stands for NaN. *)
Definition parseInt (s : string) : option Z :=
  match trimStart s with
  | String "-" t => option_map Z.opp (digitsVal 0 false t)
  | String "+" t => digitsVal 0 false t
  | t => digitsVal 0 false t
  end.

(** [String(n)] for an integer. *)
Definition digitChar (d : Z) : ascii := ascii_of_nat (48 + Z.to_nat d).

Fixpoint natDigits (fuel : nat) (n : Z) (acc : string) : string :=
  match fuel with
  | O => acc
  | S f =>
      let acc' := String (digitChar (n mod 10)) acc in
      if n / 10 =? 0 then acc' else natDigits f (n / 10) acc'
  end%Z.

Definition toString (n : Z) : string :=
  if (n <? 0)%Z
  then String "-" (natDigits (S (Z.to_nat (Z.log2 (- n)))) (- n) EmptyString)
  else natDigits (S (Z.to_nat (Z.log2 n))) n EmptyString.

(** [Boolean(s)] for a string: non-empty. *)
Definition truthy (s : string) : bool :=
  match s with EmptyString => false | _ => true end.

(** [Array.from(new Set(l))]: first occurrences, in order. *)
Fixpoint uniq (seen : list string) (l : list string) : list string :=
  match l with
  | [] => []
  | x :: xs =>
      if existsb (String.eqb x) seen then uniq seen xs
      else x :: uniq (x :: seen) xs
  end.

(** The members of an optional value. *)
Definition optList {A} (o : option A) : list A :=
  match o with Some x => [x] | None => [] end.

(** [l.push(x)] *)
Definition push {A} (l : list A) (x : A) : list A := (l ++ [x])%list.

End Js.

(* ---------------------------------------------------------------------- *)
(** ** src/io/csv.js                                                       *)
(* ---------------------------------------------------------------------- *)

Module Csv.
Import Js.

(** The cell pattern of [splitCsvLine] has four alternatives, tried in this
    order at every position, with the global flag (Q is the double quote):
      1. a quoted field  Q([^Q]|QQ)*Q  or else a comma-free run  [^,]+
      2. the empty cell between two commas  (?<=,)(?=,)
      3. a comma at index 0 that a comma follows  ^,(?=,)
      4. a comma that ends the line  ,(?=$)
    The matcher below is that pattern unfolded by hand. *)

(** After an opening quote: the rest of a quoted field.  The result is the number of
    characters matched, closing quote included.  The star is greedy: a
    doubled quote is taken as content when a closing quote still follows,
    and is given back (its first quote closes the field) when none does. *)
Fixpoint quotedBody (s : string) : option nat :=
  match s with
  | EmptyString => None
  | String c t =>
      if Ascii.eqb c DQUOTE then
        match t with
        | String c' t' =>
            if Ascii.eqb c' DQUOTE then
              match quotedBody t' with
              | Some n => Some (2 + n)
              | None => Some 1
              end
            else Some 1
        | EmptyString => Some 1
        end
      else option_map S (quotedBody t)
  end.

(** [[^,]+]: the length of the longest comma-free prefix. *)
Fixpoint nonCommaRun (s : string) : nat :=
  match s with
  | EmptyString => 0
  | String c t => if Ascii.eqb c COMMA then 0 else S (nonCommaRun t)
  end.

Definition isComma (o : option ascii) : bool :=
  match o with Some c => Ascii.eqb c COMMA | None => false end.

Definition headChar (s : string) : option ascii :=
  match s with EmptyString => None | String c _ => Some c end.

(** One match attempt at the current position: [prev] is the character
    before it ([None] at index 0), [s] the rest of the line.  The result is
    the length of the match, which is 0 for the empty cell between two
    commas. *)
Definition matchAt (prev : option ascii) (s : string) : option nat :=
  match s with
  | EmptyString => None
  | String c t =>
      if Ascii.eqb c COMMA then
        if isComma prev then Some 0                       (* (?<=,)(?=,) *)
        else match prev, headChar t with
             | None, Some c' =>
                 if Ascii.eqb c' COMMA then Some 1         (* ^,(?=,)     *)
                 else None
             | _, None => Some 1                           (* ,(?=$)      *)
             | _, _ => None
             end
      else
        if Ascii.eqb c DQUOTE then
          match quotedBody t with
          | Some n => Some (S n)                           (* quoted      *)
          | None => Some (nonCommaRun s)                   (* [^,]+       *)
          end
        else Some (nonCommaRun s)
  end.

(** [line.match(re) || []]: the matches from left to right.  [skip] counts
    the characters of the current match still to be passed; after an empty
    match the search resumes one character further. *)
Fixpoint scan (skip : nat) (prev : option ascii) (s : string) : list string :=
  match s with
  | EmptyString => []
  | String c t =>
      match skip with
      | S k => scan k (Some c) t
      | O =>
          match matchAt prev s with
          | Some O => EmptyString :: scan 0 (Some c) t
          | Some (S n) => substring 0 (S n) s :: scan n (Some c) t
          | None => scan 0 (Some c) t
          end
      end
  end.

(** The replacement of every doubled quote by one quote,
    [t.replace(/QQ/g, Q)]. *)
Fixpoint unescapeQuotes (s : string) : string :=
  match s with
  | EmptyString => EmptyString
  | String c t =>
      match t with
      | String c' t' =>
          if Ascii.eqb c DQUOTE && Ascii.eqb c' DQUOTE
          then String DQUOTE (unescapeQuotes t')
          else String c (unescapeQuotes t)
      | EmptyString => String c EmptyString
      end
  end.

Definition QUOTE1 : string := String DQUOTE EmptyString.

Definition cleanCell (m : string) : string :=
  let t := trim m in
  if startsWith t QUOTE1 && endsWith t QUOTE1
  then unescapeQuotes (slice_1_m1 t)
  else t.

Definition splitCsvLine (line : string) : list string :=
  map cleanCell (scan 0 None line).

Record Row := mkRow {
  expectedUrl : string;
  expectedTitle : string;
  expectedDesc : string
}.

(** [/url|title|description/i.test(line)] *)
Definition looksLikeHeader (line : string) : bool :=
  let l := toLowerCase line in
  includes l "url" || includes l "title" || includes l "description".

Definition nonBlank (l : string) : bool :=
  negb (String.length (trim l) =? 0).

(** The body of the [for] loop: what one line adds to [rows]. *)
Definition pushLine (rows : list Row) (line : string) : list Row :=
  match splitCsvLine line with
  | u :: t :: d :: _ => push rows (mkRow (trim u) (trim t) (trim d))
  | [t; d] => push rows (mkRow EmptyString (trim t) (trim d))
  | _ => rows
  end.

(** [parseCsv(file, hasHeader)] on the text of the file. *)
Definition parseCsv (raw : string) (hasHeader : string) : list Row :=
  let lines := filter nonBlank (splitLines raw) in
  match lines with
  | [] => []
  | first :: _ =>
      let start :=
        if String.eqb hasHeader "true"
           || (String.eqb hasHeader "auto" && looksLikeHeader first)
        then 1 else 0 in
      fold_left pushLine (skipn start lines) []
  end.

End Csv.

(* ---------------------------------------------------------------------- *)
(** ** src/match/normalize.js (text) and src/match/matcher.js              *)
(* ---------------------------------------------------------------------- *)

Module Matcher.
Import Js.

(** The class of the first [replace] holds the apostrophe and the two curly
    quotes U+2018 and U+2019; below code unit 256 only the apostrophe is in
    it, and it is replaced by itself. *)
Definition isQuoteLike (c : ascii) : bool := Ascii.eqb c "'"%char.

Fixpoint straightenQuotes (s : string) : string :=
  match s with
  | EmptyString => EmptyString
  | String c t =>
      String (if isQuoteLike c then "'"%char else c) (straightenQuotes t)
  end.

(** [s.replace(/\s+/g, ' ')]: every maximal run of white space becomes one
    space. *)
Fixpoint collapseWhite (s : string) : string :=
  match s with
  | EmptyString => EmptyString
  | String c t =>
      if isWhite c then
        match t with
        | String c' _ =>
            if isWhite c' then collapseWhite t
            else String " "%char (collapseWhite t)
        | EmptyString => String " "%char EmptyString
        end
      else String c (collapseWhite t)
  end.

Definition normalizeText (s : string) : string :=
  trim (collapseWhite (straightenQuotes (toLowerCase s))).

(** [s.split(/[^a-z0-9]+/).filter(Boolean)]: the maximal runs of lower-case
    letters and digits.  [cur] is the run being read, reversed. *)
Fixpoint alnumRuns (cur : string) (s : string) : list string :=
  match s with
  | EmptyString => if truthy cur then [rev_string cur] else []
  | String c t =>
      if isLowerAlnum c then alnumRuns (String c cur) t
      else if truthy cur then rev_string cur :: alnumRuns EmptyString t
           else alnumRuns EmptyString t
  end.

(** [tokens(s)]: a [Set], kept as the list of its members in insertion
    order. *)
Definition tokens (s : string) : list string :=
  uniq [] (alnumRuns EmptyString (normalizeText s)).

Definition has (B : list string) (t : string) : bool :=
  existsb (String.eqb t) B.

(** [jaccard(a, b)], an exact rational. *)
Definition jaccard (a b : string) : Q :=
  let A := tokens a in
  let B := tokens b in
  let inter := List.length (filter (has B) A) in
  let uni := List.length A + List.length B - inter in
  if uni =? 0 then 0%Q
  else Qmake (Z.of_nat inter) (Pos.of_nat uni).

Record Page := mkPage { titleN : string; url : string }.

Inductive MatchType := TNone | TExact | TPrefix | TFuzzy.

Record Match := mkMatch {
  type : MatchType;
  items : list Page;
  score : option Q
}.

Record Opts := mkOpts {
  prefixWords : option Z;
  fuzzyThreshold : option Q
}.

(** [l.slice(0, k)]: a negative [k] counts from the end. *)
Definition slice0 {A} (k : Z) (l : list A) : list A :=
  if (k <? 0)%Z then firstn (List.length l - Z.to_nat (- k)) l
  else firstn (Z.to_nat k) l.

(** [.sort((a, b) => b.s - a.s)]: stable, by descending score. *)
Fixpoint insertDesc (x : Page * Q) (l : list (Page * Q)) : list (Page * Q) :=
  match l with
  | [] => [x]
  | y :: ys =>
      if Qlt_le_dec (snd x) (snd y) then y :: insertDesc x ys
      else x :: l
  end.

Definition sortDesc (l : list (Page * Q)) : list (Page * Q) :=
  fold_right insertDesc [] l.

Definition qeq (a b : Q) : bool := Qeq_bool a b.

Definition findByPrefixThenSimilarity
  (pages : list Page) (expectedTitleN : string) (opts : Opts) : Match :=
  let K := match prefixWords opts with Some k => k | None => 4%Z end in
  let T := match fuzzyThreshold opts with Some t => t | None => (6 # 10)%Q end in
  (* exact *)
  let hits := filter (fun p => String.eqb (titleN p) expectedTitleN) pages in
  if negb (List.length hits =? 0) then mkMatch TExact hits None else
  (* prefix by N words *)
  let prefix := join " " (slice0 K (split " "%char expectedTitleN)) in
  let hits := filter (fun p => startsWith (titleN p) prefix) pages in
  if negb (List.length hits =? 0) then mkMatch TPrefix hits None else
  (* fuzzy by jaccard *)
  let scored :=
    sortDesc
      (filter (fun x => Qle_bool T (snd x))
         (map (fun p => (p, jaccard (titleN p) expectedTitleN)) pages)) in
  match scored with
  | [] => mkMatch TNone [] None
  | top :: _ =>
      mkMatch TFuzzy
        (map fst (filter (fun x => qeq (snd x) (snd top)) scored))
        (Some (snd top))
  end.

End Matcher.

(* ---------------------------------------------------------------------- *)
(** ** src/io/reports.js: the title-based branch of [writeReports]         *)
(* ---------------------------------------------------------------------- *)

Module Reports.
Import Js Matcher.

(** Where the comparison loop sends a row that carries no explicit URL. *)
Inductive TitleRow :=
| ToNotFound                                   (* notFoundRows.push   *)
| ToAmbiguous (t : MatchType) (candidates : list string)
                                               (* ambiguousRows.push  *)
| ToCompare (t : MatchType) (pageUrl : string) (* the single hit      *).

Definition titleBased (pages : list Page) (cfg : Opts)
  (expectedTitle : string) : TitleRow :=
  let expectedTitleN := normalizeText expectedTitle in
  let m := findByPrefixThenSimilarity pages expectedTitleN cfg in
  match type m with
  | TNone => ToNotFound
  | t =>
      match items m with
      | p :: _ :: _ => ToAmbiguous t (map url (items m))
      | [p] => ToCompare t (url p)
      | [] => ToNotFound   (* not reached: a selected tier has a hit *)
      end
  end.

End Reports.

(* ---------------------------------------------------------------------- *)
(** ** src/match/normalize.js: [normalizeUrl]                              *)
(* ---------------------------------------------------------------------- *)

Module Normalize.
Import Js.

(** The platform's [URL] object, as far as [normalizeUrl] touches it.  The
    record keeps the components that the URL standard keeps: the query and
    the fragment are absent ([None]) or present, possibly empty.  [params]
    is the list of the [searchParams] object: the platform fills it from
    the query when the URL is parsed, and writes the query anew from it
    after a [delete]. *)
Record URL := mkURL {
  protocol : string;          (* with its colon, lower case *)
  host : string;
  pathname : string;          (* starts with a slash *)
  query : option string;      (* without the question mark *)
  fragment : option string;   (* without the hash sign *)
  params : list (string * string)
}.

(** The text before the first character that satisfies [p], and the text
    from that character on. *)
Fixpoint breakAt (p : ascii -> bool) (s : string) : string * string :=
  match s with
  | EmptyString => (EmptyString, EmptyString)
  | String c t =>
      if p c then (EmptyString, s)
      else let (a, b) := breakAt p t in (String c a, b)
  end.

Definition isAlpha (c : ascii) : bool :=
  let n := nat_of_ascii (lowerChar c) in (97 <=? n) && (n <=? 122).

Definition isAlnum (c : ascii) : bool := isAlpha c || isDigit c.

Definition oneOf (set : string) (c : ascii) : bool :=
  existsb (Ascii.eqb c) (list_ascii_of_string set).

Fixpoint allChars (p : ascii -> bool) (s : string) : bool :=
  match s with
  | EmptyString => true
  | String c t => p c && allChars p t
  end.

Definition tailOpt (s : string) : option string :=
  match s with EmptyString => None | String _ t => Some t end.

(** *** The URLs covered

    [new URL] is the parser of the URL standard, a part of the platform.
    It is modelled on the class of strings on which it does no more than
    lower-case scheme and host and supply the root path:
    [http://host/path?query#fragment] or the same with [https], where
    - the host is made of labels of letters, digits and inner hyphens,
      separated by single dots, the last label starting with a letter and
      no label having hyphens in third and fourth place (so: no port, no
      credentials, no IP address, no punycode);
    - the path is written with the characters of [pathChar] and has no
      segment [.] or [..];
    - query and fragment are written with the characters of [queryChar].
    This leaves out white space and control characters anywhere, the
    percent sign, the plus sign in a query, the backslash and every
    character that the standard would percent-encode.  *)

Definition pathChar (c : ascii) : bool :=
  isAlnum c || oneOf "-._~!$&'()*+,;=:@/" c.

Definition queryChar (c : ascii) : bool :=
  isAlnum c || oneOf "-._~!$&()*,;=:@/?" c.

Definition optAll (p : ascii -> bool) (o : option string) : bool :=
  match o with Some s => allChars p s | None => true end.

Definition plainLabel (l : string) : bool :=
  truthy l
  && allChars (fun c => isAlnum c || Ascii.eqb c "-") l
  && negb (startsWith l "-") && negb (endsWith l "-")
  && negb (String.eqb (substring 2 2 l) "--").

Definition plainHost (h : string) : bool :=
  let labels := split "." h in
  forallb plainLabel labels
  && match last labels EmptyString with
     | String c _ => isAlpha c
     | EmptyString => false
     end.

Definition plainPath (p : string) : bool :=
  allChars pathChar p
  && forallb (fun seg => negb (String.eqb seg ".") && negb (String.eqb seg ".."))
             (split "/" p).

(** The name-value pairs of a query, as the parser of
    [application/x-www-form-urlencoded] yields them: the pieces between
    ampersands, empty pieces skipped, each cut at its first equals sign.
    (On the queries covered there is no plus or percent sign to decode.) *)
Definition parsePair (kv : string) : string * string :=
  let (k, v) := breakAt (Ascii.eqb "="%char) kv in
  (k, match v with EmptyString => EmptyString | String _ t => t end).

Definition parseQuery (q : option string) : list (string * string) :=
  match q with
  | None => []
  | Some q => map parsePair (filter truthy (split "&"%char q))
  end.

(** [new URL(u)] for a string [u] of the class above.  [None] when it
    throws, and also for every string outside that class: there the
    platform may return a URL that this record does not describe, and
    nothing is stated about such strings. *)
Definition parseURL (u : string) : option URL :=
  let (scheme, r0) := breakAt (Ascii.eqb ":"%char) u in
  let scheme := toLowerCase scheme in
  if negb (String.eqb scheme "http" || String.eqb scheme "https") then None else
  if negb (startsWith r0 "://") then None else
  let r1 := substring 3 (String.length r0 - 3) r0 in
  let (beforeHash, h) := breakAt (Ascii.eqb "#"%char) r1 in
  let (beforeQuery, q) := breakAt (Ascii.eqb "?"%char) beforeHash in
  let (authority, path) := breakAt (Ascii.eqb "/"%char) beforeQuery in
  if negb (plainHost authority && plainPath path
           && optAll queryChar (tailOpt q) && optAll queryChar (tailOpt h))
  then None else
  Some (mkURL (scheme ++ ":")
              (toLowerCase authority)
              (if truthy path then path else "/")
              (tailOpt q)
              (tailOpt h)
              (parseQuery (tailOpt q))).

(** [url.toString()] *)
Definition href (u : URL) : string :=
  protocol u ++ "//" ++ host u ++ pathname u
  ++ match query u with Some q => "?" ++ q | None => "" end
  ++ match fragment u with Some f => "#" ++ f | None => "" end.

(** [url.searchParams]: the name-value pairs of the query. *)
Definition searchParams (u : URL) : list (string * string) := params u.

Definition keys (u : URL) : list string := map fst (searchParams u).

(** The serializer of [application/x-www-form-urlencoded]: letters,
    digits and [*-._] stay, a space becomes a plus sign, every other
    character is written as the percent-encoded bytes of its UTF-8 form
    (two bytes for a code unit from 128 on). *)
Definition hexDigit (n : nat) : ascii :=
  if n <? 10 then ascii_of_nat (48 + n) else ascii_of_nat (55 + n).

Definition percentByte (n : nat) : string :=
  String "%" (String (hexDigit (n / 16)) (String (hexDigit (n mod 16)) EmptyString)).

Definition formChar (c : ascii) : string :=
  let n := nat_of_ascii c in
  if isAlnum c || oneOf "*-._" c then String c EmptyString
  else if n =? 32 then "+"
  else if n <? 128 then percentByte n
  else percentByte (192 + n / 64) ++ percentByte (128 + n mod 64).

Fixpoint formEncode (s : string) : string :=
  match s with
  | EmptyString => EmptyString
  | String c t => formChar c ++ formEncode t
  end.

Definition serializeParams (l : list (string * string)) : string :=
  join "&" (map (fun kv => formEncode (fst kv) ++ "=" ++ formEncode (snd kv)) l).

(** [url.searchParams.delete(k)]: removes every pair named [k] from the
    list and writes the whole list back into the URL as form data; an
    emptied list leaves no query. *)
Definition deleteParam (k : string) (u : URL) : URL :=
  let l := filter (fun kv => negb (String.eqb (fst kv) k)) (searchParams u) in
  mkURL (protocol u) (host u) (pathname u)
        (match l with [] => None | _ => Some (serializeParams l) end)
        (fragment u) l.

Definition drop : list string :=
  ["utm_source"; "utm_medium"; "utm_campaign"; "utm_term"; "utm_content";
   "gclid"; "fbclid"].

(** [url.hash = '']: no fragment. *)
Definition setHashEmpty (u : URL) : URL :=
  mkURL (protocol u) (host u) (pathname u) (query u) None (params u).

(** [url.search = '']: no query, and an empty list. *)
Definition setSearchEmpty (u : URL) : URL :=
  mkURL (protocol u) (host u) (pathname u) None (fragment u) [].

Definition setHost (h : string) (u : URL) : URL :=
  mkURL (protocol u) (toLowerCase h) (pathname u) (query u) (fragment u)
        (params u).

Definition setPathname (p : string) (u : URL) : URL :=
  mkURL (protocol u) (host u)
        (if startsWith p "/" then p else "/" ++ p) (query u) (fragment u)
        (params u).

Record Opts := mkOpts { keepPageParam : bool }.

(** The body of [normalizeUrl] after [new URL(u)] has succeeded. *)
Definition normalizeParsed (url : URL) (opts : Opts) : string :=
  let url := setHashEmpty url in
  let url :=
    fold_left
      (fun url k =>
         if existsb (String.eqb (toLowerCase k)) drop
         then deleteParam k url else url)
      (keys url) url in
  let url :=
    if negb (keepPageParam opts) && existsb (String.eqb "page") (keys url)
    then deleteParam "page" url else url in
  let url := setHost (toLowerCase (host url)) url in
  let url :=
    if List.length (keys url) =? 0 then setSearchEmpty url else url in
  let url :=
    if (1 <? String.length (pathname url)) && endsWith (pathname url) "/"
    then setPathname (slice_0_m1 (pathname url)) url else url in
  href url.

(** [normalizeUrl(u, opts)]; [None] where [new URL(u)] has no modelled
    result. *)
Definition normalizeUrl (u : string) (opts : Opts) : option string :=
  match parseURL u with
  | Some url => Some (normalizeParsed url opts)
  | None => None
  end.

End Normalize.

(* ---------------------------------------------------------------------- *)
(** ** src/utils/telemetry.js: pre-flight classifier and output gate       *)
(* ---------------------------------------------------------------------- *)

Module Telemetry.
Import Js.

Record Shape := mkShape {
  exists_ : bool;
  cols : nat;
  firstColUrlShare : Q;
  firstRowIsUrl : bool;
  inferredRoles : list string
}.

Definition noShape : Shape := mkShape false 0 0%Q false [].

(** [raw.replace(/^\uFEFF/, '')]: the byte-order mark U+FEFF is not a code
    unit below 256, so a modelled string never starts with it. *)
Definition stripBOM (raw : string) : string := raw.

(** [isUrl]: [/^(https?:)?\/\//i.test(t) || t.startsWith('/')] on the
    trimmed cell; an empty cell is not a URL. *)
Definition isUrl (s : string) : bool :=
  if negb (truthy s) then false else
  let t := trim s in
  let l := toLowerCase t in
  startsWith l "//" || startsWith l "http://" || startsWith l "https://"
  || startsWith t "/".

Definition cell (r : list string) (i : nat) : string := nth i r EmptyString.

Definition countIf {A} (p : A -> bool) (l : list A) : nat :=
  List.length (filter p l).

Definition ratio (k n : nat) : Q := Qmake (Z.of_nat k) (Pos.of_nat n).

Definition gtQ (a b : Q) : bool := negb (Qle_bool a b).
Definition ltQ (a b : Q) : bool := negb (Qle_bool b a).
Definition geQ (a b : Q) : bool := Qle_bool b a.

Definition sumLen (i : nat) (rows : list (list string)) : nat :=
  fold_left (fun s r => s + String.length (cell r i)) rows 0.

(** The delimiter loop: the first of comma, tab, semicolon that splits the
    first line into the most pieces. *)
Definition pickDelim (line0 : string) : ascii * nat :=
  fold_left
    (fun best d =>
       let c := List.length (split d line0) in
       if snd best <? c then (d, c) else best)
    [COMMA; TAB; ";"%char] (COMMA, 0).

(** [sniffCsvShape(filePath)]; [file] is the text at that path, [None] when
    the path is empty, names no file, or cannot be read. *)
Definition sniffCsvShape (file : option string) : Shape :=
  match file with
  | None => noShape
  | Some content =>
      let raw := stripBOM content in
      let lines :=
        firstn 50 (filter (fun l => truthy (trim l)) (splitLines raw)) in
      match lines with
      | [] => noShape
      | line0 :: _ =>
          let (bestDelim, maxCols) := pickDelim line0 in
          let rows := map (split bestDelim) lines in
          let cols := maxCols in
          let n := List.length rows in
          let firstColUrlShare :=
            ratio (countIf (fun r => isUrl (cell r 0)) rows) n in
          let firstRowIsUrl := isUrl (cell (hd [] rows) 0) in
          let roles :=
            if cols =? 3 then ["url"; "title"; "description"]
            else if cols =? 2 then
              let col1Url := ratio (countIf (fun r => isUrl (cell r 0)) rows) n in
              let col2Url := ratio (countIf (fun r => isUrl (cell r 1)) rows) n in
              if gtQ col1Url (6 # 10) && ltQ col2Url (3 # 10) then
                let avgLen := ratio (sumLen 1 rows) n in
                ["url"; if ltQ avgLen (120 # 1) then "title" else "description"]
              else if ltQ col1Url (3 # 10) && ltQ col2Url (3 # 10) then
                ["title"; "description"]
              else []
            else if cols =? 1 then
              if geQ firstColUrlShare (6 # 10) then ["url"]
              else
                let avg := ratio (sumLen 0 rows) n in
                [if ltQ avg (120 # 1) then "title" else "description"]
            else [] in
          mkShape true cols firstColUrlShare firstRowIsUrl roles
      end
  end.

Record GateError := mkErr { key : string; reason : string }.

Definition includesStr (l : list string) (x : string) : bool :=
  existsb (String.eqb x) l.

(** [validateOutputs(selected, shape)]: the list of errors, in the order
    they are pushed. *)
Definition validateOutputs (selected : list string) (shape : Shape)
  : list GateError :=
  let sel := selected in
  let hasInput := exists_ shape in
  let roles := inferredRoles shape in
  let errors := [] in
  let errors :=
    if includesStr sel "existence_csv" then
      if negb hasInput then
        push errors (mkErr "existence_csv" "No input file found for existence check.")
      else if negb (includesStr roles "url")
              && negb (geQ (firstColUrlShare shape) (6 # 10)) then
        push errors (mkErr "existence_csv" "First column must look like URLs (>=60%).")
      else errors
    else errors in
  let errors :=
    if includesStr sel "comparison_csv" then
      if negb hasInput then
        push errors (mkErr "comparison_csv" "Comparison requires an input file.")
      else if negb (includesStr roles "title")
              && negb (includesStr roles "description") then
        push errors (mkErr "comparison_csv" "Need a title and/or description column detected.")
      else errors
    else errors in
  let errors :=
    if negb hasInput then
      let errors :=
        if includesStr sel "existence_csv"
        then push errors (mkErr "existence_csv" "Forbidden when no input file is provided.")
        else errors in
      if includesStr sel "comparison_csv"
      then push errors (mkErr "comparison_csv" "Forbidden when no input file is provided.")
      else errors
    else errors in
  errors.

(** The verdict on the gate's own errors: [errors.length === 0]. *)
Record GateResult := mkGate { ok : bool; errors : list GateError }.

Definition gate (selected : list string) (shape : Shape) : GateResult :=
  let errs := validateOutputs selected shape in
  mkGate (List.length errs =? 0) errs.





End Telemetry.

(* ---------------------------------------------------------------------- *)
(** ** src/lib/output-gating.js: the stand-alone gate                      *)
(* ---------------------------------------------------------------------- *)

Module Gating.
Import Js.

(** The shape this variant reads: [inferredRoles] is a list of role lists,
    of which the first is used. *)
Record Shape := mkShape {
  exists_ : bool;
  firstColUrlShare : Q;
  inferredRoles : list (list string)
}.

Record Result := mkResult { ok : bool; errors : list string }.

(** The messages are those of the source, with its two non-ASCII signs
    (greater-or-equal, en dash) written in ASCII. *)
Definition validateOutputs (shape : Shape) (selections : list string)
  : Result :=
  let hasInput := exists_ shape in
  let urlishEnough := Telemetry.geQ (firstColUrlShare shape) (6 # 10) in
  let wants := Telemetry.includesStr selections in
  let errors := [] in
  let errors :=
    if wants "existence_csv" then
      let errors :=
        if negb hasInput
        then push errors ("existence_csv requires an input file.")
        else errors in
      if negb urlishEnough
      then push errors ("existence_csv requires first column to be URL-ish in >=60% rows.")
      else errors
    else errors in
  let errors :=
    if wants "comparison_csv" then
      let errors :=
        if negb hasInput
        then push errors ("comparison_csv requires an input file.")
        else errors in
      let roles := hd [] (inferredRoles shape) in
      let hasTitleOrDesc :=
        Telemetry.includesStr roles "title"
        || Telemetry.includesStr roles "description" in
      if negb hasTitleOrDesc
      then push errors ("comparison_csv requires title and/or description columns (inferred from 2-3 column inputs).")
      else errors
    else errors in
  mkResult (List.length errors =? 0) errors.

End Gating.

(* ---------------------------------------------------------------------- *)
(** ** src/run.js: input-mode resolution                                   *)
(* ---------------------------------------------------------------------- *)

Module Run.
Import Js.

(** A parsed row is an array of cells or an object with named cells; the
    helpers of run.js accept both. *)
Inductive Row :=
| RArr (cells : list string)
| RObj (fields : list (string * string)).

(** The rows [parseCsv] hands over: objects with three keys. *)
Definition ofCsvRow (r : Csv.Row) : Row :=
  RObj [("expectedUrl", Csv.expectedUrl r);
        ("expectedTitle", Csv.expectedTitle r);
        ("expectedDesc", Csv.expectedDesc r)].

(** [isUrlish]: the pattern [^(https?:)?//] without case, or a leading
    slash; the cell is not trimmed here. *)
Definition isUrlish (s : string) : bool :=
  let l := toLowerCase s in
  startsWith l "//" || startsWith l "http://" || startsWith l "https://"
  || startsWith s "/".

Definition firstCell (row : Row) : string :=
  match row with
  | RArr cells => nth 0 cells EmptyString
  | RObj fields => nth 0 (map snd fields) EmptyString
  end.

Definition width (row : Row) : nat :=
  match row with
  | RArr cells => List.length cells
  | RObj fields => List.length fields
  end.

Record Shape := mkShape {
  mode : string;
  cols : nat;
  firstColUrlShare : Q;
  firstRowIsUrl : bool
}.

Definition noInputShape : Shape := mkShape "no-input" 0 0%Q false.

Definition sniffInputShape (rows : list Row) : Shape :=
  match rows with
  | [] => noInputShape
  | sample :: _ =>
      let firstCol := map firstCell rows in
      mkShape "has-input" (width sample)
        (Telemetry.ratio (Telemetry.countIf isUrlish firstCol)
                         (Nat.max 1 (List.length firstCol)))
        (isUrlish (nth 0 firstCol EmptyString))
  end.

(** [/^https?:\/\//i.test(s)] *)
Definition isAbsHttp (s : string) : bool :=
  let l := toLowerCase s in
  startsWith l "http://" || startsWith l "https://".

(** [s.replace(/\/+$/, '')] *)
Fixpoint stripTrailingSlashes (s : string) : string :=
  match s with
  | EmptyString => EmptyString
  | String c t =>
      match stripTrailingSlashes t with
      | EmptyString =>
          if Ascii.eqb c "/"%char then EmptyString else String c EmptyString
      | t' => String c t'
      end
  end.

(** [u.origin] of an http(s) URL without a port. *)
Definition originOf (u : Normalize.URL) : string :=
  Normalize.protocol u ++ "//" ++ Normalize.host u.

(** [u.search]: empty for an absent or empty query. *)
Definition searchOf (u : Normalize.URL) : string :=
  match Normalize.query u with
  | Some (String c q) => "?" ++ String c q
  | _ => EmptyString
  end.

(** [new URL(u0.pathname + u0.search, origin)] once [u0.origin] is
    [origin].  The text is a reference relative to the origin: when it
    starts with two slashes it is scheme-relative and brings a host of its
    own, and is read as a URL with the scheme of [u0]; otherwise it is
    path-absolute and the result has scheme and host of the origin, the
    path of [u0] and its query when that is not empty. *)
Definition onOrigin (u0 : Normalize.URL) : option Normalize.URL :=
  let rel := Normalize.pathname u0 ++ searchOf u0 in
  if startsWith rel "//" then Normalize.parseURL (Normalize.protocol u0 ++ rel)
  else
    let q := match Normalize.query u0 with
             | Some (String c q) => Some (String c q)
             | _ => None
             end in
    Some (Normalize.mkURL (Normalize.protocol u0) (Normalize.host u0)
                          (Normalize.pathname u0) q None
                          (Normalize.parseQuery q)).

(** The callback that maps an absolute candidate onto the base origin;
    [None] for a candidate that is dropped, and where [new URL] has no
    modelled result. *)
Definition rebase (origin pathPrefix h : string) : option string :=
  match Normalize.parseURL h with
  | None => None
  | Some u0 =>
      if negb (String.eqb (originOf u0) origin) then None
      else
        match onOrigin u0 with
        | None => None
        | Some u1 =>
            let u := stripTrailingSlashes (Normalize.href u1) in
            if truthy pathPrefix
               && negb (startsWith (Normalize.pathname u0) pathPrefix)
            then None
            else Some u
        end
  end.

(** [sniffInputForExplicitUrls]: the rows it parses are passed in; [None]
    when parsing throws. *)
Definition sniffInputForExplicitUrls
  (parsed : option (list Row)) (origin pathPrefix : string)
  : bool * list string :=
  match parsed with
  | None | Some [] => (false, [])
  | Some ((row0 :: _) as rows) =>
      let headers :=
        match row0 with RObj fields => map fst fields | RArr _ => [] end in
      let hasUrlHeader :=
        existsb (fun k => String.eqb (toLowerCase k) "url") headers in
      let firstCol :=
        filter truthy
          (map (fun r =>
                  match r with
                  | RArr cells => trim (nth 0 cells EmptyString)
                  | RObj fields =>
                      match headers with
                      | h0 :: _ =>
                          trim (match find (fun kv => String.eqb (fst kv) h0) fields
                                with Some kv => snd kv | None => EmptyString end)
                      | [] => EmptyString
                      end
                  end) rows) in
      let abs := filter isAbsHttp firstCol in
      let looksExplicit :=
        hasUrlHeader
        || (negb (List.length firstCol =? 0)
            && Telemetry.geQ
                 (Telemetry.ratio (List.length abs) (List.length firstCol))
                 (9 # 10)) in
      if negb looksExplicit then (false, []) else
      let normalized :=
        uniq [] (filter truthy
                   (flat_map (fun h => optList (rebase origin pathPrefix h)) abs)) in
      if List.length normalized =? 0 then (false, [])
      else (true, normalized)
  end.

(** The variables the resolution block of [run] assigns. *)
Record Resolution := mkRes {
  sitemapMode : bool;
  comparisonEnabled : bool;
  shape : Shape
}.

(** The block under [Input mode resolution]. *)
Definition resolve (usingUrlsFile forceFrontier inputExists explicit : bool)
  (rows : list Row) : Resolution :=
  let st := mkRes false true noInputShape in
  if usingUrlsFile then st else
  let st :=
    if negb forceFrontier && explicit
    then mkRes true false (shape st)
    else mkRes (sitemapMode st) (comparisonEnabled st) (sniffInputShape rows) in
  let sh := shape st in
  if negb inputExists || String.eqb (mode sh) "no-input" then
    mkRes (sitemapMode st) false sh
  else if negb forceFrontier && (3 <=? cols sh) then
    mkRes true (comparisonEnabled st) sh
  else if cols sh =? 1 then
    if negb forceFrontier && Telemetry.geQ (firstColUrlShare sh) (6 # 10)
    then mkRes true false sh
    else st
  else if cols sh =? 2 then
    if negb forceFrontier
       && (firstRowIsUrl sh || Telemetry.geQ (firstColUrlShare sh) (6 # 10))
    then mkRes true (comparisonEnabled st) sh
    else st
  else st.

(** The argument of [telemetry.setMode]. *)
Definition modeName (inputExists sitemapMode : bool) : string :=
  if negb inputExists then "no-input"
  else if sitemapMode then "explicit-urls"
  else "discovery".

(** The mode a worker reports.  [input] is the text of the file at
    [cfg.input], [None] when no path is given or no file is there. *)
Definition runMode (usingUrlsFile forceFrontier : bool)
  (input : option string) (origin pathPrefix : string) : string :=
  let inputExists := match input with Some _ => true | None => false end in
  let rows :=
    match input with
    | Some raw => map ofCsvRow (Csv.parseCsv raw "auto")
    | None => []
    end in
  let parsed :=
    match input with
    | Some raw => Some (map ofCsvRow (Csv.parseCsv raw "auto"))
    | None => None
    end in
  let explicit := fst (sniffInputForExplicitUrls parsed origin pathPrefix) in
  modeName inputExists
    (sitemapMode (resolve usingUrlsFile forceFrontier inputExists explicit rows)).

End Run.

(* ---------------------------------------------------------------------- *)
(** ** src/discover/frontier.js: claim ledger and bucket cursor            *)
(* ---------------------------------------------------------------------- *)

Module Frontier.
Import Js.

(** Error codes of a failed exclusive create. *)
Inductive Errno := EEXIST | EBUSY | EPERM | EACCES | EPROTO | EOTHER.

(** [e.code === 'EBUSY' || 'EPERM' || 'EACCES' || 'EPROTO'] *)
Definition transient (e : Errno) : bool :=
  match e with
  | EBUSY | EPERM | EACCES | EPROTO => true
  | EEXIST | EOTHER => false
  end.

(** What a process does to the outside, in order. *)
Inductive Event :=
| EvOpen (outcome : option Errno)   (* fs.openSync(lockPath, 'wx')   *)
| EvSleep (ms : option Z).          (* sleepMs(ms); [None] is NaN    *)

Record Env := mkEnv {
  MC_LOCK_TRIES : option string;
  MC_LOCK_SLEEP : option string;
  MC_MAX_DONE : option string;
  MC_POLITE_DELAY_MS : option string
}.

Definition defaultEnv : Env := mkEnv None None None None.

(** [parseInt(process.env.X || dflt, 10)] *)
Definition envInt (v : option string) (dflt : string) : option Z :=
  match v with
  | Some (String c s) => parseInt (String c s)
  | _ => parseInt dflt
  end.

Definition MAX_TRIES (env : Env) : option Z := envInt (MC_LOCK_TRIES env) "60".
Definition SLEEP_MS (env : Env) : option Z := envInt (MC_LOCK_SLEEP env) "100".
Definition maxDone (env : Env) : option Z := envInt (MC_MAX_DONE env) "5000".

(** How often [for (let i = 0; i < MAX_TRIES; i++)] can run its body. *)
Definition tries (env : Env) : nat :=
  match MAX_TRIES env with Some n => Z.to_nat n | None => 0 end.

(** The part of the file system and of its behaviour that the frontier
    touches.  [openFaults] and [writeFaults] are what the operating system
    will answer to the coming exclusive creates and lock writes: [Some e]
    makes the create fail with [e] whatever the directory holds, [None]
    lets the directory decide. *)
Record World := mkWorld {
  locks : list string;                 (* the files of locksDir, as listed *)
  bucketFile : nat -> option string;   (* bucket.r.ndjson                  *)
  offsetFile : nat -> option string;   (* bucket.r.offset                  *)
  openFaults : list (option Errno);
  writeFaults : list bool;
  log : list Event
}.

Definition existsSync (name : string) (w : World) : bool :=
  existsb (String.eqb name) (locks w).

Definition setLocks (l : list string) (w : World) : World :=
  mkWorld l (bucketFile w) (offsetFile w) (openFaults w) (writeFaults w) (log w).

Definition emit (e : Event) (w : World) : World :=
  mkWorld (locks w) (bucketFile w) (offsetFile w) (openFaults w)
          (writeFaults w) (push (log w) e).

Definition unlinkSync (name : string) (w : World) : World :=
  setLocks (filter (fun f => negb (String.eqb f name)) (locks w)) w.

(** [fs.openSync(lockPath, 'wx')]: the error, or [None] when the file has
    been created. *)
Definition openExclusive (lockPath : string) (w : World)
  : option Errno * World :=
  let fault := hd None (openFaults w) in
  let w := mkWorld (locks w) (bucketFile w) (offsetFile w)
                   (tl (openFaults w)) (writeFaults w) (log w) in
  let outcome :=
    match fault with
    | Some e => Some e
    | None => if existsSync lockPath w then Some EEXIST else None
    end in
  let w := emit (EvOpen outcome) w in
  match outcome with
  | Some e => (Some e, w)
  | None => (None, setLocks (push (locks w) lockPath) w)
  end.

(** [fs.writeFileSync(fd, ...)] into the fresh lock: [true] when it
    throws. *)
Definition writeLock (w : World) : bool * World :=
  (hd false (writeFaults w),
   mkWorld (locks w) (bucketFile w) (offsetFile w) (openFaults w)
           (tl (writeFaults w)) (log w)).

(** The retry loop of [tryClaim]; [true] when [fd] ends up open. *)
Fixpoint acquire (n : nat) (sleep : option Z) (lockPath : string) (w : World)
  : bool * World :=
  match n with
  | O => (false, w)
  | S k =>
      match openExclusive lockPath w with
      | (None, w1) => (true, w1)
      | (Some e, w1) =>
          if transient e then acquire k sleep lockPath (emit (EvSleep sleep) w1)
          else (false, w1)
      end
  end.

(** The best-effort pruning of old completion markers. *)
Definition pruneDone (env : Env) (w : World) : World :=
  let files := filter (fun f => endsWith f ".done") (locks w) in
  match maxDone env with
  | Some m =>
      if (m <? Z.of_nat (List.length files))%Z then
        let victims :=
          firstn (Z.to_nat (Z.of_nat (List.length files) - m)) files in
        fold_left (fun w v => unlinkSync v w) victims w
      else w
  | None => w
  end.

Record Claim := mkClaim { lockPath : string; donePath : string }.

Section Ledger.

(** The hexadecimal SHA-1 digest of node's crypto module. *)
Variable sha1 : string -> string.

Definition tryClaim (env : Env) (url : string) (w : World)
  : option Claim * World :=
  let id := sha1 url in
  let lockPath := id ++ ".lock" in
  let donePath := id ++ ".done" in
  if existsSync donePath w then (None, w) else
  match acquire (tries env) (SLEEP_MS env) lockPath w with
  | (false, w1) => (None, w1)
  | (true, w1) =>
      match writeLock w1 with
      | (true, w2) => (None, unlinkSync lockPath w2)
      | (false, w2) => (Some (mkClaim lockPath donePath), pruneDone env w2)
      end
  end.

(** The two terminal operations of a claim. *)
Definition complete (c : Claim) (w : World) : World :=
  setLocks (push (filter (fun f => negb (String.eqb f (lockPath c))) (locks w))
                 (donePath c)) w.

Definition release (c : Claim) (w : World) : World :=
  unlinkSync (lockPath c) w.

Definition writeOffset (r : nat) (text : string) (w : World) : World :=
  mkWorld (locks w) (bucketFile w)
          (fun r' => if r' =? r then Some text else offsetFile w r')
          (openFaults w) (writeFaults w) (log w).

Definition ensureBucket (r : nat) (w : World) : World :=
  match bucketFile w r with
  | Some _ => w
  | None =>
      mkWorld (locks w)
              (fun r' => if r' =? r then Some EmptyString else bucketFile w r')
              (offsetFile w) (openFaults w) (writeFaults w) (log w)
  end.

(** [parseInt(text.trim() || '0', 10) || 0], and 0 when the offset file
    cannot be read. *)
Definition readOffset (r : nat) (w : World) : Z :=
  match offsetFile w r with
  | None => 0%Z
  | Some text =>
      match parseInt (if truthy (trim text) then trim text else "0") with
      | Some n => n
      | None => 0%Z
      end
  end.

Definition BOM : string :=
  String (ascii_of_nat 239) (String (ascii_of_nat 187)
    (String (ascii_of_nat 191) EmptyString)).

(** The bytes of a bucket file.  Bucket files hold the URLs that
    [URL.toString()] produced, one per line, which are ASCII: a byte is a
    character and [Buffer.byteLength] is the length. *)
Definition stripBomBytes (buf : string) : string :=
  if startsWith buf BOM then substring 3 (String.length buf - 3) buf else buf.

(** [buf.toString('utf8', pos)]: a start below 0 is 0. *)
Definition bytesFrom (pos : Z) (buf : string) : string :=
  substring (Z.to_nat pos) (String.length buf - Z.to_nat pos) buf.

Definition politeDelay (env : Env) (w : World) : World :=
  match envInt (MC_POLITE_DELAY_MS env) "0" with
  | Some d => if (0 <? d)%Z then emit (EvSleep (Some d)) w else w
  | None => w
  end.

(** Modelled from the spec: the declaration of [advanced] is missing from
    [claimNextBucket], whose loop only has [advanced += inc]; the counter
    starts at 0 and accumulates the byte lengths of the scanned lines. *)
Definition advanced0 : Z := 0%Z.

(** The [for] loop over the lines of the unread tail, and the statements
    after it. *)
Fixpoint scanLines (env : Env) (acceptFn : string -> bool) (r : nat)
  (pos advanced : Z) (lines : list string) (w : World)
  : option (string * Claim) * World :=
  match lines with
  | [] =>
      (* consumed all new lines *)
      (None, writeOffset r (toString pos) w)
  | line :: rest =>
      let withNl := match rest with [] => line | _ => line ++ NL end in
      let inc := Z.of_nat (String.length withNl) in
      let url := trim line in
      let advanced := (advanced + inc)%Z in
      if negb (truthy url) then scanLines env acceptFn r pos advanced rest w
      else if negb (acceptFn url) then
        scanLines env acceptFn r pos advanced rest w
      else
        match tryClaim env url w with
        | (Some claim, w1) =>
            let newPos := (pos + advanced)%Z in
            (Some (url, claim),
             politeDelay env (writeOffset r (toString newPos) w1))
        | (None, w1) => scanLines env acceptFn r pos advanced rest w1
        end
  end.

Definition claimNextBucket (env : Env) (r : nat) (acceptFn : string -> bool)
  (w : World) : option (string * Claim) * World :=
  let w := ensureBucket r w in
  let pos := readOffset r w in
  let buf :=
    stripBomBytes (match bucketFile w r with Some b => b | None => EmptyString end) in
  let len := Z.of_nat (String.length buf) in
  let (pos, w) :=
    if (len <? pos)%Z then (len, writeOffset r (toString len) w) else (pos, w) in
  if (len <=? pos)%Z then (None, w) else
  let tail := replaceCRLF (bytesFrom pos buf) in
  let lines := split LF tail in
  scanLines env acceptFn r pos advanced0 lines w.

(** [bucketPendingBytes]: the bytes of bucket [r] past its cursor. *)
Definition bucketPendingBytes (r : nat) (w : World) : Z :=
  let size :=
    match bucketFile w r with
    | Some b => Z.of_nat (String.length b)
    | None => 0%Z
    end in
  Z.max 0 (size - readOffset r w).

End Ledger.

Definition emptyWorld : World :=
  mkWorld [] (fun _ => None) (fun _ => None) [] [] [].

End Frontier.

(* ---------------------------------------------------------------------- *)
(** ** src/discover/crawler.js: the work/idle loop of the bucketed crawl   *)
(* ---------------------------------------------------------------------- *)

Module Crawler.
Import Js.

(** A reading of a directory is [None] when it throws ([readdirSync], or
    [statSync] or [readFileWithRetry] on one of the files), and the files
    otherwise.  The three helpers catch every exception. *)

(** [countLocks(dir)] on the listing of the ledger directory; 0 when the
    listing throws. *)
Definition countLocks (listing : option (list string)) : nat :=
  match listing with
  | Some files => List.length (filter (fun f => endsWith f ".lock") files)
  | None => 0
  end.

(** [frontierSnapshot]: sizes and modification times of the bucket files
    and the number of locks, printed as [bytes:newest:locks]; ['ERR'] when
    the bucket directory or one of its files cannot be read. *)
Definition frontierSnapshot (buckets : option (list (string * Z)))
  (listing : option (list string)) : string :=
  match buckets with
  | Some files =>
      let bytes := fold_left (fun b f => b + String.length (fst f)) files 0 in
      let newest := fold_left (fun n f => Z.max n (snd f)) files 0%Z in
      toString (Z.of_nat bytes) ++ ":" ++ toString newest ++ ":"
      ++ toString (Z.of_nat (countLocks listing))
  | None => "ERR"
  end.

(** [bucketStats]: the non-empty lines and the bytes of all bucket files,
    read in full; [{lines: 0, bytes: 0}] when the bucket directory or one
    of its files cannot be read. *)
Definition bucketStats (buckets : option (list (string * Z))) : nat * nat :=
  match buckets with
  | Some files =>
      fold_left
        (fun acc f =>
           (fst acc + List.length (filter truthy (splitLines (fst f))),
            snd acc + String.length (fst f)))
        files (0, 0)
  | None => (0, 0)
  end.

(** What one turn of the loop sees: whether a preferred bucket, or else
    any bucket, yielded a claim, the size of [results] after that work, and
    the three readings taken on an idle turn. *)
Record Cycle := mkCycle {
  preferredWork : bool;
  stealWork : bool;
  seen : nat;
  snap : string;
  lines : nat;
  locksNow : nat
}.

(** An idle turn, from its four readings in the order the loop takes
    them: the bucket files (content and mtime) and the ledger listing as
    [frontierSnapshot] gets them, the bucket files as [bucketStats] gets
    them, and the ledger listing as the [countLocks] call for [locksNow]
    gets it. *)
Definition idleTurn (seen : nat)
  (statted : option (list (string * Z))) (snapLocks : option (list string))
  (read : option (list (string * Z))) (nowLocks : option (list string))
  : Cycle :=
  mkCycle false false seen (frontierSnapshot statted snapLocks)
          (fst (bucketStats read)) (countLocks nowLocks).

(** An idle turn on which no reading fails and the files do not change
    between the readings. *)
Definition calmTurn (seen : nat) (buckets : list (string * Z))
  (listing : list string) : Cycle :=
  idleTurn seen (Some buckets) (Some listing) (Some buckets) (Some listing).

Record Loop := mkLoop {
  results : nat;
  idleCycles : nat;
  stableCycles : nat;
  lastSnap : string
}.

Definition start : Loop := mkLoop 0 0 0 EmptyString.

Inductive Exit :=
| FrontierEmpty      (* frontier empty - exiting   *)
| FrontierSettled    (* frontier settled - exiting *)
| PageCap.           (* results.size reached maxPages *)

Inductive Step :=
| Continue (l : Loop)
| Break (e : Exit) (l : Loop).

(** [results.size < maxPages]; [None] is the cap [Infinity]. *)
Definition belowCap (n : nat) (maxPages : option nat) : bool :=
  match maxPages with Some m => n <? m | None => true end.

(** One turn of [while (results.size < maxPages)]. *)
Definition step (maxPages : option nat) (l : Loop) (c : Cycle) : Step :=
  if negb (belowCap (results l) maxPages) then Break PageCap l else
  (* 1) work preferred buckets; 2) opportunistic steal *)
  if preferredWork c || stealWork c then
    Continue (mkLoop (seen c) 0 0 (lastSnap l))
  else
    (* 3) nothing to do; check if frontier is globally quiet *)
    let idle := idleCycles l + 1 in
    let stable :=
      if truthy (snap c) && String.eqb (snap c) (lastSnap l)
      then stableCycles l + 1 else 0 in
    let l' := mkLoop (results l) idle stable (snap c) in
    if (lines c =? 0) && (locksNow c =? 0)
       && ((5 <=? stable) || (50 <=? idle))
    then Break FrontierEmpty l'
    else if 60 <=? stable then Break FrontierSettled l'
    else Continue l'.

Inductive Outcome :=
| Running (l : Loop)
| Exited (e : Exit) (l : Loop) (c : Cycle).

(** The main work/idle loop of [crawlSite] in bucketed mode, over the
    turns the environment offers.  An exit reports the
    loop variables and the turn at which it happens; at a [PageCap] exit
    the readings of that turn are not taken. *)
Fixpoint crawlSite (maxPages : option nat) (l : Loop) (cs : list Cycle) : Outcome :=
  match cs with
  | [] => Running l
  | c :: cs' =>
      match step maxPages l c with
      | Continue l' => crawlSite maxPages l' cs'
      | Break e l' => Exited e l' c
      end
  end.

End Crawler.

(* ---------------------------------------------------------------------- *)
(** ** scripts/shard-run.js: merging the per-worker URL files              *)
(* ---------------------------------------------------------------------- *)

Module ShardRun.
Import Js.

(** The exit handler of a worker: when its [urls-final.part{k}.json] is
    there, every URL of it is appended to the master file as one line.
    [part] is the parsed array, [None] when the file is missing. *)
Definition appendPart (master : string) (part : option (list string)) : string :=
  match part with
  | Some urls => master ++ join "" (map (fun u => u ++ NL) urls)
  | None => master
  end.

(** The master file once every worker has exited; it is unlinked before
    the workers are spawned, and [parts] is in the order of the exits. *)
Definition masterAfter (parts : list (option (list string))) : string :=
  fold_left appendPart parts EmptyString.

(** Modelled from the spec: [mergeManifestDedup] is called by
    scripts/shard-run.js but defined in no source file.  The master list is
    read line by line and reduced to a set; lines are taken the way the
    neighbouring merge code takes them, [split(/\r?\n/).filter(Boolean)],
    and the set keeps first occurrences, as [Array.from(new Set(...))]. *)
Definition mergeManifestDedup (master : string) : list string :=
  uniq [] (filter truthy (splitLines master)).

(** What the last exit handler does: nothing when a stop was requested,
    otherwise the merge; the count is what [urlsFound] is bumped by. *)
Definition finalize (stopRequested : bool) (parts : list (option (list string)))
  : option (list string * nat) :=
  if stopRequested then None
  else
    let merged := mergeManifestDedup (masterAfter parts) in
    Some (merged, List.length merged).

End ShardRun.

(* ---------------------------------------------------------------------- *)
(** ** The specification's wording, for comparison with the code           *)
(* ---------------------------------------------------------------------- *)

Module Spec.
Import Js.

(** The expected row of a line by its number of cells: three or more cells
    give URL, title and description; exactly two give title and description
    with an empty URL; fewer give no row. *)
Definition rowOfCells (cells : list string) : option Csv.Row :=
  match cells with
  | u :: t :: d :: _ => Some (Csv.mkRow (trim u) (trim t) (trim d))
  | [t; d] => Some (Csv.mkRow EmptyString (trim t) (trim d))
  | _ => None
  end.

Definition eqTokens (a b : list string) : bool :=
  if list_eq_dec string_dec a b then true else false.

(** The prefix tier as the specification words it: the first [K] tokens of
    the page's normalized title equal the first [K] tokens of the expected
    title. *)
Definition prefixTier (K : nat) (pages : list Matcher.Page) (expected : string)
  : list Matcher.Page :=
  filter
    (fun p =>
       eqTokens (firstn K (split " "%char (Matcher.titleN p)))
                (firstn K (split " "%char expected)))
    pages.

(** The quiescence condition of the specification on the readings of a
    turn and the loop counters. *)
Definition quiescent (c : Crawler.Cycle) (l : Crawler.Loop) : Prop :=
  Crawler.lines c = 0 /\ Crawler.locksNow c = 0
  /\ (5 <= Crawler.stableCycles l \/ 50 <= Crawler.idleCycles l).

(** A URL that survives being written as a line and read back: not empty,
    and free of line feeds and carriage returns. *)
Fixpoint noBreak (s : string) : bool :=
  match s with
  | EmptyString => true
  | String c t => negb (Ascii.eqb c LF) && negb (Ascii.eqb c CR) && noBreak t
  end.

Definition lineSafe (u : string) : bool := truthy u && noBreak u.

End Spec.

(* ---------------------------------------------------------------------- *)
(** ** Notions used in the statements, and the inputs of the examples      *)
(* ---------------------------------------------------------------------- *)

Section CsvNotions.
Import Js Csv.

Definition rowsOfLine (l : string) : list Row :=
  optList (Spec.rowOfCells (splitCsvLine l)).

Definition oneColumnFile : string :=
  "https://example.com/a" ++ NL ++ "https://example.com/b" ++ NL.

End CsvNotions.

Section MatcherNotions.
Import Js Matcher.

(** A list of scored pages in descending order of score. *)
Fixpoint desc (l : list (Page * Q)) : Prop :=
  match l with
  | [] => True
  | y :: ys => (forall x, In x ys -> (snd x <= snd y)%Q) /\ desc ys
  end.

Definition twoHomes : list Page :=
  [mkPage "home" "https://example.com/"; mkPage "home" "https://example.com/home"].

Definition homePages : list Page := [mkPage "home pages" "https://example.com/"].

End MatcherNotions.

Section GateNotions.
Import Js Telemetry.

Definition names (k : string) (e : GateError) : bool := String.eqb (key e) k.




Definition titlesAndDescriptions : string :=
  "Home Page,Welcome to our site." ++ NL ++ "Home Page,Welcome to our site.".

(** Five two-column rows; three first cells look like URLs. *)
Definition threeOfFive : string :=
  "/a,Alpha" ++ NL ++ "/b,Beta" ++ NL ++ "/c,Gamma" ++ NL
  ++ "delta,Delta" ++ NL ++ "epsilon,Epsilon" ++ NL.

End GateNotions.

Section RunNotions.
Import Js Run.

(** The lines of an input file from which [parseCsv] makes its rows: the
    non-blank lines, without the first when it looks like a header. *)
Definition dataLines (raw : string) : list string :=
  let lines := filter Csv.nonBlank (splitLines raw) in
  match lines with
  | [] => []
  | first :: _ => skipn (if Csv.looksLikeHeader first then 1 else 0) lines
  end.

Definition threeColumns : string :=
  "/pricing,Pricing,Plans and prices" ++ NL ++ "/about,About,Who we are".

End RunNotions.

Section CrawlerNotions.
Import Js Crawler.

(** An idle frontier with one stale lock file in the ledger directory. *)
Definition staleLock : Cycle :=
  calmTurn 0 [(EmptyString, 5%Z)] ["3f2a.lock"].

(** An idle frontier with empty buckets and an empty ledger. *)
Definition allQuiet : Cycle := calmTurn 0 [(EmptyString, 5%Z)] [].

End CrawlerNotions.

Section LedgerNotions.
Import Js Frontier.

(** The events of [k] failed attempts, each followed by its sleep. *)
Definition retried (sleep : option Z) (es : list Errno) : list Event :=
  flat_map (fun e => [EvOpen (Some e); EvSleep sleep]) es.

(** The last attempt of a pass, if the pass does not end on a sleep: a
    success, or an error that is not retried. *)
Definition final (tail : list Event) : Prop :=
  tail = []
  \/ exists o, tail = [EvOpen o]
               /\ forall e, o = Some e -> transient e = false.


(** A stand-in for the digest in examples; the properties hold for every
    function in its place. *)
Definition plainId (s : string) : string := s.



(** The bytes a line stands for in the unread tail: its characters, and
    the line feed when another piece follows. *)
Definition lineBytes (line : string) (rest : list string) : Z :=
  Z.of_nat (String.length (match rest with [] => line | _ => line ++ NL end)).

Fixpoint bytesThrough (before : list string) (line : string)
  (after : list string) : Z :=
  match before with
  | [] => lineBytes line after
  | b :: bs => (lineBytes b (bs ++ line :: after) + bytesThrough bs line after)%Z
  end.

(** A bucket that holds one line, a URL outside the section that the
    worker crawls. *)
Definition blogOnly : World :=
  mkWorld []
    (fun r => if r =? 0 then Some ("https://example.com/blog/post" ++ NL) else None)
    (fun _ => None) [] [] [].

(** An [acceptFn] of a worker whose path prefix is [/docs]. *)
Definition underDocs (u : string) : bool :=
  startsWith u "https://example.com/docs".

End LedgerNotions.

Section MergeNotions.
Import Js ShardRun.

(** The text that holds the given lines, each closed by a line feed. *)
Fixpoint linesText (urls : list string) : string :=
  match urls with
  | [] => EmptyString
  | u :: us => u ++ NL ++ linesText us
  end.

Definition urlsOf (parts : list (option (list string))) : list string :=
  flat_map (fun p => match p with Some urls => urls | None => [] end) parts.

Definition twoWorkers : list (option (list string)) :=
  [Some ["https://example.com/"; "https://example.com/a"];
   None;
   Some ["https://example.com/a"; "https://example.com/b"]].

End MergeNotions.

(* ---------------------------------------------------------------------- *)
(** ** Further notions and inputs for the ledger                           *)
(* ---------------------------------------------------------------------- *)

Section LedgerMoreNotions.
Import Js Frontier.

(** The completion markers among the files of the ledger directory. *)
Definition doneFiles (w : World) : list string :=
  filter (fun f => endsWith f ".done") (locks w).

(** The files that [pruneDone] unlinks. *)
Definition victimsOf (env : Env) (w : World) : list string :=
  match maxDone env with
  | Some m =>
      if (m <? Z.of_nat (List.length (doneFiles w)))%Z
      then firstn (Z.to_nat (Z.of_nat (List.length (doneFiles w)) - m))
                  (doneFiles w)
      else []
  | None => []
  end.

(** A ledger in which another worker holds the lock of the root URL. *)
Definition heldElsewhere : World :=
  mkWorld ["https://example.com/.lock"] (fun _ => None) (fun _ => None)
          [Some EBUSY; None] [] [].

(** A ledger with three completion markers and a cap of two. *)
Definition threeDone : World :=
  mkWorld ["a.done"; "b.done"; "c.done"] (fun _ => None) (fun _ => None)
          [] [] [].

Definition capTwo : Env := mkEnv None None (Some "2") None.

End LedgerMoreNotions.
Section CursorNotions.
Import Js Frontier.

(** The bytes of all the pieces of a split tail. *)
Fixpoint totalBytes (lines : list string) : Z :=
  match lines with
  | [] => 0%Z
  | l :: rest => (lineBytes l rest + totalBytes rest)%Z
  end.

(** The bytes of a bucket file after the optional byte-order mark. *)
Definition bucketBytes (r : nat) (w : World) : string :=
  stripBomBytes
    (match bucketFile w r with Some b => b | None => EmptyString end).

(** A bucket with one rejected and one acceptable line for a worker whose
    path prefix is [/docs]. *)
Definition blogThenDocs : World :=
  mkWorld []
    (fun r => if r =? 0
              then Some ("https://example.com/blog/post" ++ NL
                         ++ "https://example.com/docs/a" ++ NL)
              else None)
    (fun _ => None) [] [] [].

End CursorNotions.
(* ---------------------------------------------------------------------- *)
(** ** src/discover/frontier.js: filling the buckets and work stealing     *)
(* ---------------------------------------------------------------------- *)

Module Buckets.
Import Js Frontier.

Section Hash.

(** [hashUrl]: the first four bytes of the SHA-1 digest of the URL, read
    as an unsigned 32-bit integer. *)
Variable hashUrl : string -> N.

Variable sha1 : string -> string.

(** [Math.max(1, parseInt(parts, 10) || 0)] for an integer [parts]. *)
Definition normParts (parts : Z) : Z := Z.max 1 parts.

(** [hashUrl(raw) % parts] *)
Definition bucketOf (parts : Z) (raw : string) : nat :=
  Z.to_nat (Z.of_N (hashUrl raw) mod normParts parts).

(** The [Map] from bucket to its sub-batch, in the order in which the
    buckets are first met: [perBucket.get(r).push(raw)], after
    [perBucket.set(r, [])] for a new bucket. *)
Fixpoint addTo (r : nat) (raw : string) (m : list (nat * list string))
  : list (nat * list string) :=
  match m with
  | [] => [(r, [raw])]
  | (r', l) :: m' =>
      if r' =? r then (r', push l raw) :: m'
      else (r', l) :: addTo r raw m'
  end.

Definition perBucket (parts : Z) (urls : list string)
  : list (nat * list string) :=
  fold_left
    (fun m raw => if truthy raw then addTo (bucketOf parts raw) raw m else m)
    urls [].

Definition setBucket (r : nat) (text : string) (w : World) : World :=
  mkWorld (locks w)
          (fun r' => if r' =? r then Some text else bucketFile w r')
          (offsetFile w) (openFaults w) (writeFaults w) (log w).

(** [st && st.size > max] with [max = parseInt(MC_BUCKET_MAX_BYTES ||
    '134217728', 10)]: whether a bucket file of this content is rotated
    before the append. *)
Definition rotationDue (maxEnv : option string) (file : option string) : bool :=
  match file, envInt maxEnv "134217728" with
  | Some b, Some max => (max <? Z.of_nat (String.length b))%Z
  | _, _ => false
  end.

(** One turn of the loop over [perBucket]: an oversized bucket file is
    renamed away (its content is reported in the second component) and
    started afresh, then the sub-batch is appended in one write. *)
Definition appendOne (maxEnv : option string)
  (acc : World * list (nat * string)) (entry : nat * list string)
  : World * list (nat * string) :=
  let (w, rotated) := acc in
  let (r, list) := entry in
  let (w, rotated) :=
    if rotationDue maxEnv (bucketFile w r)
    then (setBucket r EmptyString w,
          push rotated
               (r, match bucketFile w r with Some b => b | None => EmptyString end))
    else (w, rotated) in
  let old := match bucketFile w r with Some b => b | None => EmptyString end in
  (setBucket r (old ++ join "" (map (fun u => u ++ NL) list)) w, rotated).

Definition appendToBuckets (maxEnv : option string) (urls : list string)
  (parts : Z) (w : World) : World * list (nat * string) :=
  if List.length urls =? 0 then (w, [])
  else fold_left (appendOne maxEnv) (perBucket parts urls) (w, []).

Definition seedBuckets (maxEnv : option string) (urls : list string)
  (parts : Z) (w : World) : World * list (nat * string) :=
  if List.length urls =? 0 then (w, [])
  else
    let w :=
      fold_left (fun w r => ensureBucket r w)
                (seq 0 (Z.to_nat (normParts parts))) w in
    appendToBuckets maxEnv urls parts w.

(** [allBucketPending] *)
Definition allBucketPending (parts : nat) (w : World) : list (nat * Z) :=
  map (fun r => (r, bucketPendingBytes r w)) (seq 0 parts).

(** [.sort((a, b) => b.pending - a.pending)]: stable, by descending
    pending bytes. *)
Fixpoint insertByPending (x : nat * Z) (l : list (nat * Z)) : list (nat * Z) :=
  match l with
  | [] => [x]
  | y :: ys =>
      if (snd x <? snd y)%Z then y :: insertByPending x ys else x :: l
  end.

Definition sortByPending (l : list (nat * Z)) : list (nat * Z) :=
  fold_right insertByPending [] l.

(** The donor list of [claimNextAnyBucket]. *)
Definition donors (startR parts : nat) (w : World) : list (nat * Z) :=
  sortByPending
    (filter (fun x => negb (fst x =? startR) && (0 <? snd x)%Z)
            (allBucketPending parts w)).

Fixpoint tryDonors (env : Env) (acceptFn : string -> bool)
  (ds : list (nat * Z)) (w : World) : option (string * Claim) * World :=
  match ds with
  | [] => (None, w)
  | (r, _) :: ds' =>
      match claimNextBucket sha1 env r acceptFn w with
      | (Some got, w1) => (Some got, w1)
      | (None, w1) => tryDonors env acceptFn ds' w1
      end
  end.

Definition claimNextAnyBucket (env : Env) (startR parts : nat)
  (acceptFn : string -> bool) (w : World) : option (string * Claim) * World :=
  match claimNextBucket sha1 env startR acceptFn w with
  | (Some first, w1) => (Some first, w1)
  | (None, w1) => tryDonors env acceptFn (donors startR parts w1) w1
  end.

End Hash.

End Buckets.

Section BucketsNotions.
Import Js Frontier Buckets.

(** The non-empty URLs of a batch that fall into bucket [r]. *)
Definition batchFor (hashUrl : string -> N) (parts : Z) (r : nat)
  (urls : list string) : list string :=
  filter (fun u => truthy u && (bucketOf hashUrl parts u =? r)) urls.

(** The entry of bucket [r] in the map of sub-batches. *)
Definition lookupB (r : nat) (m : list (nat * list string))
  : option (nat * list string) :=
  find (fun e => fst e =? r) m.

(** What the grouping loop has built after reading the batch [pre]. *)
Definition grouped (hashUrl : string -> N) (parts : Z) (pre : list string)
  (m : list (nat * list string)) : Prop :=
  NoDup (map fst m)
  /\ forall r,
       match lookupB r m with
       | Some e => snd e = batchFor hashUrl parts r pre
                   /\ batchFor hashUrl parts r pre <> []
       | None => batchFor hashUrl parts r pre = []
       end.

(** The content on which a sub-batch lands: nothing for a missing or
    rotated file, the present content otherwise. *)
Definition baseOf (maxEnv : option string) (file : option string) : string :=
  if rotationDue maxEnv file then EmptyString
  else match file with Some b => b | None => EmptyString end.

(** A stand-in for [hashUrl] in examples: the length of the URL. *)
Definition lengthHash (s : string) : N := N.of_nat (String.length s).

End BucketsNotions.
Section StealNotions.
Import Js Frontier Buckets.

(** A donor list in the order of descending pending bytes. *)
Fixpoint descPending (l : list (nat * Z)) : Prop :=
  match l with
  | [] => True
  | x :: rest => Forall (fun y => (snd y <= snd x)%Z) rest /\ descPending rest
  end.

(** A bucket of 31 bytes that a worker has read to its end, under a size
    limit of 10 bytes. *)
Definition readToEnd : World :=
  mkWorld []
    (fun r => if r =? 0 then Some ("https://example.com/old/page-1" ++ NL) else None)
    (fun r => if r =? 0 then Some "31" else None) [] [] [].

(** The home bucket 0 is empty and bucket 1 holds one URL. *)
Definition workElsewhere : World :=
  mkWorld []
    (fun r => if r =? 1 then Some ("https://example.com/docs/a" ++ NL) else None)
    (fun _ => None) [] [] [].

End StealNotions.
Section LoopNotions.
Import Js Crawler.

(** A turn in which no bucket yielded a claim. *)
Definition idle (c : Cycle) : bool := negb (preferredWork c || stealWork c).

(** The turns taken so far end with [n] idle turns. *)
Definition endsWithIdle (n : nat) (turns : list Cycle) : Prop :=
  exists pre run,
    turns = (pre ++ run)%list /\ List.length run = n
    /\ Forall (fun c => idle c = true) run.

End LoopNotions.
(* ---------------------------------------------------------------------- *)
(** ** src/io/reports.js: writing a line of a report                       *)
(* ---------------------------------------------------------------------- *)

Module ReportsCsv.
Import Js.

(** [s.replace(/\r?\n/g, ' ')] *)
Fixpoint replaceBreaks (s : string) : string :=
  match s with
  | EmptyString => EmptyString
  | String c t =>
      if Ascii.eqb c LF then String " " (replaceBreaks t)
      else match t with
           | String c' t' =>
               if Ascii.eqb c CR && Ascii.eqb c' LF
               then String " " (replaceBreaks t')
               else String c (replaceBreaks t)
           | EmptyString => String c EmptyString
           end
  end.

(** [s.replace(/Q/g, QQ)], Q the double quote *)
Fixpoint escapeQuotes (s : string) : string :=
  match s with
  | EmptyString => EmptyString
  | String c t =>
      if Ascii.eqb c DQUOTE then String DQUOTE (String DQUOTE (escapeQuotes t))
      else String c (escapeQuotes t)
  end.

Fixpoint anyChar (p : ascii -> bool) (s : string) : bool :=
  match s with
  | EmptyString => false
  | String c t => p c || anyChar p t
  end.

(** [/[Q,]/.test(s)] *)
Definition needsQuotes (s : string) : bool :=
  anyChar (fun c => Ascii.eqb c DQUOTE || Ascii.eqb c COMMA) s.

(** [csvEscape(val, sep)]; [None] is a value that is [null] or
    [undefined]. *)
Definition csvEscape (val : option string) (sep : string) : string :=
  let s := match val with Some v => v | None => EmptyString end in
  let s := replaceBreaks s in
  if String.eqb sep (String TAB EmptyString) then s
  else if needsQuotes s
       then Csv.QUOTE1 ++ escapeQuotes s ++ Csv.QUOTE1
       else s.

(** [line] of [writeCsv]: [arr.map(h => csvEscape(h, sep)).join(sep)] *)
Definition line (sep : string) (arr : list (option string)) : string :=
  join sep (map (fun h => csvEscape h sep) arr).

End ReportsCsv.

Section ReportsCsvNotions.
Import Js ReportsCsv.

(** A cell that survives being written by [csvEscape] and read by
    [splitCsvLine]: not empty, without line breaks, and without white
    space around it unless it is written in quotes. *)
Definition roundTrips (v : string) : bool :=
  truthy v && Spec.noBreak v && (needsQuotes v || String.eqb (trim v) v).

(** The character before the position reached after [s], [p] being the
    one before [s]. *)
Fixpoint lastOr (p : option ascii) (s : string) : option ascii :=
  match s with
  | EmptyString => p
  | String c t => lastOr (Some c) t
  end.

End ReportsCsvNotions.
(* ---------------------------------------------------------------------- *)
(** ** src/run.js: the slice of the URL list that a shard takes            *)
(* ---------------------------------------------------------------------- *)

Module RunShard.
Import Js.

(** [l.slice(s, e)] *)
Definition slice {A} (l : list A) (s e : Z) : list A :=
  let len := Z.of_nat (List.length l) in
  let from := if (s <? 0)%Z then Z.max (len + s) 0 else Z.min s len in
  let to := if (e <? 0)%Z then Z.max (len + e) 0 else Z.min e len in
  firstn (Z.to_nat (to - from)) (skipn (Z.to_nat from) l).

(** [urls.sort()]: ascending by code units. *)
Fixpoint insertSorted (x : string) (l : list string) : list string :=
  match l with
  | [] => [x]
  | y :: ys => if String.leb x y then x :: l else y :: insertSorted x ys
  end.

Definition sort (l : list string) : list string :=
  fold_right insertSorted [] l.

(** [Math.ceil(n / d)] for [d > 0] *)
Definition ceilDiv (n d : nat) : nat := (n + d - 1) / d.

(** The block under [Shard slice (if needed)]. *)
Definition shardSlice (urls : list string) (shards : nat) (shardIndex : Z)
  : list string :=
  if 1 <? shards then
    let urls := sort urls in
    let per := Z.of_nat (ceilDiv (List.length urls) shards) in
    let start := (per * (shardIndex - 1))%Z in
    slice urls start (start + per)
  else urls.

End RunShard.
Section ExplicitNotions.
Import Js Run.

(** The first column as [sniffInputForExplicitUrls] reads it from the
    rows of [parseCsv]: the trimmed URL cells that are not empty. *)
Definition urlCells (rows : list Csv.Row) : list string :=
  filter truthy (map (fun r => trim (Csv.expectedUrl r)) rows).

(** A cell that [new URL] reads as a URL of the class covered and whose
    path, read again against the origin, does not start with two slashes
    (and so does not name another host). *)
Definition plainCell (h : string) : bool :=
  match Normalize.parseURL h with
  | Some u0 => negb (startsWith (Normalize.pathname u0 ++ searchOf u0) "//")
  | None => false
  end.

End ExplicitNotions.
Section TextNotions.
Import Js Matcher.

(** Every white-space character of the string is a single space that a
    character other than white space follows, or that ends the string. *)
Fixpoint collapsed (s : string) : bool :=
  match s with
  | EmptyString => true
  | String c t =>
      (if isWhite c
       then Ascii.eqb c " "
            && match t with
               | String c' _ => negb (isWhite c')
               | EmptyString => true
               end
       else true)
      && collapsed t
  end.

(** A character that [toLowerCase] leaves alone. *)
Definition lowerFixed (c : ascii) : bool := Ascii.eqb (lowerChar c) c.

End TextNotions.
Section NormalizeNotions.
Import Js Normalize.

(** A query parameter that [normalizeUrl] removes. *)
Definition removed (opts : Opts) (k : string) : bool :=
  existsb (String.eqb (toLowerCase k)) drop
  || (negb (keepPageParam opts) && String.eqb k "page").

(** A name for which the first loop of [normalizeUrl] calls [delete]. *)
Definition tracked (k : string) : bool :=
  existsb (String.eqb (toLowerCase k)) drop.

(** The query that a [delete] writes for the list it leaves. *)
Definition written (l : list (string * string)) : option string :=
  match l with [] => None | _ => Some (serializeParams l) end.

End NormalizeNotions.
(* ---------------------------------------------------------------------- *)
(** ** src/io/reports.js: the classification of the input rows             *)
(* ---------------------------------------------------------------------- *)

Module ReportsClassify.
Import Js Matcher.

Definition MAX_TITLE : nat := 60.
Definition MAX_DESC : nat := 160.

(** A page of the catalog, as far as the classification reads it. *)
Record SitePage := mkSitePage {
  pUrl : string;
  pTitleN : string;
  pDescription : string
}.

Definition asPage (p : SitePage) : Page := mkPage (pTitleN p) (pUrl p).

(** [withinLimit(s, max)] *)
Definition withinLimit (s : string) (max : nat) : bool :=
  String.length s <=? max.

(** [pageByUrl.get(u)] for [new Map(pages.map(p => [p.url, p]))]: of two
    pages with one URL the later one is kept. *)
Definition pageByUrl (pages : list SitePage) (u : string) : option SitePage :=
  find (fun p => String.eqb (pUrl p) u) (rev pages).

(** The report a row is pushed to. *)
Inductive Report :=
| Correct                    (* correctRows          *)
| MismatchDescOnly           (* mismatchDescOnlyRows *)
| MismatchOther (note : string)
                             (* mismatchOtherRows    *)
| NotFound (type : string)   (* notFoundRows         *)
| Ambiguous (t : MatchType)  (* ambiguousRows        *).

(** The comparison of a row with the page found for it. *)
Definition compare (expectedTitleN expectedDescN : string) (p : SitePage)
  : Report :=
  let expectedTitleLenOK := withinLimit expectedTitleN MAX_TITLE in
  let expectedDescLenOK := withinLimit expectedDescN MAX_DESC in
  let foundTitleN := pTitleN p in
  let foundDescN := normalizeText (pDescription p) in
  let titleMatch := String.eqb expectedTitleN foundTitleN in
  let descMatch := String.eqb expectedDescN foundDescN in
  if titleMatch && descMatch && expectedTitleLenOK && expectedDescLenOK
     && (String.length foundTitleN <=? MAX_TITLE)
     && (String.length foundDescN <=? MAX_DESC)
  then Correct
  else if titleMatch && negb descMatch then MismatchDescOnly
  else MismatchOther
         ((if negb titleMatch then "title mismatch; " else "")
          ++ (if negb descMatch then "desc mismatch; " else "")).

(** The body of [for (const row of rows)]; [None] when it throws, on a
    page that [pageByUrl] does not hold. *)
Definition classify (pages : list SitePage) (cfg : Opts) (row : Csv.Row)
  : option Report :=
  let expectedTitleN := normalizeText (Csv.expectedTitle row) in
  let expectedDescN := normalizeText (Csv.expectedDesc row) in
  let explicitUrl := trim (Csv.expectedUrl row) in
  if truthy explicitUrl then
    match pageByUrl pages explicitUrl with
    | None => Some (NotFound "url")
    | Some p => Some (compare expectedTitleN expectedDescN p)
    end
  else
    match Reports.titleBased (map asPage pages) cfg (Csv.expectedTitle row) with
    | Reports.ToNotFound => Some (NotFound "title")
    | Reports.ToAmbiguous t _ => Some (Ambiguous t)
    | Reports.ToCompare t u =>
        match pageByUrl pages u with
        | None => None
        | Some p => Some (compare expectedTitleN expectedDescN p)
        end
    end.

End ReportsClassify.
(* ---------------------------------------------------------------------- *)
(** ** scripts/shard-run.js and src/run.js: the working-URL lists          *)
(* ---------------------------------------------------------------------- *)

Module ShardMerge.
Import Js.

(** What a worker writes to [working-urls.part{k}.txt]:
    [urls.join('\n') + '\n']. *)
Definition partText (urls : list string) : string := join NL urls ++ NL.

(** [collectTxt(re)] on the texts of the files that match, in the order of
    the directory listing. *)
Definition collectTxt (files : list string) : list string :=
  flat_map (fun t => filter truthy (splitLines t)) files.

(** [uniqLines] *)
Definition uniqLines (arr : list string) : list string := uniq [] arr.

(** The merged file after [finalizeSitemap]; [old] is what was there
    before, which stays when no line is collected. *)
Definition mergeTxt (files : list string) (old : option string)
  : option string :=
  let all := uniqLines (collectTxt files) in
  if negb (List.length all =? 0) then Some (join NL all ++ NL) else old.

End ShardMerge.
(* ---------------------------------------------------------------------- *)
(** ** src/discover/frontier.js: the retry wrappers of the file operations *)
(* ---------------------------------------------------------------------- *)

Module Retry.
Import Js Frontier.

(** [e.code === 'EBUSY' || e.code === 'EPERM'] *)
Definition retried (e : Errno) : bool :=
  match e with
  | EBUSY | EPERM => true
  | _ => false
  end.

(** How a call ends: it returns, or it throws; [Threw None] is the
    [Error] made up after the loop when no attempt has failed. *)
Inductive End :=
| Returned
| Threw (e : option Errno).

(** The loop [for (let i = 0; i < tries; i++)] of [readFileWithRetry],
    [appendFileWithRetry], [writeFileWithRetry] and [renameWithRetry].
    [fuel] is the number of turns left, [outcomes] what the coming calls
    of the file operation will do ([None]: succeed).  The result holds the
    sleeps taken, in milliseconds. *)
Fixpoint loop (fuel : nat) (i : Z) (last : option Errno)
  (outcomes : list (option Errno)) : End * list Z :=
  match fuel with
  | O => (Threw last, [])
  | S k =>
      match hd None outcomes with
      | None => (Returned, [])
      | Some e =>
          if retried e then
            let (r, sleeps) := loop k (i + 1)%Z (Some e) (tl outcomes) in
            (r, (20 + i * 10)%Z :: sleeps)
          else (Threw (Some e), [])
      end
  end.

Definition withRetry (tries : Z) (outcomes : list (option Errno))
  : End * list Z :=
  loop (Z.to_nat tries) 0%Z None outcomes.

End Retry.

Section RetryNotions.
Import Js Frontier Retry.

Definition total (sleeps : list Z) : Z := fold_right Z.add 0%Z sleeps.

End RetryNotions.
(* ---------------------------------------------------------------------- *)
(** ** src/discover/frontier.js: the legacy single-file frontier           *)
(* ---------------------------------------------------------------------- *)

Module Legacy.
Import Js Frontier.

Section Hash.

Variable hashUrl : string -> N.
Variable sha1 : string -> string.

(** [readFrontier(file)]: the trimmed non-empty lines; nothing when the
    file is missing. *)
Definition readFrontier (file : option string) : list string :=
  match file with
  | None => []
  | Some text => filter truthy (map trim (splitLines text))
  end.

(** [(hashUrl(url) % partTotal) !== partIndex] for integers: the remainder
    has the sign of the dividend, and is NaN for [partTotal = 0]. *)
Definition otherPart (url : string) (partIndex partTotal : Z) : bool :=
  if (partTotal =? 0)%Z then true
  else negb (Z.of_N (hashUrl url) mod Z.abs partTotal =? partIndex)%Z.

Fixpoint scanFrontier (env : Env) (partIndex partTotal : Z)
  (acceptFn : string -> bool) (urls : list string) (w : World)
  : option (string * Claim) * World :=
  match urls with
  | [] => (None, w)
  | url :: rest =>
      if negb (acceptFn url) then
        scanFrontier env partIndex partTotal acceptFn rest w
      else if otherPart url partIndex partTotal then
        scanFrontier env partIndex partTotal acceptFn rest w
      else
        match tryClaim sha1 env url w with
        | (Some claim, w1) => (Some (url, claim), w1)
        | (None, w1) => scanFrontier env partIndex partTotal acceptFn rest w1
        end
  end.

(** [claimNext(frontierFile, locksDir, partIndex, partTotal, acceptFn)] *)
Definition claimNext (env : Env) (frontierFile : option string)
  (partIndex partTotal : Z) (acceptFn : string -> bool) (w : World)
  : option (string * Claim) * World :=
  scanFrontier env partIndex partTotal acceptFn (readFrontier frontierFile) w.

End Hash.

End Legacy.

Section LegacyNotions.
Import Js Frontier.

(** A frontier file of two URLs of different lengths. *)
Definition twoUrls : string :=
  "https://example.com/a" ++ NL ++ "https://example.com/bb" ++ NL.

End LegacyNotions.

(* ====================================================================== *)
(** * Part II — properties                                                 *)
(* ====================================================================== *)

(* ---------------------------------------------------------------------- *)
(** ** parseCsv keeps the lines of two or more cells                       *)
(* ---------------------------------------------------------------------- *)

Section CsvFacts.
Import Js Csv.

Lemma pushLine_spec (rows : list Row) (line : string) :
  pushLine rows line = (rows ++ rowsOfLine line)%list.
Proof.
  unfold pushLine, rowsOfLine, Spec.rowOfCells, push.
  destruct (splitCsvLine line) as [|a [|b [|c r]]]; simpl;
    try reflexivity; symmetry; apply app_nil_r.
Qed.

Lemma fold_pushLine (lines : list string) :
  forall rows,
    fold_left pushLine lines rows = (rows ++ flat_map rowsOfLine lines)%list.
Proof.
  induction lines as [|l ls IH]; intros rows; simpl.
  - symmetry; apply app_nil_r.
  - rewrite IH, pushLine_spec, <- app_assoc. reflexivity.
Qed.

Lemma short_line_no_row (l : string) :
  List.length (splitCsvLine l) <= 1 -> rowsOfLine l = [].
Proof.
  unfold rowsOfLine, Spec.rowOfCells.
  destruct (splitCsvLine l) as [|a [|b r]]; simpl; intros H;
    try reflexivity; lia.
Qed.

Lemma short_lines_no_rows (ls : list string) :
  Forall (fun l => List.length (splitCsvLine l) <= 1) ls ->
  flat_map rowsOfLine ls = [].
Proof.
  induction 1 as [|l ls Hl _ IH]; simpl.
  - reflexivity.
  - rewrite (short_line_no_row l Hl), IH. reflexivity.
Qed.

Lemma Forall_skipn {A} (P : A -> Prop) (n : nat) (l : list A) :
  Forall P l -> Forall P (skipn n l).
Proof.
  revert l; induction n as [|n IH]; intros l H; simpl; [exact H|].
  destruct H; [constructor | apply IH; assumption].
Qed.

(** C10. [parseCsv] returns exactly the rows of the non-blank lines (after an
    optional header line) that split into at least two cells: three or more
    cells give URL, title and description, exactly two give an empty URL
    with title and description, and a line of a single cell gives nothing;
    so a file whose lines all hold one cell parses to the empty list. *)
Theorem parseCsv_keeps_lines_of_two_cells (raw hasHeader : string) :
  let lines := filter nonBlank (splitLines raw) in
  (exists start,
      start <= 1 /\
      parseCsv raw hasHeader =
      flat_map (fun l => optList (Spec.rowOfCells (splitCsvLine l)))
               (skipn start lines))
  /\ (Forall (fun l => List.length (splitCsvLine l) <= 1) lines ->
      parseCsv raw hasHeader = []).
Proof.
  intros lines.
  assert (E : exists start, start <= 1 /\
            parseCsv raw hasHeader = flat_map rowsOfLine (skipn start lines)).
  { unfold parseCsv. fold lines. clearbody lines.
    destruct lines as [|first rest].
    - exists 0. split; [lia | reflexivity].
    - match goal with
      | |- context [skipn ?s (first :: rest)] => exists s
      end.
      split.
      + destruct (_ || _); lia.
      + rewrite fold_pushLine. reflexivity. }
  split; [exact E|].
  intros Hshort. destruct E as (start & _ & ->).
  apply short_lines_no_rows, Forall_skipn, Hshort.
Qed.

Lemma parseCsv_one_column_witness :
  Forall (fun l => List.length (splitCsvLine l) <= 1)
         (filter nonBlank (splitLines oneColumnFile))
  /\ parseCsv oneColumnFile "auto" = [].
Proof.
  assert (H : Forall (fun l => List.length (splitCsvLine l) <= 1)
                     (filter nonBlank (splitLines oneColumnFile))).
  { apply Forall_forall. intros l Hl.
    assert (B : forallb (fun l => List.length (splitCsvLine l) <=? 1)
                        (filter nonBlank (splitLines oneColumnFile)) = true)
      by (vm_compute; reflexivity).
    rewrite forallb_forall in B. apply Nat.leb_le, B, Hl. }
  split; [exact H|].
  exact (proj2 (parseCsv_keeps_lines_of_two_cells oneColumnFile "auto") H).
Defined.

End CsvFacts.

(* ---------------------------------------------------------------------- *)
(** ** Three-tier title matching                                           *)
(* ---------------------------------------------------------------------- *)

Section MatcherFacts.
Import Js Matcher.

Lemma In_insertDesc (x y : Page * Q) (l : list (Page * Q)) :
  In y (insertDesc x l) <-> y = x \/ In y l.
Proof.
  induction l as [|a l IH]; simpl.
  - intuition.
  - destruct (Qlt_le_dec (snd x) (snd a)); simpl; rewrite ?IH; intuition.
Qed.

Lemma In_sortDesc (y : Page * Q) (l : list (Page * Q)) :
  In y (sortDesc l) <-> In y l.
Proof.
  induction l as [|a l IH]; simpl; [tauto|].
  rewrite In_insertDesc, IH. intuition.
Qed.

Lemma desc_insertDesc (x : Page * Q) (l : list (Page * Q)) :
  desc l -> desc (insertDesc x l).
Proof.
  induction l as [|a l IH]; simpl; intros D.
  - split; [intros ? [] | exact I].
  - destruct D as [Ha Dl].
    destruct (Qlt_le_dec (snd x) (snd a)) as [Hlt | Hle]; simpl.
    + split; [|apply IH, Dl].
      intros z Hz. apply In_insertDesc in Hz as [-> | Hz].
      * apply Qlt_le_weak, Hlt.
      * apply Ha, Hz.
    + split; [|split; assumption].
      intros z [<- | Hz]; [exact Hle|].
      eapply Qle_trans; [apply Ha, Hz | exact Hle].
Qed.

Lemma desc_sortDesc (l : list (Page * Q)) : desc (sortDesc l).
Proof.
  induction l as [|a l IH]; simpl; [exact I | apply desc_insertDesc, IH].
Qed.

Lemma sortDesc_head_max (l : list (Page * Q)) (top : Page * Q) rest :
  sortDesc l = top :: rest ->
  forall x, In x l -> (snd x <= snd top)%Q.
Proof.
  intros E x Hx. apply In_sortDesc in Hx. rewrite E in Hx.
  pose proof (desc_sortDesc l) as D. rewrite E in D. destruct D as [D _].
  destruct Hx as [<- | Hx]; [apply Qle_refl | apply D, Hx].
Qed.

Lemma none_has_no_items pages expected opts :
  type (findByPrefixThenSimilarity pages expected opts) = TNone <->
  items (findByPrefixThenSimilarity pages expected opts) = [].
Proof.
  unfold findByPrefixThenSimilarity.
  destruct (filter _ pages) as [|h1 t1] eqn:E1; simpl.
  2:{ split; discriminate. }
  destruct (filter (fun p => startsWith _ _) pages) as [|h2 t2] eqn:E2; simpl.
  2:{ split; discriminate. }
  destruct (sortDesc _) as [|top rest] eqn:E3; simpl; [tauto|].
  unfold qeq. rewrite (proj2 (Qeq_bool_iff _ _) (Qeq_refl _)). simpl.
  split; discriminate.
Qed.

(** C8, as the code has it.  Title matching goes through three tiers in
    order: the pages whose normalized title equals the expected title; else
    the pages whose normalized title starts with the string made of the
    first K words of the expected title (K = 4 by default); else the pages
    whose Jaccard score against the expected title is at least T (0.6 by
    default) and maximal among those.  A row whose selected tier holds more
    than one page goes to the ambiguous report. *)
Theorem three_tier_matching
  (pages : list Page) (expected : string) (opts : Opts) :
  let K := match prefixWords opts with Some k => k | None => 4%Z end in
  let T := match fuzzyThreshold opts with Some t => t | None => (6 # 10)%Q end in
  let j := fun p => jaccard (titleN p) expected in
  let exact := filter (fun p => String.eqb (titleN p) expected) pages in
  let prefix :=
    filter (fun p => startsWith (titleN p)
                       (join " " (slice0 K (split " "%char expected)))) pages in
  let m := findByPrefixThenSimilarity pages expected opts in
  (exact <> [] -> type m = TExact /\ items m = exact)
  /\ (exact = [] -> prefix <> [] -> type m = TPrefix /\ items m = prefix)
  /\ (exact = [] -> prefix = [] ->
      (type m = TFuzzy \/ type m = TNone)
      /\ forall p,
          In p (items m) <->
          In p pages /\ (T <= j p)%Q
          /\ forall p', In p' pages -> (T <= j p')%Q -> (j p' <= j p)%Q)
  /\ (forall title,
        let m' := findByPrefixThenSimilarity pages (normalizeText title) opts in
        1 < List.length (items m') ->
        Reports.titleBased pages opts title
        = Reports.ToAmbiguous (type m') (map url (items m'))).
Proof.
  intros K T j exact prefix m.
  split; [|split; [|split]].
  - intros Hne. subst m. unfold findByPrefixThenSimilarity. fold exact.
    destruct exact; [congruence | simpl; auto].
  - intros He Hne. subst m. unfold findByPrefixThenSimilarity.
    fold exact K. rewrite He. simpl. fold prefix.
    destruct prefix; [congruence | simpl; auto].
  - intros He Hp. subst m. unfold findByPrefixThenSimilarity.
    fold exact K T. rewrite He. simpl. fold prefix. rewrite Hp. simpl.
    set (raw := filter (fun x => Qle_bool T (snd x))
                  (map (fun p => (p, jaccard (titleN p) expected)) pages)).
    assert (Hraw : forall x, In x raw <->
              In (fst x) pages /\ snd x = j (fst x) /\ (T <= snd x)%Q).
    { intros [p s]. unfold raw. rewrite filter_In, in_map_iff, Qle_bool_iff.
      simpl. split.
      - intros [(p0 & E & Hin) Hle]. inversion E; subst. auto.
      - intros (Hin & -> & Hle). split; [exists p; auto | exact Hle]. }
    destruct (sortDesc raw) as [|top rest] eqn:Es; cbn [type items].
    + split; [right; reflexivity|].
      intros p. split; [intros []|].
      intros (Hin & Hle & _).
      assert (Hx : In (p, j p) raw) by (apply Hraw; simpl; auto).
      apply In_sortDesc in Hx. rewrite Es in Hx. destruct Hx.
    + split; [left; reflexivity|].
      pose proof (sortDesc_head_max raw top rest Es) as Hmax.
      assert (Htop : In top raw).
      { apply In_sortDesc. rewrite Es. left; reflexivity. }
      apply Hraw in Htop as (Htp & Hts & Htle).
      intros p. rewrite in_map_iff. split.
      * intros (x & <- & Hx). apply filter_In in Hx as [Hx Hq].
        assert (Hx' : In x raw) by (apply In_sortDesc; rewrite Es; exact Hx).
        apply Hraw in Hx' as (Hxp & Hxs & Hxle).
        unfold qeq in Hq. apply Qeq_bool_iff in Hq.
        split; [exact Hxp|]. rewrite <- Hxs. split; [exact Hxle|].
        intros p' Hp' Hle'. rewrite Hq.
        apply (Hmax (p', j p')). apply Hraw. simpl. auto.
      * intros (Hin & Hle & Hbest).
        exists (p, j p). split; [reflexivity|].
        assert (Hx : In (p, j p) raw) by (apply Hraw; simpl; auto).
        apply filter_In. split.
        -- apply In_sortDesc in Hx. rewrite Es in Hx. exact Hx.
        -- unfold qeq. apply Qeq_bool_iff. simpl.
           apply Qle_antisym.
           ++ apply (Hmax (p, j p)), Hx.
           ++ rewrite Hts. apply Hbest; [exact Htp|].
              rewrite <- Hts. exact Htle.
  - intros title m' Hlen. unfold Reports.titleBased. fold m'.
    destruct (type m') eqn:Et.
    + apply none_has_no_items in Et. subst m'. rewrite Et in Hlen.
      simpl in Hlen. lia.
    + destruct (items m') as [|p [|q r]]; simpl in Hlen; try lia; reflexivity.
    + destruct (items m') as [|p [|q r]]; simpl in Hlen; try lia; reflexivity.
    + destruct (items m') as [|p [|q r]]; simpl in Hlen; try lia; reflexivity.
Qed.

Lemma three_tier_matching_witness :
  type (findByPrefixThenSimilarity twoHomes "home" (mkOpts None None)) = TExact
  /\ Reports.titleBased twoHomes (mkOpts None None) " Home "
     = Reports.ToAmbiguous TExact
         ["https://example.com/"; "https://example.com/home"].
Proof.
  pose proof (three_tier_matching twoHomes "home" (mkOpts None None)) as H.
  cbv zeta in H. destruct H as (H1 & _ & _ & H4).
  split.
  - apply H1. vm_compute. discriminate.
  - apply (H4 " Home "). vm_compute. lia.
Defined.

(** C8, counterexample.  The page titled [home pages] is no prefix hit in
    the specification's sense for the expected title [home page]: the first
    four tokens differ.  The code selects it in the prefix tier, because
    the title starts with the string [home page]. *)
Lemma prefix_tier_is_string_prefix :
  Spec.prefixTier 4 homePages "home page" = []
  /\ findByPrefixThenSimilarity homePages "home page" (mkOpts None None)
     = mkMatch TPrefix homePages None.
Proof. split; vm_compute; reflexivity. Qed.

End MatcherFacts.

(* ---------------------------------------------------------------------- *)
(** ** normalizeUrl and repeated trailing slashes                          *)
(* ---------------------------------------------------------------------- *)

Section NormalizeFacts.
Import Js Normalize.

(** C9, at the failing input.  [normalizeUrl] removes one trailing slash
    only, so a path that ends in two slashes is normalized to a URL that a
    second pass changes again. *)
Theorem normalizeUrl_twice_differs :
  normalizeUrl "https://example.com/a//" (mkOpts false)
  = Some "https://example.com/a/"
  /\ normalizeUrl "https://example.com/a/" (mkOpts false)
     = Some "https://example.com/a".
Proof. split; vm_compute; reflexivity. Qed.

End NormalizeFacts.

(* ---------------------------------------------------------------------- *)
(** ** The output gate and the two-column classifier                       *)
(* ---------------------------------------------------------------------- *)

Section GateFacts.
Import Js Telemetry.






(** The stand-alone gate of src/lib/output-gating.js looks at the URL share
    only: three columns with no URL-ish first cell carry the role [url],
    and [existence_csv] is still refused. *)
Lemma standalone_gate_ignores_roles :
  Gating.ok
    (Gating.validateOutputs
       (Gating.mkShape true 0%Q [["url"; "title"; "description"]])
       ["existence_csv"]) = false.
Proof. reflexivity. Qed.

(** C4, at the failing input.  With a first-column URL share of exactly
    0.6, no URL in the second column and short second cells, the table of
    the specification gives the roles [url, title]; the classifier
    compares with a strict [>] and returns no roles. *)
Theorem two_columns_at_share_six_tenths :
  let shape := sniffCsvShape (Some threeOfFive) in
  let rows :=
    map (split COMMA)
        (filter (fun l => truthy (trim l)) (splitLines threeOfFive)) in
  cols shape = 2
  /\ (firstColUrlShare shape == 6 # 10)%Q
  /\ countIf (fun r => isUrl (cell r 1)) rows = 0
  /\ sumLen 1 rows < 120 * List.length rows
  /\ inferredRoles shape = [].
Proof.
  cbv zeta. repeat split; try (vm_compute; reflexivity).
  vm_compute. lia.
Qed.

(** Above the threshold the same rows are classified as the table says. *)
Lemma two_columns_above_six_tenths :
  inferredRoles
    (sniffCsvShape
       (Some ("/a,Alpha" ++ NL ++ "/b,Beta" ++ NL ++ "/c,Gamma" ++ NL
              ++ "/d,Delta" ++ NL ++ "epsilon,Epsilon" ++ NL)))
  = ["url"; "title"].
Proof. vm_compute. reflexivity. Qed.

End GateFacts.

(* ---------------------------------------------------------------------- *)
(** ** Run-mode resolution                                                 *)
(* ---------------------------------------------------------------------- *)

Section RunFacts.
Import Js Run.

Lemma sniffInputShape_csv_rows (r0 : Csv.Row) (rs : list Csv.Row) :
  mode (sniffInputShape (map ofCsvRow (r0 :: rs))) = "has-input"
  /\ cols (sniffInputShape (map ofCsvRow (r0 :: rs))) = 3.
Proof. split; reflexivity. Qed.

(** The mode that [run] reports, from the rows of [parseCsv]. *)
Lemma runMode_of_rows
  (usingUrlsFile forceFrontier : bool) (input : option string)
  (origin pathPrefix : string) :
  runMode usingUrlsFile forceFrontier input origin pathPrefix
  = match input with
    | None => "no-input"
    | Some raw =>
        if negb usingUrlsFile && negb forceFrontier
           && negb (List.length (Csv.parseCsv raw "auto") =? 0)
        then "explicit-urls"
        else "discovery"
    end.
Proof.
  unfold runMode. cbv zeta.
  destruct input as [raw|].
  2:{ unfold modeName. reflexivity. }
  unfold modeName. cbn [negb].
  destruct usingUrlsFile; [reflexivity|]. cbn [negb andb].
  unfold resolve. cbv iota.
  destruct (Csv.parseCsv raw "auto") as [|r0 rs].
  - cbn [map List.length Nat.eqb negb andb].
    destruct forceFrontier; reflexivity.
  - cbn [List.length Nat.eqb negb andb].
    destruct forceFrontier; cbn [negb andb].
    + cbv zeta.
      destruct (sniffInputShape_csv_rows r0 rs) as [Hm Hc].
      cbn [shape]. rewrite Hm, Hc. cbn. reflexivity.
    + destruct (fst (sniffInputForExplicitUrls
                       (Some (map ofCsvRow (r0 :: rs))) origin pathPrefix)).
      * reflexivity.
      * cbv zeta. destruct (sniffInputShape_csv_rows r0 rs) as [Hm Hc].
        cbn [shape]. rewrite Hm, Hc. reflexivity.
Qed.

Lemma parseCsv_dataLines (raw : string) :
  Csv.parseCsv raw "auto" = flat_map rowsOfLine (dataLines raw).
Proof.
  unfold Csv.parseCsv, dataLines. cbv zeta.
  destruct (filter Csv.nonBlank (splitLines raw)) as [|first rest];
    [reflexivity|].
  change (String.eqb "auto" "true") with false.
  change (String.eqb "auto" "auto") with true. cbn [orb andb].
  rewrite fold_pushLine. reflexivity.
Qed.

Lemma wide_line_gives_row (ls : list string) :
  Exists (fun l => 3 <= List.length (Csv.splitCsvLine l)) ls ->
  flat_map rowsOfLine ls <> [].
Proof.
  induction 1 as [l ls Hl | l ls _ IH]; cbn [flat_map].
  - unfold rowsOfLine, Spec.rowOfCells.
    destruct (Csv.splitCsvLine l) as [|a [|b [|c r]]]; cbn in Hl; try lia.
    discriminate.
  - intros E. apply app_eq_nil in E. apply IH, E.
Qed.

(** C5, as the code has it.  Without an input file the mode is
    [no-input].  With an input file, a worker that reads a shard URL file
    or is forced into frontier mode reports [discovery], whatever the file
    holds.  A worker for which neither is the case reports [explicit-urls]
    when the input file has a data line of three or more cells. *)
Theorem run_mode_of_input_file
  (usingUrlsFile forceFrontier : bool) (origin pathPrefix : string) :
  runMode usingUrlsFile forceFrontier None origin pathPrefix = "no-input"
  /\ (forall raw,
        usingUrlsFile = true \/ forceFrontier = true ->
        runMode usingUrlsFile forceFrontier (Some raw) origin pathPrefix
        = "discovery")
  /\ (forall raw,
        usingUrlsFile = false -> forceFrontier = false ->
        Exists (fun l => 3 <= List.length (Csv.splitCsvLine l))
               (dataLines raw) ->
        runMode usingUrlsFile forceFrontier (Some raw) origin pathPrefix
        = "explicit-urls").
Proof.
  split; [|split].
  - apply runMode_of_rows.
  - intros raw Hforced. rewrite runMode_of_rows.
    destruct Hforced as [-> | ->]; [reflexivity|].
    destruct usingUrlsFile; reflexivity.
  - intros raw -> -> Hwide. rewrite runMode_of_rows. cbn [negb andb].
    rewrite parseCsv_dataLines.
    apply wide_line_gives_row in Hwide.
    destruct (flat_map rowsOfLine (dataLines raw)); [congruence|].
    reflexivity.
Qed.

Lemma run_mode_of_input_file_witness :
  Exists (fun l => 3 <= List.length (Csv.splitCsvLine l))
         (dataLines threeColumns)
  /\ runMode false false (Some threeColumns) "https://example.com" EmptyString
     = "explicit-urls".
Proof.
  assert (H : Exists (fun l => 3 <= List.length (Csv.splitCsvLine l))
                     (dataLines threeColumns)).
  { apply Exists_exists.
    assert (B : existsb (fun l => 3 <=? List.length (Csv.splitCsvLine l))
                        (dataLines threeColumns) = true)
      by (vm_compute; reflexivity).
    apply existsb_exists in B as (l & Hin & Hl).
    exists l. split; [exact Hin | apply Nat.leb_le, Hl]. }
  split; [exact H|].
  exact (proj2 (proj2 (run_mode_of_input_file false false
                         "https://example.com" EmptyString))
           threeColumns eq_refl eq_refl H).
Defined.

(** C5, counterexample.  A worker spawned with [--mode frontier] that is
    given a three-column input resolves to [discovery], where the sentence
    of the specification gives [explicit-urls]. *)
Lemma forced_frontier_three_columns :
  cols (sniffInputShape (map ofCsvRow (Csv.parseCsv threeColumns "auto"))) = 3
  /\ runMode false true (Some threeColumns) "https://example.com" ""
     = "discovery".
Proof. split; vm_compute; reflexivity. Qed.

(** An input file that is there but yields no row is reported as
    [discovery] as well, although [sniffInputShape] calls it [no-input]. *)
Lemma empty_input_file_mode :
  mode (sniffInputShape (map ofCsvRow (Csv.parseCsv "" "auto"))) = "no-input"
  /\ runMode false false (Some "") "https://example.com" "" = "discovery".
Proof. split; vm_compute; reflexivity. Qed.

End RunFacts.

(* ---------------------------------------------------------------------- *)
(** ** The exits of the work/idle loop                                     *)
(* ---------------------------------------------------------------------- *)

Section CrawlerFacts.
Import Js Crawler.

Lemma step_break (maxPages : option nat) (l l' : Loop) (c : Cycle) (e : Exit) :
  step maxPages l c = Break e l' ->
  match e with
  | FrontierEmpty => Spec.quiescent c l'
  | FrontierSettled => 60 <= stableCycles l'
  | PageCap => belowCap (results l') maxPages = false
  end.
Proof.
  unfold step.
  destruct (belowCap (results l) maxPages) eqn:Hcap; cbn [negb].
  2:{ intros E. injection E as <- <-. exact Hcap. }
  destruct (preferredWork c || stealWork c); [discriminate|].
  match goal with
  | |- (if ?b then _ else _) = _ -> _ => destruct b eqn:Hq
  end.
  - apply andb_prop in Hq as [Hq Hc]. apply andb_prop in Hq as [Hl Hk].
    apply Nat.eqb_eq in Hl, Hk. apply orb_prop in Hc.
    assert (Hc' : 5 <= (if truthy (snap c) && String.eqb (snap c) (lastSnap l)
                        then stableCycles l + 1 else 0)
                  \/ 50 <= idleCycles l + 1).
    { destruct Hc as [Hc | Hc]; apply Nat.leb_le in Hc; [left | right]; exact Hc. }
    clear Hc.
    intros E. injection E as <- <-.
    unfold Spec.quiescent. cbn [stableCycles idleCycles].
    repeat split; assumption.
  - match goal with
    | |- (if ?b then _ else _) = _ -> _ => destruct b eqn:Hs
    end; [|discriminate].
    apply Nat.leb_le in Hs.
    intros E. injection E as <- <-.
    cbn [stableCycles]. exact Hs.
Qed.




End CrawlerFacts.

(* ---------------------------------------------------------------------- *)
(** ** The claim ledger: retries of [tryClaim]                             *)
(* ---------------------------------------------------------------------- *)

Section LedgerFacts.
Import Js Frontier.

Variable sha1 : string -> string.



Lemma log_openExclusive lockPath w :
  log (snd (openExclusive lockPath w))
  = (log w ++ [EvOpen (fst (openExclusive lockPath w))])%list.
Proof.
  unfold openExclusive.
  destruct (hd None (openFaults w)) as [e|]; [reflexivity|].
  destruct (existsSync lockPath _); reflexivity.
Qed.

Lemma acquire_log (n : nat) (sleep : option Z) (lockPath : string) :
  forall w,
    exists es tail,
      log (snd (acquire n sleep lockPath w))
      = (log w ++ retried sleep es ++ tail)%list
      /\ Forall (fun e => transient e = true) es
      /\ final tail
      /\ List.length es + List.length tail <= n
      /\ (fst (acquire n sleep lockPath w) = true -> tail = [EvOpen None]).
Proof.
  induction n as [|n IH]; intros w; simpl.
  - exists [], []. simpl. rewrite app_nil_r.
    repeat split; [constructor | left; reflexivity | lia | discriminate].
  - pose proof (log_openExclusive lockPath w) as Hlog.
    destruct (openExclusive lockPath w) as [[e|] w1] eqn:Ho; simpl in Hlog.
    + destruct (transient e) eqn:Ht.
      * destruct (IH (emit (EvSleep sleep) w1))
          as (es & tail & Hl & Hes & Hf & Hn & Hok).
        exists (e :: es), tail. rewrite Hl. simpl. unfold push. rewrite Hlog.
        rewrite <- !app_assoc. simpl.
        repeat split; [constructor; assumption | assumption | lia | exact Hok].
      * exists [], [EvOpen (Some e)]. simpl. rewrite Hlog.
        repeat split; [constructor | | lia | discriminate].
        right. exists (Some e). split; [reflexivity|].
        intros e' E. inversion E; subst. exact Ht.
    + exists [], [EvOpen None]. simpl. rewrite Hlog.
      repeat split; [constructor | | lia].
      right. exists None. split; [reflexivity | discriminate].
Qed.


Lemma tryClaim_granted env url w :
  fst (tryClaim sha1 env url w) <> None ->
  existsSync (sha1 url ++ ".done") w = false
  /\ fst (acquire (tries env) (SLEEP_MS env) (sha1 url ++ ".lock") w) = true.
Proof.
  unfold tryClaim.
  destruct (existsSync (sha1 url ++ ".done") w); [simpl; congruence|].
  destruct (acquire _ _ _ w) as [[|] w1]; simpl; [auto | congruence].
Qed.



End LedgerFacts.


(* ---------------------------------------------------------------------- *)
(** ** The bucket cursor of [claimNextBucket]                              *)
(* ---------------------------------------------------------------------- *)

Section BucketFacts.
Import Js Frontier.

Variable sha1 : string -> string.

Lemma offsetFile_writeOffset r text w :
  offsetFile (writeOffset r text w) r = Some text.
Proof. unfold writeOffset. cbn [offsetFile]. rewrite Nat.eqb_refl. reflexivity. Qed.

Lemma offsetFile_politeDelay env w : offsetFile (politeDelay env w) = offsetFile w.
Proof.
  unfold politeDelay. destruct (envInt _ _) as [d|]; [|reflexivity].
  destruct (0 <? d)%Z; reflexivity.
Qed.

(** When the scan claims nothing, the cursor it persists is the one it
    started from, whatever it has scanned. *)
Lemma scanLines_none_cursor env acceptFn r pos (lines : list string) :
  forall advanced w,
    fst (scanLines sha1 env acceptFn r pos advanced lines w) = None ->
    offsetFile (snd (scanLines sha1 env acceptFn r pos advanced lines w)) r
    = Some (toString pos).
Proof.
  induction lines as [|line rest IH]; intros advanced w; cbn [scanLines].
  - intros _. apply offsetFile_writeOffset.
  - cbv zeta. destruct (negb (truthy (trim line))); [apply IH|].
    destruct (negb (acceptFn (trim line))); [apply IH|].
    destruct (tryClaim sha1 env (trim line) w) as [[c|] w1].
    + discriminate.
    + apply IH.
Qed.

(** When the scan claims a URL, it is the first line that is not blank,
    passes [acceptFn] and is granted by the ledger, and the persisted
    cursor has moved through that line. *)
Lemma scanLines_some_cursor env acceptFn r pos (lines : list string) :
  forall advanced w url claim,
    fst (scanLines sha1 env acceptFn r pos advanced lines w)
    = Some (url, claim) ->
    exists before line after,
      lines = (before ++ line :: after)%list
      /\ url = trim line /\ truthy url = true /\ acceptFn url = true
      /\ Forall (fun l => truthy (trim l) = false
                          \/ acceptFn (trim l) = false
                          \/ exists w', fst (tryClaim sha1 env (trim l) w') = None)
                before
      /\ offsetFile (snd (scanLines sha1 env acceptFn r pos advanced lines w)) r
         = Some (toString (pos + (advanced + bytesThrough before line after))).
Proof.
  induction lines as [|line rest IH]; intros advanced w url claim;
    cbn [scanLines]; [discriminate|].
  cbv zeta.
  assert (Hblock : forall w1 (P : Prop),
            P ->
            fst (scanLines sha1 env acceptFn r pos
                   (advanced + Z.of_nat (String.length
                      match rest with [] => line | _ :: _ => line ++ NL end))
                   rest w1) = Some (url, claim) ->
            (P -> truthy (trim line) = false
                  \/ acceptFn (trim line) = false
                  \/ exists w', fst (tryClaim sha1 env (trim line) w') = None) ->
            exists before line0 after,
              (line :: rest = before ++ line0 :: after)%list
              /\ url = trim line0 /\ truthy url = true /\ acceptFn url = true
              /\ Forall (fun l => truthy (trim l) = false
                                  \/ acceptFn (trim l) = false
                                  \/ exists w', fst (tryClaim sha1 env (trim l) w') = None)
                        before
              /\ offsetFile (snd (scanLines sha1 env acceptFn r pos
                   (advanced + Z.of_nat (String.length
                      match rest with [] => line | _ :: _ => line ++ NL end))
                   rest w1)) r
                 = Some (toString (pos + (advanced + bytesThrough before line0 after)))).
  { intros w1 P HP Hs Hwhy.
    destruct (IH _ w1 url claim Hs) as (before & l0 & after & E & Hu & Ht & Ha & Hf & Ho).
    exists (line :: before), l0, after. subst rest.
    repeat split; try assumption.
    - constructor; [apply Hwhy, HP | exact Hf].
    - rewrite Ho. f_equal. f_equal. cbn [bytesThrough]. unfold lineBytes.
      destruct (before ++ l0 :: after)%list eqn:Eb;
        [destruct before; discriminate|]. lia. }
  destruct (truthy (trim line)) eqn:Ht; cbn [negb].
  2:{ intros Hs. apply (Hblock w True I Hs). auto. }
  destruct (acceptFn (trim line)) eqn:Ha; cbn [negb].
  2:{ intros Hs. apply (Hblock w True I Hs). auto. }
  destruct (tryClaim sha1 env (trim line) w) as [[c|] w1] eqn:Hc.
  - cbn [fst snd]. intros E. injection E as <- <-.
    exists [], line, rest. cbn [app bytesThrough].
    repeat split; try assumption; [constructor|].
    rewrite offsetFile_politeDelay, offsetFile_writeOffset. reflexivity.
  - intros Hs. apply (Hblock w1 True I Hs). intros _. right; right.
    exists w. rewrite Hc. reflexivity.
Qed.

(** C1, at the failing input.  The only pending line of bucket 0 fails
    [acceptFn].  The call scans it and returns nothing, as it should, but
    the cursor it persists is still 0: all 30 bytes stay pending and the
    next call scans the same line again. *)
Theorem rejected_line_leaves_cursor :
  let r := claimNextBucket sha1 defaultEnv 0 underDocs blogOnly in
  fst r = None
  /\ offsetFile (snd r) 0 = Some "0"
  /\ bucketPendingBytes 0 (snd r) = 30%Z
  /\ offsetFile (snd (claimNextBucket sha1 defaultEnv 0 underDocs (snd r))) 0
     = Some "0".
Proof. cbv zeta. repeat split; vm_compute; reflexivity. Qed.

End BucketFacts.

(* ---------------------------------------------------------------------- *)
(** ** The merged URL list                                                 *)
(* ---------------------------------------------------------------------- *)

Section MergeFacts.
Import Js ShardRun.

Lemma append_empty_r (s : string) : s ++ "" = s.
Proof. induction s as [|c s IH]; simpl; [reflexivity | rewrite IH; reflexivity]. Qed.

Lemma append_assoc3 (a b c : string) : (a ++ b) ++ c = a ++ b ++ c.
Proof. induction a as [|x a IH]; simpl; [reflexivity | rewrite IH; reflexivity]. Qed.

Lemma join_lines (urls : list string) :
  join "" (map (fun u => u ++ NL) urls) = linesText urls.
Proof.
  induction urls as [|u [|v us] IH].
  - reflexivity.
  - reflexivity.
  - change (join "" (map (fun u => u ++ NL) (u :: v :: us)))
      with ((u ++ NL) ++ "" ++ join "" (map (fun u => u ++ NL) (v :: us))).
    rewrite IH. simpl. rewrite append_assoc3. reflexivity.
Qed.

Lemma linesText_app (a b : list string) :
  linesText (a ++ b) = linesText a ++ linesText b.
Proof.
  induction a as [|u a IH]; simpl; [reflexivity|].
  rewrite IH, !append_assoc3. reflexivity.
Qed.

Lemma masterAfter_text (parts : list (option (list string))) :
  forall master,
    fold_left appendPart parts master = master ++ linesText (urlsOf parts).
Proof.
  induction parts as [|p ps IH]; intros master; simpl.
  - symmetry; apply append_empty_r.
  - rewrite IH. destruct p as [urls|]; simpl; [|reflexivity].
    rewrite join_lines, linesText_app, append_assoc3. reflexivity.
Qed.

Lemma splitLines_step (c c' : ascii) (t' : string) :
  splitLines (String c (String c' t'))
  = if Ascii.eqb c LF then EmptyString :: splitLines (String c' t')
    else if Ascii.eqb c CR && Ascii.eqb c' LF
         then EmptyString :: splitLines t'
         else match splitLines (String c' t') with
              | p :: ps => String c p :: ps
              | [] => [String c EmptyString]
              end.
Proof. reflexivity. Qed.

Lemma splitLines_line (u rest : string) :
  Spec.noBreak u = true ->
  splitLines (u ++ NL ++ rest) = u :: splitLines rest.
Proof.
  induction u as [|c t IH]; intros Hu.
  - reflexivity.
  - simpl in Hu. apply andb_prop in Hu as [Hc Ht].
    apply andb_prop in Hc as [Hlf Hcr].
    apply negb_true_iff in Hlf, Hcr.
    specialize (IH Ht).
    change (String c t ++ NL ++ rest) with (String c (t ++ NL ++ rest)).
    destruct (t ++ NL ++ rest) as [|c' t'] eqn:E.
    + destruct t; discriminate.
    + rewrite splitLines_step, Hlf, Hcr. cbn [andb]. rewrite IH. reflexivity.
Qed.

Lemma splitLines_linesText (urls : list string) :
  Forall (fun u => Spec.lineSafe u = true) urls ->
  filter truthy (splitLines (linesText urls)) = urls.
Proof.
  induction 1 as [|u us Hu _ IH]; [reflexivity|].
  unfold Spec.lineSafe in Hu. apply andb_prop in Hu as [Ht Hb].
  cbn [linesText].
  rewrite (splitLines_line u (linesText us) Hb). cbn [filter].
  rewrite Ht, IH. reflexivity.
Qed.

Lemma existsb_eqb_In (x : string) (l : list string) :
  existsb (String.eqb x) l = true <-> In x l.
Proof.
  rewrite existsb_exists. split.
  - intros (y & Hy & E). apply String.eqb_eq in E. subst. exact Hy.
  - intros H. exists x. split; [exact H | apply String.eqb_refl].
Qed.

Lemma In_uniq (l : list string) :
  forall seen x, In x (uniq seen l) <-> In x l /\ ~ In x seen.
Proof.
  induction l as [|y l IH]; intros seen x; simpl; [tauto|].
  destruct (existsb (String.eqb y) seen) eqn:E.
  - apply existsb_eqb_In in E. rewrite IH. split.
    + intros [H1 H2]. auto.
    + intros [[<- | H1] H2]; [contradiction | auto].
  - assert (Hy : ~ In y seen).
    { intros H. apply existsb_eqb_In in H. congruence. }
    simpl. rewrite IH. simpl. split.
    + intros [<- | [H1 H2]]; [auto|]. split; [auto | tauto].
    + intros [[<- | H1] H2]; [auto|].
      destruct (string_dec y x) as [<- | Hne]; [auto|]. right. tauto.
Qed.

Lemma NoDup_uniq (l : list string) : forall seen, NoDup (uniq seen l).
Proof.
  induction l as [|y l IH]; intros seen; simpl; [constructor|].
  destruct (existsb (String.eqb y) seen); [apply IH|].
  constructor; [|apply IH].
  rewrite In_uniq. simpl. tauto.
Qed.

Lemma In_urlsOf (parts : list (option (list string))) (u : string) :
  In u (urlsOf parts) <-> exists urls, In (Some urls) parts /\ In u urls.
Proof.
  unfold urlsOf. rewrite in_flat_map. split.
  - intros ([urls|] & Hp & Hu); [eauto | destruct Hu].
  - intros (urls & Hp & Hu). exists (Some urls). auto.
Qed.

(** C2. Once every worker has exited and no stop was requested, the merge
    turns the master file, to which each exit handler has appended the
    URLs of its worker one per line, into a list without duplicates whose
    members are exactly the URLs of the per-worker lists; the count it
    reports is the length of that list.  The URLs are those a URL
    serializer produces: not empty and without line breaks. *)
Theorem merged_urls_are_the_union (parts : list (option (list string))) :
  Forall (fun u => Spec.lineSafe u = true) (urlsOf parts) ->
  exists merged,
    finalize false parts = Some (merged, List.length merged)
    /\ NoDup merged
    /\ forall u, In u merged <->
                 exists urls, In (Some urls) parts /\ In u urls.
Proof.
  intros Hsafe.
  exists (mergeManifestDedup (masterAfter parts)).
  split; [reflexivity|].
  unfold mergeManifestDedup, masterAfter.
  rewrite masterAfter_text. cbn [append].
  rewrite (splitLines_linesText _ Hsafe).
  split; [apply NoDup_uniq|].
  intros u. rewrite In_uniq, In_urlsOf. simpl. tauto.
Qed.

Lemma merged_urls_witness :
  Forall (fun u => Spec.lineSafe u = true) (urlsOf twoWorkers)
  /\ exists merged,
       finalize false twoWorkers = Some (merged, List.length merged)
       /\ NoDup merged
       /\ forall u, In u merged <->
                    exists urls, In (Some urls) twoWorkers /\ In u urls.
Proof.
  assert (H : Forall (fun u => Spec.lineSafe u = true) (urlsOf twoWorkers)).
  { apply Forall_forall. intros u Hu.
    assert (B : forallb Spec.lineSafe (urlsOf twoWorkers) = true)
      by (vm_compute; reflexivity).
    rewrite forallb_forall in B. apply B, Hu. }
  split; [exact H|].
  exact (merged_urls_are_the_union twoWorkers H).
Defined.

End MergeFacts.

(* ---------------------------------------------------------------------- *)
(** ** The claim ledger: exclusion, grants, completion, pruning            *)
(* ---------------------------------------------------------------------- *)

Section LedgerMoreFacts.
Import Js Frontier.

Variable sha1 : string -> string.

Lemma In_firstn_In {A} (x : A) (n : nat) (l : list A) :
  In x (firstn n l) -> In x l.
Proof.
  revert l; induction n as [|n IH]; intros [|y l]; simpl; try tauto.
  intros [H | H]; [left; exact H | right; apply IH, H].
Qed.

Lemma rev_string_app (a b : string) :
  rev_string (a ++ b) = rev_string b ++ rev_string a.
Proof.
  induction a as [|c a IH]; simpl.
  - symmetry. apply append_empty_r.
  - rewrite IH, append_assoc3. reflexivity.
Qed.

Lemma lock_is_no_done (id : string) : endsWith (id ++ ".lock") ".done" = false.
Proof. unfold endsWith. rewrite rev_string_app. reflexivity. Qed.

Lemma done_differs_from_lock (id : string) :
  String.eqb (id ++ ".done") (id ++ ".lock") = false.
Proof.
  induction id as [|c id IH]; simpl; [reflexivity|].
  rewrite Ascii.eqb_refl. exact IH.
Qed.

Lemma existsb_filter (f : string) (p : string -> bool) (l : list string) :
  existsb (String.eqb f) (filter p l) = existsb (String.eqb f) l && p f.
Proof.
  induction l as [|x l IH]; simpl; [reflexivity|].
  destruct (p x) eqn:Hp; simpl; rewrite IH.
  - destruct (String.eqb_spec f x) as [-> | Hne]; simpl.
    + rewrite Hp. reflexivity.
    + reflexivity.
  - destruct (String.eqb_spec f x) as [-> | Hne]; simpl.
    + rewrite Hp, andb_false_r. reflexivity.
    + reflexivity.
Qed.

Lemma existsSync_unlinkSync (f v : string) (w : World) :
  existsSync f (unlinkSync v w) = existsSync f w && negb (String.eqb f v).
Proof. unfold existsSync, unlinkSync, setLocks. cbn [locks]. apply existsb_filter. Qed.

Lemma existsSync_unlink_all (f : string) (victims : list string) :
  forall w,
    existsSync f (fold_left (fun w v => unlinkSync v w) victims w)
    = existsSync f w && negb (existsb (String.eqb f) victims).
Proof.
  induction victims as [|v vs IH]; intros w; simpl.
  - rewrite andb_true_r. reflexivity.
  - rewrite IH, existsSync_unlinkSync, negb_orb, andb_assoc. reflexivity.
Qed.

Lemma pruneDone_victims (env : Env) (w : World) :
  pruneDone env w = fold_left (fun w v => unlinkSync v w) (victimsOf env w) w.
Proof.
  unfold pruneDone, victimsOf, doneFiles.
  destruct (maxDone env) as [m|]; [|reflexivity].
  destruct (_ <? _)%Z; reflexivity.
Qed.

Lemma victims_are_done (env : Env) (w : World) (v : string) :
  In v (victimsOf env w) -> endsWith v ".done" = true.
Proof.
  unfold victimsOf. destruct (maxDone env) as [m|]; [|intros []].
  destruct (_ <? _)%Z; [|intros []].
  intros H. apply In_firstn_In in H. unfold doneFiles in H.
  apply filter_In in H. apply H.
Qed.

Lemma existsSync_pruneDone (env : Env) (w : World) (f : string) :
  existsSync f (pruneDone env w)
  = existsSync f w && negb (existsb (String.eqb f) (victimsOf env w)).
Proof. rewrite pruneDone_victims. apply existsSync_unlink_all. Qed.

Lemma pruneDone_keeps_other_files (env : Env) (w : World) (f : string) :
  endsWith f ".done" = false ->
  existsSync f (pruneDone env w) = existsSync f w.
Proof.
  intros Hf. rewrite existsSync_pruneDone.
  destruct (existsb (String.eqb f) (victimsOf env w)) eqn:E.
  - apply existsb_exists in E as (v & Hv & Ev). apply String.eqb_eq in Ev.
    subst v. apply victims_are_done in Hv. congruence.
  - apply andb_true_r.
Qed.

Lemma locks_unlink_all (victims : list string) :
  forall w,
    locks (fold_left (fun w v => unlinkSync v w) victims w)
    = filter (fun f => negb (existsb (String.eqb f) victims)) (locks w).
Proof.
  induction victims as [|v vs IH]; intros w; simpl.
  - induction (locks w) as [|x l IHl]; simpl; [reflexivity | f_equal; exact IHl].
  - rewrite IH. unfold unlinkSync, setLocks. cbn [locks].
    induction (locks w) as [|x l IHl]; simpl; [reflexivity|].
    destruct (String.eqb x v); simpl; [exact IHl|].
    destruct (existsb (String.eqb x) vs); simpl; [exact IHl | f_equal; exact IHl].
Qed.

Lemma filter_comm {A} (p q : A -> bool) (l : list A) :
  filter p (filter q l) = filter q (filter p l).
Proof.
  induction l as [|x l IH]; simpl; [reflexivity|].
  destruct (q x) eqn:Hq, (p x) eqn:Hp; simpl; rewrite ?Hq, ?Hp, IH; reflexivity.
Qed.

Lemma filter_length_le {A} (p : A -> bool) (l : list A) :
  List.length (filter p l) <= List.length l.
Proof.
  induction l as [|x l IH]; simpl; [lia|]. destruct (p x); simpl; lia.
Qed.

Lemma filter_out_all (vs xs : list string) :
  (forall x, In x xs -> In x vs) ->
  filter (fun f => negb (existsb (String.eqb f) vs)) xs = [].
Proof.
  induction xs as [|x xs IHx]; intros Hsub; simpl; [reflexivity|].
  assert (Hx : existsb (String.eqb x) vs = true).
  { apply existsb_exists. exists x. split; [apply Hsub; left; reflexivity|].
    apply String.eqb_refl. }
  rewrite Hx. simpl. apply IHx. intros y Hy. apply Hsub. right. exact Hy.
Qed.

Lemma filter_out_none (vs xs : list string) :
  (forall x, In x xs -> ~ In x vs) ->
  filter (fun f => negb (existsb (String.eqb f) vs)) xs = xs.
Proof.
  induction xs as [|x xs IHx]; intros Hsub; simpl; [reflexivity|].
  assert (Hx : existsb (String.eqb x) vs = false).
  { destruct (existsb (String.eqb x) vs) eqn:E; [|reflexivity].
    apply existsb_exists in E as (v & Hv & Ev). apply String.eqb_eq in Ev.
    subst v. exfalso. apply (Hsub x); [left; reflexivity | exact Hv]. }
  rewrite Hx. simpl. f_equal. apply IHx. intros y Hy. apply Hsub.
  right. exact Hy.
Qed.

(** In a listing without repetition, removing the files named by the first
    [k] entries leaves the entries after them. *)
Lemma filter_out_firstn (k : nat) (l : list string) :
  NoDup l ->
  filter (fun f => negb (existsb (String.eqb f) (firstn k l))) l = skipn k l.
Proof.
  intros Hnd.
  assert (E : l = (firstn k l ++ skipn k l)%list)
    by (symmetry; apply firstn_skipn).
  remember (firstn k l) as vs eqn:Evs. remember (skipn k l) as rest eqn:Er.
  clear Evs Er. subst l.
  rewrite filter_app, (filter_out_all vs vs (fun x Hx => Hx)).
  cbn [app]. apply filter_out_none.
  intros x Hx Hv.
  induction vs as [|y ys IH]; [destruct Hv|].
  cbn [app] in Hnd. inversion Hnd as [|? ? Hy Hnd']; subst.
  destruct Hv as [-> | Hv].
  - apply Hy. apply in_or_app. right. exact Hx.
  - exact (IH Hnd' Hv).
Qed.

Lemma NoDup_filter_str (p : string -> bool) (l : list string) :
  NoDup l -> NoDup (filter p l).
Proof.
  induction 1 as [|x l Hx Hnd IH]; simpl; [constructor|].
  destruct (p x); [|exact IH].
  constructor; [|exact IH]. intros H. apply filter_In in H. apply Hx, H.
Qed.

(** X3. The pruning in [tryClaim], on a directory listing that names each
    file once: when there are more completion markers than MC_MAX_DONE, the
    files removed are exactly the first-listed markers, as many as exceed
    the cap, so that exactly MC_MAX_DONE markers stay (none for a negative
    cap), namely the last-listed ones, in their order; otherwise nothing is
    removed.  No file that is not a completion marker is removed, and no
    file appears.  By default MC_MAX_DONE is 5000. *)
Theorem pruneDone_trims_done_only (env : Env) (w : World) (m : Z) :
  maxDone env = Some m ->
  NoDup (locks w) ->
  let n := Z.of_nat (List.length (doneFiles w)) in
  let k := if (m <? n)%Z then Z.to_nat (n - m) else 0 in
  locks (pruneDone env w)
  = filter (fun f => negb (existsb (String.eqb f) (firstn k (doneFiles w))))
           (locks w)
  /\ doneFiles (pruneDone env w) = skipn k (doneFiles w)
  /\ ((m < n)%Z ->
      Z.of_nat (List.length (doneFiles (pruneDone env w))) = Z.max 0 m)
  /\ ((n <= m)%Z -> pruneDone env w = w)
  /\ (forall f, endsWith f ".done" = false ->
                existsSync f (pruneDone env w) = existsSync f w)
  /\ (forall f, existsSync f (pruneDone env w) = true -> existsSync f w = true)
  /\ maxDone defaultEnv = Some 5000%Z.
Proof.
  intros Hm Hnd. cbv zeta.
  assert (Hv : victimsOf env w
               = firstn (if (m <? Z.of_nat (List.length (doneFiles w)))%Z
                         then Z.to_nat (Z.of_nat (List.length (doneFiles w)) - m)
                         else 0) (doneFiles w)).
  { unfold victimsOf. rewrite Hm. destruct (_ <? _)%Z; reflexivity. }
  assert (Hl : locks (pruneDone env w)
               = filter (fun f => negb (existsb (String.eqb f)
                                          (victimsOf env w))) (locks w)).
  { rewrite pruneDone_victims. apply locks_unlink_all. }
  assert (Hd : doneFiles (pruneDone env w)
               = skipn (if (m <? Z.of_nat (List.length (doneFiles w)))%Z
                        then Z.to_nat (Z.of_nat (List.length (doneFiles w)) - m)
                        else 0) (doneFiles w)).
  { unfold doneFiles at 1. rewrite Hl, filter_comm. fold (doneFiles w).
    rewrite Hv. apply filter_out_firstn. apply NoDup_filter_str, Hnd. }
  split; [rewrite Hl, Hv; reflexivity|].
  split; [exact Hd|].
  split; [|split; [|split]].
  - intros Hlt. rewrite Hd.
    destruct (Z.ltb_spec m (Z.of_nat (List.length (doneFiles w)))); [|lia].
    rewrite length_skipn. lia.
  - intros Hge. unfold pruneDone. rewrite Hm. fold (doneFiles w).
    destruct (Z.ltb_spec m (Z.of_nat (List.length (doneFiles w)))); [lia|].
    reflexivity.
  - intros f Hf. apply pruneDone_keeps_other_files, Hf.
  - split; [|vm_compute; reflexivity].
    intros f. rewrite existsSync_pruneDone. intros H.
    apply andb_prop in H. apply H.
Qed.

Lemma acquire_blocked (n : nat) (sleep : option Z) (p : string) :
  forall w,
    existsSync p w = true ->
    fst (acquire n sleep p w) = false
    /\ locks (snd (acquire n sleep p w)) = locks w.
Proof.
  induction n as [|n IH]; intros w Hp; simpl; [auto|].
  unfold openExclusive.
  assert (Hp' : existsSync p
                  (mkWorld (locks w) (bucketFile w) (offsetFile w)
                           (tl (openFaults w)) (writeFaults w) (log w)) = true)
    by exact Hp.
  destruct (hd None (openFaults w)) as [e|].
  - destruct (transient e); [|auto].
    match goal with
    | |- fst (acquire _ _ _ ?w1) = _ /\ _ => exact (IH w1 Hp)
    end.
  - rewrite Hp'. cbn [transient]. auto.
Qed.

Lemma acquire_opened (n : nat) (sleep : option Z) (p : string) :
  forall w,
    fst (acquire n sleep p w) = true ->
    existsSync p w = false
    /\ locks (snd (acquire n sleep p w)) = push (locks w) p.
Proof.
  induction n as [|n IH]; intros w; simpl; [discriminate|].
  unfold openExclusive.
  destruct (hd None (openFaults w)) as [e|].
  - destruct (transient e); [|discriminate].
    match goal with
    | |- fst (acquire _ _ _ ?w1) = _ -> _ => exact (IH w1)
    end.
  - match goal with
    | |- context [if ?b then Some EEXIST else None] => destruct b eqn:Hb
    end.
    + cbn [transient]. discriminate.
    + intros _. split; [exact Hb | reflexivity].
Qed.

(** X1. While the lock file of a URL is there, no call of [tryClaim] for
    that URL is granted, whatever the operating system answers and however
    often the call retries; the ledger directory is left as it is. *)
Theorem held_lock_excludes (env : Env) (url : string) (w : World) :
  existsSync (sha1 url ++ ".lock") w = true ->
  fst (tryClaim sha1 env url w) = None
  /\ locks (snd (tryClaim sha1 env url w)) = locks w.
Proof.
  intros Hl. unfold tryClaim.
  destruct (existsSync (sha1 url ++ ".done") w); [auto|].
  destruct (acquire_blocked (tries env) (SLEEP_MS env) _ w Hl) as [Hf Hk].
  destruct (acquire _ _ _ w) as [[|] w1]; simpl in *; [discriminate | auto].
Qed.

Lemma existsSync_push (f p : string) (w : World) (l : list string) :
  locks w = push l p ->
  existsSync f w = existsb (String.eqb f) l || String.eqb f p.
Proof.
  intros E. unfold existsSync. rewrite E. unfold push.
  rewrite existsb_app. simpl. rewrite orb_false_r. reflexivity.
Qed.

Lemma tryClaim_grant
  (env : Env) (url : string) (w w' : World) (c : Claim) :
  tryClaim sha1 env url w = (Some c, w') ->
  c = mkClaim (sha1 url ++ ".lock") (sha1 url ++ ".done")
  /\ existsSync (donePath c) w = false
  /\ existsSync (lockPath c) w = false
  /\ existsSync (lockPath c) w' = true
  /\ (forall f, existsSync f w' = true ->
                existsSync f w = true \/ f = lockPath c)
  /\ (forall f, endsWith f ".done" = false -> existsSync f w = true ->
                existsSync f w' = true).
Proof.
  unfold tryClaim.
  destruct (existsSync (sha1 url ++ ".done") w) eqn:Hd; [discriminate|].
  pose proof (acquire_opened (tries env) (SLEEP_MS env) (sha1 url ++ ".lock") w)
    as Ha.
  destruct (acquire _ _ _ w) as [[|] w1]; [|discriminate].
  destruct (Ha eq_refl) as [Hl Hk]. clear Ha. cbn [snd] in Hk.
  unfold writeLock. destruct (hd false (writeFaults w1)); [discriminate|].
  intros E. injection E as <- <-. cbn [lockPath donePath].
  set (w2 := mkWorld (locks w1) (bucketFile w1) (offsetFile w1)
               (openFaults w1) (tl (writeFaults w1)) (log w1)).
  assert (Hw2 : forall f, existsSync f w2
                          = existsSync f w || String.eqb f (sha1 url ++ ".lock")).
  { intros f. apply (existsSync_push f _ w2 (locks w)). exact Hk. }
  repeat split; try assumption.
  - rewrite (pruneDone_keeps_other_files env w2 _ (lock_is_no_done (sha1 url))).
    rewrite Hw2, String.eqb_refl. apply orb_true_r.
  - intros f Hf. rewrite existsSync_pruneDone in Hf.
    apply andb_prop in Hf as [Hf _]. rewrite Hw2 in Hf.
    apply orb_prop in Hf as [Hf | Hf]; [left; exact Hf|].
    right. apply String.eqb_eq, Hf.
  - intros f Hnd Hf.
    rewrite (pruneDone_keeps_other_files env w2 f Hnd), Hw2, Hf. reflexivity.
Qed.

(** X2. A claim is granted only for a URL that has neither a completion
    marker nor a lock; the handle names the two files of that URL, its
    lock file exists afterwards, no file appears other than that lock,
    and no file other than a completion marker disappears. *)
Theorem granted_claim_holds_lock
  (env : Env) (url : string) (w w' : World) (c : Claim) :
  tryClaim sha1 env url w = (Some c, w') ->
  c = mkClaim (sha1 url ++ ".lock") (sha1 url ++ ".done")
  /\ existsSync (donePath c) w = false
  /\ existsSync (lockPath c) w = false
  /\ existsSync (lockPath c) w' = true
  /\ (forall f, existsSync f w' = true ->
                existsSync f w = true \/ f = lockPath c)
  /\ (forall f, endsWith f ".done" = false -> existsSync f w = true ->
                existsSync f w' = true).
Proof. apply tryClaim_grant. Qed.

(** X4. Completion is final and release gives the URL back: after
    [complete] the marker is there, the lock is gone, and a later
    [tryClaim] of the URL returns nothing without touching anything;
    after [release] the lock is gone and, when the next exclusive create
    and lock write meet no fault, the URL is granted again. *)
Theorem complete_is_final_release_reopens
  (env env' : Env) (url : string) (w w' : World) (c : Claim) :
  tryClaim sha1 env url w = (Some c, w') ->
  (existsSync (lockPath c) (complete c w') = false
   /\ tryClaim sha1 env' url (complete c w') = (None, complete c w'))
  /\ (existsSync (lockPath c) (release c w') = false
      /\ (0 < tries env' ->
          hd None (openFaults w') = None ->
          hd false (writeFaults w') = false ->
          fst (tryClaim sha1 env' url (release c w')) = Some c)).
Proof.
  intros H.
  destruct (tryClaim_grant env url w w' c H)
    as (Hc & Hd & Hl & Hl' & Hnew & _).
  subst c. cbn [lockPath donePath] in *.
  split; split.
  - unfold complete, existsSync, setLocks, push. cbn [locks lockPath donePath].
    rewrite existsb_app, existsb_filter, String.eqb_refl. simpl.
    rewrite andb_false_r, orb_false_r. simpl.
    rewrite String.eqb_sym. apply done_differs_from_lock.
  - unfold tryClaim.
    assert (E : existsSync (sha1 url ++ ".done")
                  (complete (mkClaim (sha1 url ++ ".lock") (sha1 url ++ ".done")) w')
                = true).
    { unfold complete, existsSync, setLocks, push. cbn [locks lockPath donePath].
      rewrite existsb_app. simpl. rewrite String.eqb_refl.
      rewrite orb_true_r. reflexivity. }
    rewrite E. reflexivity.
  - unfold release. cbn [lockPath].
    rewrite existsSync_unlinkSync, String.eqb_refl. apply andb_false_r.
  - intros Htries Ho Hw.
    set (w2 := release (mkClaim (sha1 url ++ ".lock") (sha1 url ++ ".done")) w').
    assert (Hd2 : existsSync (sha1 url ++ ".done") w2 = false).
    { subst w2. unfold release. cbn [lockPath].
      rewrite existsSync_unlinkSync.
      destruct (existsSync (sha1 url ++ ".done") w') eqn:E; [|reflexivity].
      destruct (Hnew _ E) as [E' | E']; [congruence|].
      apply (f_equal (fun s => String.eqb s (sha1 url ++ ".lock"))) in E'.
      rewrite done_differs_from_lock, String.eqb_refl in E'. discriminate. }
    assert (Hl2 : existsSync (sha1 url ++ ".lock") w2 = false).
    { subst w2. unfold release. cbn [lockPath].
      rewrite existsSync_unlinkSync, String.eqb_refl. apply andb_false_r. }
    unfold tryClaim. rewrite Hd2.
    destruct (tries env') as [|n]; [lia|].
    cbn [acquire]. unfold openExclusive.
    change (openFaults w2) with (openFaults w').
    rewrite Ho.
    change (existsSync (sha1 url ++ ".lock")
              (mkWorld (locks w2) (bucketFile w2) (offsetFile w2)
                       (tl (openFaults w')) (writeFaults w2) (log w2)))
      with (existsSync (sha1 url ++ ".lock") w2).
    rewrite Hl2. unfold writeLock. cbn [writeFaults setLocks emit].
    change (writeFaults w2) with (writeFaults w').
    rewrite Hw. reflexivity.
Qed.

End LedgerMoreFacts.

Section LedgerMoreWitnesses.
Import Js Frontier.

Lemma pruneDone_witness :
  maxDone capTwo = Some 2%Z
  /\ NoDup (locks threeDone)
  /\ locks (pruneDone capTwo threeDone) = ["b.done"; "c.done"].
Proof.
  assert (H : maxDone capTwo = Some 2%Z) by reflexivity.
  assert (Hnd : NoDup (locks threeDone)).
  { cbn. repeat constructor; cbn; intuition discriminate. }
  split; [exact H|]. split; [exact Hnd|].
  exact (proj1 (pruneDone_trims_done_only capTwo threeDone 2%Z H Hnd)).
Defined.

Lemma held_lock_witness :
  existsSync (plainId "https://example.com/" ++ ".lock") heldElsewhere = true
  /\ fst (tryClaim plainId defaultEnv "https://example.com/" heldElsewhere)
     = None.
Proof.
  assert (H : existsSync (plainId "https://example.com/" ++ ".lock")
                heldElsewhere = true) by (vm_compute; reflexivity).
  split; [exact H|].
  exact (proj1 (held_lock_excludes plainId defaultEnv "https://example.com/"
                  heldElsewhere H)).
Defined.

Lemma granted_claim_witness :
  tryClaim plainId defaultEnv "https://example.com/" emptyWorld
  = (Some (mkClaim "https://example.com/.lock" "https://example.com/.done"),
     snd (tryClaim plainId defaultEnv "https://example.com/" emptyWorld))
  /\ existsSync "https://example.com/.lock"
       (snd (tryClaim plainId defaultEnv "https://example.com/" emptyWorld))
     = true.
Proof.
  assert (H : tryClaim plainId defaultEnv "https://example.com/" emptyWorld
              = (Some (mkClaim "https://example.com/.lock"
                               "https://example.com/.done"),
                 snd (tryClaim plainId defaultEnv "https://example.com/"
                        emptyWorld)))
    by (vm_compute; reflexivity).
  split; [exact H|].
  exact (proj1 (proj2 (proj2 (proj2
           (granted_claim_holds_lock plainId defaultEnv "https://example.com/"
              emptyWorld _ _ H))))).
Defined.

Lemma complete_release_witness :
  tryClaim plainId defaultEnv "https://example.com/" emptyWorld
  = (Some (mkClaim "https://example.com/.lock" "https://example.com/.done"),
     snd (tryClaim plainId defaultEnv "https://example.com/" emptyWorld))
  /\ fst (tryClaim plainId defaultEnv "https://example.com/"
            (complete (mkClaim "https://example.com/.lock"
                               "https://example.com/.done")
               (snd (tryClaim plainId defaultEnv "https://example.com/"
                       emptyWorld))))
     = None.
Proof.
  assert (H : tryClaim plainId defaultEnv "https://example.com/" emptyWorld
              = (Some (mkClaim "https://example.com/.lock"
                               "https://example.com/.done"),
                 snd (tryClaim plainId defaultEnv "https://example.com/"
                        emptyWorld)))
    by (vm_compute; reflexivity).
  split; [exact H|].
  pose proof (complete_is_final_release_reopens plainId defaultEnv defaultEnv
                "https://example.com/" emptyWorld _ _ H) as [[_ E] _].
  rewrite E. reflexivity.
Defined.

End LedgerMoreWitnesses.
(* ---------------------------------------------------------------------- *)
(** ** The bucket cursor: bounds, and what a claimed line is               *)
(* ---------------------------------------------------------------------- *)

Section CursorFacts.
Import Js Frontier.

Variable sha1 : string -> string.

Lemma split_nonempty (d : ascii) (s : string) : split d s <> [].
Proof.
  destruct s as [|c t]; simpl; [discriminate|].
  destruct (Ascii.eqb c d); [discriminate|].
  destruct (split d t); discriminate.
Qed.

Lemma length_append (a b : string) :
  String.length (a ++ b) = String.length a + String.length b.
Proof. induction a as [|c a IH]; simpl; [reflexivity | rewrite IH; reflexivity]. Qed.

Lemma lineBytes_cons (c : ascii) (p : string) (ps : list string) :
  lineBytes (String c p) ps = (1 + lineBytes p ps)%Z.
Proof. unfold lineBytes. destruct ps; simpl String.length; lia. Qed.

(** The pieces of a split text account for each of its bytes once. *)
Lemma split_totalBytes (s : string) :
  totalBytes (split LF s) = Z.of_nat (String.length s).
Proof.
  induction s as [|c t IH]; [reflexivity|].
  cbn [split]. destruct (Ascii.eqb c LF).
  - cbn [totalBytes]. rewrite IH. unfold lineBytes.
    destruct (split LF t) eqn:E; [exfalso; exact (split_nonempty _ _ E)|].
    simpl String.length. lia.
  - destruct (split LF t) as [|p ps] eqn:E; [exfalso; exact (split_nonempty _ _ E)|].
    cbn [totalBytes] in *. rewrite lineBytes_cons. simpl String.length. lia.
Qed.

Lemma lineBytes_nonneg (l : string) (rest : list string) : (0 <= lineBytes l rest)%Z.
Proof. unfold lineBytes. lia. Qed.

Lemma totalBytes_nonneg (ls : list string) : (0 <= totalBytes ls)%Z.
Proof.
  induction ls as [|l ls IH]; simpl; [lia|].
  pose proof (lineBytes_nonneg l ls). lia.
Qed.

Lemma bytesThrough_le_total (before : list string) (line : string)
  (after : list string) :
  (bytesThrough before line after <= totalBytes (before ++ line :: after))%Z.
Proof.
  induction before as [|b bs IH]; simpl.
  - pose proof (totalBytes_nonneg after). lia.
  - lia.
Qed.

Lemma bytesThrough_pos (before : list string) (line : string)
  (after : list string) :
  line <> EmptyString -> (0 < bytesThrough before line after)%Z.
Proof.
  intros Hne. induction before as [|b bs IH]; simpl.
  - unfold lineBytes. destruct line; [congruence|].
    destruct after; simpl String.length; lia.
  - pose proof (lineBytes_nonneg b (bs ++ line :: after)). lia.
Qed.

Lemma length_replaceCRLF (s : string) :
  String.length (replaceCRLF s) <= String.length s.
Proof.
  assert (H : forall n s, String.length s <= n ->
                          String.length (replaceCRLF s) <= String.length s).
  { induction n as [|n IH]; intros [|c [|c' t']] Hn; simpl in *; try lia.
    destruct (Ascii.eqb c CR && Ascii.eqb c' LF); simpl.
    - specialize (IH t'). lia.
    - specialize (IH (String c' t')). simpl in IH. lia. }
  apply (H (String.length s)). lia.
Qed.

Lemma length_substring (s : string) :
  forall n m, String.length (substring n m s) = Nat.min m (String.length s - n).
Proof.
  induction s as [|c s IH]; intros [|n] [|m]; simpl; try reflexivity.
  - rewrite IH. rewrite Nat.sub_0_r. reflexivity.
  - apply IH.
  - apply IH.
Qed.

Lemma trim_empty_of_empty (line : string) :
  truthy (trim line) = true -> line <> EmptyString.
Proof. intros H ->. discriminate. Qed.

Lemma readOffset_ensureBucket (r : nat) (w : World) :
  readOffset r (ensureBucket r w) = readOffset r w.
Proof. unfold ensureBucket. destruct (bucketFile w r); reflexivity. Qed.

Lemma bucketFile_ensureBucket (r : nat) (w : World) :
  match bucketFile (ensureBucket r w) r with Some b => b | None => EmptyString end
  = match bucketFile w r with Some b => b | None => EmptyString end.
Proof.
  unfold ensureBucket. destruct (bucketFile w r) eqn:E.
  - rewrite E. reflexivity.
  - cbn [bucketFile]. rewrite Nat.eqb_refl. reflexivity.
Qed.

Lemma digitChar_spec (d : Z) :
  (0 <= d < 10)%Z ->
  isDigit (digitChar d) = true
  /\ Z.of_nat (nat_of_ascii (digitChar d) - 48) = d.
Proof.
  intros H.
  assert (E : (d = 0 \/ d = 1 \/ d = 2 \/ d = 3 \/ d = 4 \/ d = 5 \/ d = 6
              \/ d = 7 \/ d = 8 \/ d = 9)%Z) by lia.
  repeat (destruct E as [-> | E]; [vm_compute; split; reflexivity|]).
  subst d. vm_compute; split; reflexivity.
Qed.

Lemma digit_not_white (c : ascii) : isDigit c = true -> isWhite c = false.
Proof.
  unfold isDigit, isWhite. cbv zeta. intros H.
  apply andb_prop in H as [H1 H2].
  apply Nat.leb_le in H1. apply Nat.leb_le in H2.
  destruct (Nat.leb_spec 9 (nat_of_ascii c)), (Nat.leb_spec (nat_of_ascii c) 13),
    (Nat.eqb_spec (nat_of_ascii c) 32), (Nat.eqb_spec (nat_of_ascii c) 160);
    cbn; try reflexivity; lia.
Qed.

Lemma digitsVal_natDigits (f : nat) :
  forall n acc seen,
    (0 <= n < 2 ^ Z.of_nat (S f))%Z ->
    digitsVal 0 seen (natDigits (S f) n acc) = digitsVal n true acc.
Proof.
  induction f as [|f IH]; intros n acc seen Hn.
  - change (2 ^ Z.of_nat 1)%Z with 2%Z in Hn.
    assert (E : (n / 10 = 0)%Z) by (apply Z.div_small; lia).
    cbn [natDigits]. rewrite E. cbn [Z.eqb].
    assert (Hm : (n mod 10 = n)%Z) by (apply Z.mod_small; lia).
    rewrite Hm. destruct (digitChar_spec n ltac:(lia)) as [Hd Hv].
    cbn [digitsVal]. rewrite Hd, Hv. f_equal.
  - assert (Hmod : (0 <= n mod 10 < 10)%Z) by (apply Z.mod_pos_bound; lia).
    destruct (digitChar_spec (n mod 10) Hmod) as [Hd Hv].
    change (natDigits (S (S f)) n acc)
      with (let acc' := String (digitChar (n mod 10)) acc in
            if (n / 10 =? 0)%Z then acc' else natDigits (S f) (n / 10) acc').
    cbv zeta. destruct (Z.eqb_spec (n / 10) 0) as [E | E].
    + cbn [digitsVal]. rewrite Hd, Hv. f_equal.
      pose proof (Z.div_mod n 10 ltac:(lia)). lia.
    + rewrite IH.
      * cbn [digitsVal]. rewrite Hd, Hv. f_equal.
        pose proof (Z.div_mod n 10 ltac:(lia)). lia.
      * split; [apply Z.div_pos; lia|].
        apply Z.div_lt_upper_bound; [lia|].
        rewrite Nat2Z.inj_succ, Z.pow_succ_r in Hn by lia. lia.
Qed.

Lemma natDigits_digits (f : nat) :
  forall n acc,
    (0 <= n)%Z ->
    Normalize.allChars isDigit acc = true ->
    Normalize.allChars isDigit (natDigits f n acc) = true.
Proof.
  induction f as [|f IH]; intros n acc Hn Ha; [exact Ha|].
  assert (Hmod : (0 <= n mod 10 < 10)%Z) by (apply Z.mod_pos_bound; lia).
  destruct (digitChar_spec (n mod 10) Hmod) as [Hd _].
  change (natDigits (S f) n acc)
    with (let acc' := String (digitChar (n mod 10)) acc in
          if (n / 10 =? 0)%Z then acc' else natDigits f (n / 10) acc').
  cbv zeta.
  assert (Ha' : Normalize.allChars isDigit (String (digitChar (n mod 10)) acc) = true).
  { cbn [Normalize.allChars]. rewrite Hd, Ha. reflexivity. }
  destruct (n / 10 =? 0)%Z; [exact Ha'|].
  apply IH; [apply Z.div_pos; lia | exact Ha'].
Qed.

Lemma natDigits_nonempty (f : nat) (n : Z) (acc : string) :
  natDigits (S f) n acc <> EmptyString.
Proof.
  revert n acc. induction f as [|f IH]; intros n acc.
  - cbn [natDigits]. destruct (n / 10 =? 0)%Z; discriminate.
  - change (natDigits (S (S f)) n acc)
      with (let acc' := String (digitChar (n mod 10)) acc in
            if (n / 10 =? 0)%Z then acc' else natDigits (S f) (n / 10) acc').
    cbv zeta. destruct (n / 10 =? 0)%Z; [discriminate | apply IH].
Qed.

Lemma trimEnd_digits (s : string) :
  Normalize.allChars isDigit s = true -> trimEnd s = s.
Proof.
  induction s as [|c s IH]; [reflexivity|].
  cbn [Normalize.allChars]. intros H. apply andb_prop in H as [Hc Hs].
  cbn [trimEnd]. rewrite (IH Hs).
  destruct s; [|reflexivity].
  rewrite (digit_not_white c Hc). reflexivity.
Qed.

Lemma trimStart_digits (s : string) :
  Normalize.allChars isDigit s = true -> trimStart s = s.
Proof.
  destruct s as [|c s]; [reflexivity|].
  cbn [Normalize.allChars]. intros H. apply andb_prop in H as [Hc _].
  cbn [trimStart]. rewrite (digit_not_white c Hc). reflexivity.
Qed.

Lemma parseInt_digits (s : string) :
  Normalize.allChars isDigit s = true -> parseInt s = digitsVal 0 false s.
Proof.
  intros H. unfold parseInt. rewrite (trimStart_digits s H).
  destruct s as [|c s]; [reflexivity|].
  cbn [Normalize.allChars] in H. apply andb_prop in H as [Hc _].
  destruct (Ascii.eqb_spec c "-") as [-> | N1]; [discriminate|].
  destruct (Ascii.eqb_spec c "+") as [-> | N2]; [discriminate|].
  destruct c as [[] [] [] [] [] [] [] []]; try reflexivity; congruence.
Qed.

Lemma toString_digits (n : Z) :
  (0 <= n)%Z ->
  Normalize.allChars isDigit (toString n) = true /\ toString n <> EmptyString.
Proof.
  intros Hn. unfold toString.
  destruct (Z.ltb_spec n 0); [lia|].
  split; [apply natDigits_digits; [exact Hn | reflexivity]
         | apply natDigits_nonempty].
Qed.

(** [parseInt(String(n), 10)] is [n] for an integer that is not negative. *)
Lemma parseInt_toString (n : Z) : (0 <= n)%Z -> parseInt (toString n) = Some n.
Proof.
  intros Hn. destruct (toString_digits n Hn) as [Hd _].
  rewrite (parseInt_digits _ Hd). unfold toString.
  destruct (Z.ltb_spec n 0); [lia|].
  rewrite digitsVal_natDigits; [reflexivity|].
  split; [exact Hn|].
  rewrite Nat2Z.inj_succ, Z2Nat.id by apply Z.log2_nonneg.
  destruct (Z.eq_dec n 0) as [-> | Hz]; [vm_compute; reflexivity|].
  apply Z.log2_spec. lia.
Qed.

Lemma readOffset_written (r : nat) (n : Z) (w : World) :
  (0 <= n)%Z ->
  offsetFile w r = Some (toString n) -> readOffset r w = n.
Proof.
  intros Hn E. unfold readOffset. rewrite E.
  destruct (toString_digits n Hn) as [Hd Hne].
  unfold trim. rewrite (trimStart_digits _ Hd), (trimEnd_digits _ Hd).
  destruct (toString n) eqn:T; [congruence|].
  cbn [truthy]. rewrite <- T, (parseInt_toString n Hn). reflexivity.
Qed.

Lemma bucketFile_unlink_all (victims : list string) :
  forall w, bucketFile (fold_left (fun w v => unlinkSync v w) victims w)
            = bucketFile w.
Proof.
  induction victims as [|v vs IH]; intros w; simpl; [reflexivity|].
  rewrite IH. reflexivity.
Qed.

Lemma bucketFile_pruneDone (env : Env) (w : World) :
  bucketFile (pruneDone env w) = bucketFile w.
Proof.
  unfold pruneDone. destruct (maxDone env) as [m|]; [|reflexivity].
  destruct (m <? _)%Z; [apply bucketFile_unlink_all | reflexivity].
Qed.

Lemma bucketFile_openExclusive (p : string) (w : World) :
  bucketFile (snd (openExclusive p w)) = bucketFile w.
Proof.
  unfold openExclusive. cbv zeta.
  destruct (hd None (openFaults w)) as [e|]; [reflexivity|].
  destruct (existsSync p _); reflexivity.
Qed.

Lemma bucketFile_acquire (n : nat) (sleep : option Z) (p : string) :
  forall w, bucketFile (snd (acquire n sleep p w)) = bucketFile w.
Proof.
  induction n as [|n IH]; intros w; cbn [acquire]; [reflexivity|].
  pose proof (bucketFile_openExclusive p w) as Ho.
  destruct (openExclusive p w) as [[e|] w1]; cbn [snd] in *; [|exact Ho].
  destruct (transient e); [|exact Ho].
  rewrite IH. exact Ho.
Qed.

Lemma bucketFile_tryClaim (env : Env) (url : string) (w : World) :
  bucketFile (snd (tryClaim sha1 env url w)) = bucketFile w.
Proof.
  unfold tryClaim. cbv zeta.
  destruct (existsSync _ w); [reflexivity|].
  pose proof (bucketFile_acquire (tries env) (SLEEP_MS env)
                (sha1 url ++ ".lock") w) as Ha.
  destruct (acquire _ _ _ w) as [[|] w1]; cbn [snd] in *; [|exact Ha].
  unfold writeLock. destruct (hd false (writeFaults w1)); cbn [snd].
  - exact Ha.
  - rewrite bucketFile_pruneDone. exact Ha.
Qed.

Lemma bucketFile_politeDelay (env : Env) (w : World) :
  bucketFile (politeDelay env w) = bucketFile w.
Proof.
  unfold politeDelay. destruct (envInt _ _) as [d|]; [|reflexivity].
  destruct (0 <? d)%Z; reflexivity.
Qed.

Lemma bucketFile_scanLines (env : Env) (acceptFn : string -> bool) (r : nat)
  (pos : Z) (lines : list string) :
  forall advanced w,
    bucketFile (snd (scanLines sha1 env acceptFn r pos advanced lines w))
    = bucketFile w.
Proof.
  induction lines as [|line rest IH]; intros advanced w; cbn [scanLines];
    [reflexivity|].
  cbv zeta.
  destruct (negb (truthy (trim line))); [apply IH|].
  destruct (negb (acceptFn (trim line))); [apply IH|].
  pose proof (bucketFile_tryClaim env (trim line) w) as Ht.
  destruct (tryClaim sha1 env (trim line) w) as [[c|] w1]; cbn [snd] in *.
  - rewrite bucketFile_politeDelay. exact Ht.
  - rewrite IH. exact Ht.
Qed.

Lemma length_stripBomBytes (b : string) :
  String.length (stripBomBytes b) <= String.length b.
Proof.
  unfold stripBomBytes. destruct (startsWith b BOM); [|lia].
  rewrite length_substring. lia.
Qed.

Lemma size_ensureBucket (r : nat) (w : World) :
  match bucketFile (ensureBucket r w) r with
  | Some b => Z.of_nat (String.length b)
  | None => 0%Z
  end
  = match bucketFile w r with
    | Some b => Z.of_nat (String.length b)
    | None => 0%Z
    end.
Proof.
  unfold ensureBucket. destruct (bucketFile w r) eqn:E.
  - rewrite E. reflexivity.
  - cbn [bucketFile]. rewrite Nat.eqb_refl. reflexivity.
Qed.

(** X5. When [claimNextBucket] claims a URL from a cursor that is not
    negative, the cursor it persists lies strictly beyond the old one and
    not beyond the end of the bucket file; read back from the offset file
    it is that position, and the pending bytes of the bucket have
    strictly decreased.  The counter [advanced] of the scan
    is taken to start at 0, see [advanced0]. *)
Theorem claimed_cursor_moves_within_file
  (env : Env) (r : nat) (acceptFn : string -> bool)
  (w w' : World) (url : string) (c : Claim) :
  (0 <= readOffset r w)%Z ->
  claimNextBucket sha1 env r acceptFn w = (Some (url, c), w') ->
  exists newPos,
    offsetFile w' r = Some (toString newPos)
    /\ readOffset r w' = newPos
    /\ (readOffset r w < newPos <= Z.of_nat (String.length (bucketBytes r w)))%Z
    /\ (bucketPendingBytes r w' < bucketPendingBytes r w)%Z.
Proof.
  intros Hpos. unfold claimNextBucket, bucketBytes.
  rewrite readOffset_ensureBucket, bucketFile_ensureBucket.
  set (buf := stripBomBytes _).
  set (len := Z.of_nat (String.length buf)).
  destruct (Z.ltb_spec len (readOffset r w)) as [Hgt | Hle].
  { rewrite Z.leb_refl. discriminate. }
  destruct (Z.leb_spec len (readOffset r w)) as [Hge | Hlt]; [discriminate|].
  intros H.
  pose proof (scanLines_some_cursor sha1 env acceptFn r (readOffset r w)
                (split LF (replaceCRLF (bytesFrom (readOffset r w) buf)))
                advanced0 (ensureBucket r w) url c) as S.
  pose proof (bucketFile_scanLines env acceptFn r (readOffset r w)
                (split LF (replaceCRLF (bytesFrom (readOffset r w) buf)))
                advanced0 (ensureBucket r w)) as Hfile.
  rewrite H in S, Hfile. cbn [fst snd] in S, Hfile.
  destruct (S eq_refl) as (before & line & after & El & Hu & Ht & _ & _ & Ho).
  exists (readOffset r w + (advanced0 + bytesThrough before line after))%Z.
  assert (Hne : line <> EmptyString).
  { apply trim_empty_of_empty. rewrite <- Hu. exact Ht. }
  pose proof (bytesThrough_pos before line after Hne) as Hp.
  pose proof (bytesThrough_le_total before line after) as Hb.
  rewrite <- El, split_totalBytes in Hb.
  pose proof (length_replaceCRLF (bytesFrom (readOffset r w) buf)) as Hr.
  assert (Hs : String.length (bytesFrom (readOffset r w) buf)
               = String.length buf - Z.to_nat (readOffset r w)).
  { unfold bytesFrom. rewrite length_substring. apply Nat.min_id. }
  assert (Hrange :
            (readOffset r w
             < readOffset r w + (advanced0 + bytesThrough before line after)
             <= len)%Z).
  { unfold advanced0. subst len. lia. }
  assert (Hback :
            readOffset r w'
            = (readOffset r w + (advanced0 + bytesThrough before line after))%Z).
  { apply readOffset_written; [lia | exact Ho]. }
  split; [exact Ho|]. split; [exact Hback|]. split; [exact Hrange|].
  unfold bucketPendingBytes. rewrite Hback, Hfile, size_ensureBucket.
  assert (Hsize : (len <= match bucketFile w r with
                          | Some b => Z.of_nat (String.length b)
                          | None => 0
                          end)%Z).
  { subst len buf. destruct (bucketFile w r) as [b|].
    - pose proof (length_stripBomBytes b). lia.
    - cbn. lia. }
  lia.
Qed.

Lemma locks_scan_frame (env : Env) (r : nat) (text : string) (w : World) :
  locks (politeDelay env (writeOffset r text w)) = locks w.
Proof.
  unfold politeDelay. destruct (envInt _ _) as [d|]; [|reflexivity].
  destruct (0 <? d)%Z; reflexivity.
Qed.

Lemma filter_absent (p : string) (l : list string) :
  existsb (String.eqb p) l = false ->
  filter (fun f => negb (String.eqb f p)) l = l.
Proof.
  induction l as [|x l IH]; simpl; [reflexivity|].
  intros H. apply orb_false_elim in H as [Hx Hl].
  rewrite String.eqb_sym, Hx. simpl. rewrite (IH Hl). reflexivity.
Qed.

Lemma filter_push_absent (p : string) (l : list string) :
  existsb (String.eqb p) l = false ->
  filter (fun f => negb (String.eqb f p)) (push l p) = l.
Proof.
  intros H. unfold push. rewrite filter_app. simpl.
  rewrite String.eqb_refl. simpl. rewrite app_nil_r. apply filter_absent, H.
Qed.

(** A refused claim leaves the ledger directory as it was. *)
Lemma tryClaim_refused_keeps_locks (env : Env) (url : string) (w w1 : World) :
  tryClaim sha1 env url w = (None, w1) -> locks w1 = locks w.
Proof.
  unfold tryClaim.
  destruct (existsSync (sha1 url ++ ".done") w).
  { intros E. injection E as <-. reflexivity. }
  pose proof (acquire_opened (tries env) (SLEEP_MS env) (sha1 url ++ ".lock") w) as Ho.
  pose proof (acquire_log (tries env) (SLEEP_MS env) (sha1 url ++ ".lock") w) as _.
  destruct (acquire (tries env) (SLEEP_MS env) (sha1 url ++ ".lock") w)
    as [[|] w2] eqn:Ea.
  - destruct (Ho eq_refl) as [Hl Hk]. cbn [snd] in Hk.
    unfold writeLock. destruct (hd false (writeFaults w2)); [|discriminate].
    intros E. injection E as <-.
    unfold unlinkSync, setLocks. cbn [locks]. rewrite Hk.
    apply filter_push_absent. exact Hl.
  - intros E. injection E as <-.
    destruct (existsSync (sha1 url ++ ".lock") w) eqn:Hl.
    + pose proof (acquire_blocked (tries env) (SLEEP_MS env) _ w Hl) as [_ Hk].
      rewrite Ea in Hk. exact Hk.
    + clear Ho. revert w Ea Hl.
      generalize (tries env) as n.
      induction n as [|n IH]; intros w Ea Hl; simpl in Ea.
      * injection Ea as <-. reflexivity.
      * unfold openExclusive in Ea.
        destruct (hd None (openFaults w)) as [e|].
        -- destruct (transient e).
           ++ apply IH in Ea; [exact Ea | exact Hl].
           ++ injection Ea as <-. reflexivity.
        -- change (existsSync (sha1 url ++ ".lock")
                     (mkWorld (locks w) (bucketFile w) (offsetFile w)
                        (tl (openFaults w)) (writeFaults w) (log w)))
             with (existsSync (sha1 url ++ ".lock") w) in Ea.
           rewrite Hl in Ea. discriminate.
Qed.

Lemma scanLines_grant (env : Env) (acceptFn : string -> bool) (r : nat)
  (pos : Z) (lines : list string) :
  forall advanced w url c,
    fst (scanLines sha1 env acceptFn r pos advanced lines w) = Some (url, c) ->
    exists w1 w2,
      locks w1 = locks w
      /\ tryClaim sha1 env url w1 = (Some c, w2)
      /\ locks (snd (scanLines sha1 env acceptFn r pos advanced lines w))
         = locks w2
      /\ acceptFn url = true /\ truthy url = true.
Proof.
  induction lines as [|line rest IH]; intros advanced w url c;
    cbn [scanLines]; [discriminate|].
  cbv zeta.
  destruct (truthy (trim line)) eqn:Ht; cbn [negb]; [|apply IH].
  destruct (acceptFn (trim line)) eqn:Ha; cbn [negb]; [|apply IH].
  destruct (tryClaim sha1 env (trim line) w) as [[c1|] w1] eqn:Hc.
  - cbn [fst snd]. intros E. injection E as <- <-.
    exists w, w1. rewrite locks_scan_frame.
    repeat split; try assumption; reflexivity.
  - intros H. destruct (IH _ w1 url c H) as (wa & wb & Hk & Hg & Hs & Hacc & Hne).
    exists wa, wb. repeat split; try assumption.
    rewrite Hk. apply (tryClaim_refused_keeps_locks env (trim line) w w1 Hc).
Qed.

Lemma existsSync_same_locks (f : string) (a b : World) :
  locks a = locks b -> existsSync f a = existsSync f b.
Proof. unfold existsSync. intros ->. reflexivity. Qed.

Lemma locks_ensureBucket (r : nat) (w : World) : locks (ensureBucket r w) = locks w.
Proof. unfold ensureBucket. destruct (bucketFile w r); reflexivity. Qed.

(** X6. A URL that [claimNextBucket] returns is not empty and passes
    [acceptFn]; it had neither a completion marker nor a lock when the
    call started, and its lock file exists when the call returns.  The
    counter [advanced] of the scan is taken to start at 0, see
    [advanced0]. *)
Theorem claimed_url_is_accepted_and_locked
  (env : Env) (r : nat) (acceptFn : string -> bool)
  (w w' : World) (url : string) (c : Claim) :
  claimNextBucket sha1 env r acceptFn w = (Some (url, c), w') ->
  url <> EmptyString /\ acceptFn url = true
  /\ c = mkClaim (sha1 url ++ ".lock") (sha1 url ++ ".done")
  /\ existsSync (sha1 url ++ ".done") w = false
  /\ existsSync (sha1 url ++ ".lock") w = false
  /\ existsSync (sha1 url ++ ".lock") w' = true.
Proof.
  unfold claimNextBucket.
  set (w0 := ensureBucket r w).
  set (pos0 := readOffset r w0).
  set (buf := stripBomBytes _).
  set (len := Z.of_nat (String.length buf)).
  destruct (len <? pos0)%Z.
  - rewrite Z.leb_refl. discriminate.
  - destruct (len <=? pos0)%Z; [discriminate|].
    intros H.
    pose proof (scanLines_grant env acceptFn r pos0
                  (split LF (replaceCRLF (bytesFrom pos0 buf)))
                  advanced0 w0 url c) as G.
    rewrite H in G. cbn [fst snd] in G.
    destruct (G eq_refl) as (w1 & w2 & Hk & Hg & Hs & Hacc & Hne).
    destruct (tryClaim_grant sha1 env url w1 w2 c Hg)
      as (Hc & Hd & Hl & Hl' & _).
    subst c. cbn [lockPath donePath] in *.
    assert (Hw : locks w1 = locks w).
    { rewrite Hk. apply locks_ensureBucket. }
    repeat split.
    + intros ->. discriminate.
    + exact Hacc.
    + rewrite <- (existsSync_same_locks _ w1 w Hw). exact Hd.
    + rewrite <- (existsSync_same_locks _ w1 w Hw). exact Hl.
    + rewrite (existsSync_same_locks _ w' w2 Hs). exact Hl'.
Qed.

End CursorFacts.

Section CursorWitnesses.
Import Js Frontier.

Lemma claimed_cursor_witness :
  (0 <= readOffset 0 blogThenDocs)%Z
  /\ exists newPos,
       offsetFile (snd (claimNextBucket plainId defaultEnv 0 underDocs
                          blogThenDocs)) 0 = Some (toString newPos)
       /\ readOffset 0 (snd (claimNextBucket plainId defaultEnv 0 underDocs
                               blogThenDocs)) = newPos
       /\ (readOffset 0 blogThenDocs < newPos
           <= Z.of_nat (String.length (bucketBytes 0 blogThenDocs)))%Z
       /\ (bucketPendingBytes 0 (snd (claimNextBucket plainId defaultEnv 0
                                        underDocs blogThenDocs))
           < bucketPendingBytes 0 blogThenDocs)%Z.
Proof.
  assert (H : (0 <= readOffset 0 blogThenDocs)%Z) by (vm_compute; discriminate).
  split; [exact H|].
  apply (claimed_cursor_moves_within_file plainId defaultEnv 0 underDocs
           blogThenDocs _ "https://example.com/docs/a"
           (mkClaim "https://example.com/docs/a.lock"
                    "https://example.com/docs/a.done") H).
  vm_compute. reflexivity.
Defined.

Lemma claimed_url_witness :
  claimNextBucket plainId defaultEnv 0 underDocs blogThenDocs
  = (Some ("https://example.com/docs/a",
           mkClaim "https://example.com/docs/a.lock"
                   "https://example.com/docs/a.done"),
     snd (claimNextBucket plainId defaultEnv 0 underDocs blogThenDocs))
  /\ underDocs "https://example.com/docs/a" = true.
Proof.
  assert (H : claimNextBucket plainId defaultEnv 0 underDocs blogThenDocs
              = (Some ("https://example.com/docs/a",
                       mkClaim "https://example.com/docs/a.lock"
                               "https://example.com/docs/a.done"),
                 snd (claimNextBucket plainId defaultEnv 0 underDocs
                        blogThenDocs)))
    by (vm_compute; reflexivity).
  split; [exact H|].
  exact (proj1 (proj2 (claimed_url_is_accepted_and_locked plainId defaultEnv 0
                         underDocs blogThenDocs _ _ _ H))).
Defined.

End CursorWitnesses.
(* ---------------------------------------------------------------------- *)
(** ** Filling the buckets                                                 *)
(* ---------------------------------------------------------------------- *)

Section BucketsFacts.
Import Js Frontier Buckets.

Variable hashUrl : string -> N.

Lemma lookupB_key (r : nat) (m : list (nat * list string)) (e : nat * list string) :
  lookupB r m = Some e -> fst e = r.
Proof.
  unfold lookupB. intros H. apply find_some in H as [_ H].
  apply Nat.eqb_eq, H.
Qed.

Lemma lookupB_none (r : nat) (m : list (nat * list string)) :
  ~ In r (map fst m) -> lookupB r m = None.
Proof.
  unfold lookupB. induction m as [|[r' l] m IH]; simpl; [reflexivity|].
  intros H. destruct (Nat.eqb_spec r' r) as [-> | Hne]; [tauto|].
  apply IH. tauto.
Qed.

Lemma lookupB_some_in (r : nat) (m : list (nat * list string)) e :
  lookupB r m = Some e -> In r (map fst m).
Proof.
  intros H. pose proof (lookupB_key r m e H) as <-.
  unfold lookupB in H. apply find_some in H as [H _].
  apply in_map, H.
Qed.

Lemma lookupB_addTo_same (r : nat) (raw : string) (m : list (nat * list string)) :
  lookupB r (addTo r raw m)
  = Some (r, push (match lookupB r m with Some e => snd e | None => [] end) raw).
Proof.
  unfold lookupB. induction m as [|[r' l] m IH]; simpl.
  - rewrite Nat.eqb_refl. reflexivity.
  - destruct (Nat.eqb_spec r' r) as [-> | Hne]; simpl.
    + rewrite Nat.eqb_refl. reflexivity.
    + destruct (Nat.eqb_spec r' r); [contradiction | exact IH].
Qed.

Lemma lookupB_addTo_other (r r' : nat) (raw : string)
  (m : list (nat * list string)) :
  r' <> r -> lookupB r' (addTo r raw m) = lookupB r' m.
Proof.
  intros Hne. unfold lookupB. induction m as [|[r0 l] m IH]; simpl.
  - destruct (Nat.eqb_spec r r'); [congruence | reflexivity].
  - destruct (Nat.eqb_spec r0 r) as [-> | H0]; simpl.
    + destruct (Nat.eqb_spec r r'); [congruence | reflexivity].
    + destruct (r0 =? r'); [reflexivity | exact IH].
Qed.

Lemma keys_addTo (r : nat) (raw : string) (m : list (nat * list string)) :
  forall x, In x (map fst (addTo r raw m)) <-> x = r \/ In x (map fst m).
Proof.
  induction m as [|[r0 l] m IH]; intros x; simpl.
  - intuition.
  - destruct (Nat.eqb_spec r0 r) as [-> | H0]; simpl.
    + intuition.
    + rewrite IH. intuition.
Qed.

Lemma NoDup_addTo (r : nat) (raw : string) (m : list (nat * list string)) :
  NoDup (map fst m) -> NoDup (map fst (addTo r raw m)).
Proof.
  induction m as [|[r0 l] m IH]; simpl; intros H.
  - constructor; [intros [] | constructor].
  - inversion H as [|? ? Hn Hd]; subst.
    destruct (Nat.eqb_spec r0 r) as [-> | H0]; simpl.
    + constructor; assumption.
    + constructor; [|apply IH, Hd].
      rewrite keys_addTo. intros [-> | Hin]; [congruence | contradiction].
Qed.

Lemma batchFor_snoc (parts : Z) (r : nat) (pre : list string) (raw : string) :
  batchFor hashUrl parts r (pre ++ [raw])
  = (batchFor hashUrl parts r pre
     ++ if truthy raw && (bucketOf hashUrl parts raw =? r) then [raw] else [])%list.
Proof. unfold batchFor. rewrite filter_app. reflexivity. Qed.

Lemma grouped_step (parts : Z) (pre : list string) (raw : string)
  (m : list (nat * list string)) :
  grouped hashUrl parts pre m ->
  grouped hashUrl parts (pre ++ [raw])
    (if truthy raw then addTo (bucketOf hashUrl parts raw) raw m else m).
Proof.
  intros [Hnd Hg]. destruct (truthy raw) eqn:Ht.
  - split; [apply NoDup_addTo, Hnd|].
    intros r. rewrite batchFor_snoc, Ht. cbn [andb].
    destruct (Nat.eqb_spec (bucketOf hashUrl parts raw) r) as [<- | Hne].
    + rewrite lookupB_addTo_same. cbn [snd]. specialize (Hg (bucketOf hashUrl parts raw)).
      destruct (lookupB (bucketOf hashUrl parts raw) m) as [e|].
      * destruct Hg as [-> _]. split; [reflexivity|].
        unfold push. intros E. apply app_eq_nil in E as [_ E]. discriminate.
      * rewrite Hg. split; [reflexivity | discriminate].
    + rewrite lookupB_addTo_other by congruence.
      rewrite app_nil_r. apply Hg.
  - split; [exact Hnd|].
    intros r. rewrite batchFor_snoc, Ht. cbn [andb]. rewrite app_nil_r. apply Hg.
Qed.

Lemma grouped_fold (parts : Z) (urls : list string) :
  forall pre m,
    grouped hashUrl parts pre m ->
    grouped hashUrl parts (pre ++ urls)
      (fold_left
         (fun m raw =>
            if truthy raw then addTo (bucketOf hashUrl parts raw) raw m else m)
         urls m).
Proof.
  induction urls as [|raw urls IH]; intros pre m H; simpl.
  - rewrite app_nil_r. exact H.
  - replace (pre ++ raw :: urls)%list with ((pre ++ [raw]) ++ urls)%list
      by (rewrite <- app_assoc; reflexivity).
    apply IH, grouped_step, H.
Qed.

Lemma perBucket_grouped (parts : Z) (urls : list string) :
  grouped hashUrl parts urls (perBucket hashUrl parts urls).
Proof.
  apply (grouped_fold parts urls [] []).
  split; [constructor | intros r; reflexivity].
Qed.

Lemma appendOne_bucket (maxEnv : option string) (w : World)
  (rot : list (nat * string)) (r0 : nat) (l0 : list string) (r : nat) :
  bucketFile (fst (appendOne maxEnv (w, rot) (r0, l0))) r
  = if r =? r0
    then Some (baseOf maxEnv (bucketFile w r0)
               ++ join "" (map (fun u => u ++ NL) l0))
    else bucketFile w r.
Proof.
  unfold appendOne, baseOf.
  destruct (rotationDue maxEnv (bucketFile w r0)); cbn [fst bucketFile setBucket].
  - rewrite Nat.eqb_refl. destruct (r =? r0); reflexivity.
  - destruct (r =? r0); reflexivity.
Qed.

Lemma appendOne_frame (maxEnv : option string) (acc : World * list (nat * string))
  (e : nat * list string) :
  locks (fst (appendOne maxEnv acc e)) = locks (fst acc)
  /\ offsetFile (fst (appendOne maxEnv acc e)) = offsetFile (fst acc).
Proof.
  destruct acc as [w rot], e as [r l]. unfold appendOne.
  destruct (rotationDue maxEnv (bucketFile w r)); split; reflexivity.
Qed.

Lemma appendAll_bucket (maxEnv : option string) (m : list (nat * list string)) :
  forall acc r,
    NoDup (map fst m) ->
    bucketFile (fst (fold_left (appendOne maxEnv) m acc)) r
    = match lookupB r m with
      | Some e => Some (baseOf maxEnv (bucketFile (fst acc) r)
                        ++ join "" (map (fun u => u ++ NL) (snd e)))
      | None => bucketFile (fst acc) r
      end.
Proof.
  induction m as [|[r0 l0] m IH]; intros [w rot] r Hnd; [reflexivity|].
  cbn [fold_left].
  cbn [map fst] in Hnd. inversion Hnd as [|? ? Hn Hd]; subst.
  rewrite (IH _ r Hd).
  pose proof (appendOne_bucket maxEnv w rot r0 l0) as Hb.
  rewrite (Hb r).
  unfold lookupB. cbn [find fst].
  destruct (Nat.eqb_spec r0 r) as [-> | Hne].
  - fold (lookupB r m). rewrite (lookupB_none r m Hn), Nat.eqb_refl.
    reflexivity.
  - fold (lookupB r m).
    destruct (Nat.eqb_spec r r0); [congruence | reflexivity].
Qed.

Lemma appendAll_frame (maxEnv : option string) (m : list (nat * list string)) :
  forall acc,
    locks (fst (fold_left (appendOne maxEnv) m acc)) = locks (fst acc)
    /\ offsetFile (fst (fold_left (appendOne maxEnv) m acc)) = offsetFile (fst acc).
Proof.
  induction m as [|e m IH]; intros acc; simpl; [auto|].
  destruct (IH (appendOne maxEnv acc e)) as [H1 H2].
  destruct (appendOne_frame maxEnv acc e) as [H3 H4].
  split; congruence.
Qed.

Lemma appendToBuckets_bucket (maxEnv : option string) (urls : list string)
  (parts : Z) (w : World) (r : nat) :
  bucketFile (fst (appendToBuckets hashUrl maxEnv urls parts w)) r
  = match batchFor hashUrl parts r urls with
    | [] => bucketFile w r
    | mine => Some (baseOf maxEnv (bucketFile w r) ++ linesText mine)
    end.
Proof.
  unfold appendToBuckets.
  destruct urls as [|u urls]; [reflexivity|].
  cbn [List.length Nat.eqb].
  destruct (perBucket_grouped parts (u :: urls)) as [Hnd Hg].
  rewrite (appendAll_bucket maxEnv _ (w, []) r Hnd). cbn [fst].
  specialize (Hg r).
  destruct (lookupB r (perBucket hashUrl parts (u :: urls))) as [e|].
  - destruct Hg as [He Hne]. rewrite He, join_lines.
    destruct (batchFor hashUrl parts r (u :: urls)); [congruence | reflexivity].
  - rewrite Hg. reflexivity.
Qed.

Lemma appendToBuckets_effect (maxEnv : option string)
  (urls : list string) (parts : Z) (w : World) :
  (forall r,
      bucketFile (fst (appendToBuckets hashUrl maxEnv urls parts w)) r
      = match batchFor hashUrl parts r urls with
        | [] => bucketFile w r
        | mine => Some (baseOf maxEnv (bucketFile w r) ++ linesText mine)
        end)
  /\ offsetFile (fst (appendToBuckets hashUrl maxEnv urls parts w))
     = offsetFile w
  /\ locks (fst (appendToBuckets hashUrl maxEnv urls parts w)) = locks w.
Proof.
  split.
  - intros r. apply appendToBuckets_bucket.
  - unfold appendToBuckets. destruct (_ =? 0); [auto|].
    destruct (appendAll_frame maxEnv (perBucket hashUrl parts urls) (w, []))
      as [H1 H2].
    auto.
Qed.

(** X7. [appendToBuckets] puts every non-empty URL of the batch into the
    bucket [hashUrl(url) % parts] and into no other: the file of a bucket
    that gets no URL is left alone, and the file of every other bucket is
    its old content (none when the file was missing, or oversized and
    rotated away) followed by its URLs, one per line, in batch order.
    Cursors and the claim ledger are not touched. *)
Theorem appendToBuckets_by_bucket (maxEnv : option string)
  (urls : list string) (parts : Z) (w : World) :
  let w' := fst (appendToBuckets hashUrl maxEnv urls parts w) in
  (forall r,
      bucketFile w' r
      = match batchFor hashUrl parts r urls with
        | [] => bucketFile w r
        | mine =>
            Some ((if rotationDue maxEnv (bucketFile w r) then EmptyString
                   else match bucketFile w r with
                        | Some b => b
                        | None => EmptyString
                        end)
                  ++ linesText mine)
        end)
  /\ offsetFile w' = offsetFile w
  /\ locks w' = locks w.
Proof.
  cbv zeta. exact (appendToBuckets_effect maxEnv urls parts w).
Qed.

End BucketsFacts.
(* ---------------------------------------------------------------------- *)
(** ** Rotation, stealing, and the way from an append to a claim           *)
(* ---------------------------------------------------------------------- *)

Section StealFacts.
Import Js Frontier Buckets.

Variable hashUrl : string -> N.
Variable sha1 : string -> string.

Lemma scanLines_none_locks (env : Env) (acceptFn : string -> bool) (r : nat)
  (pos : Z) (lines : list string) :
  forall advanced w,
    fst (scanLines sha1 env acceptFn r pos advanced lines w) = None ->
    locks (snd (scanLines sha1 env acceptFn r pos advanced lines w)) = locks w.
Proof.
  induction lines as [|line rest IH]; intros advanced w; cbn [scanLines];
    [reflexivity|].
  cbv zeta.
  destruct (negb (truthy (trim line))); [apply IH|].
  destruct (negb (acceptFn (trim line))); [apply IH|].
  destruct (tryClaim sha1 env (trim line) w) as [[c|] w1] eqn:Hc;
    [discriminate|].
  intros H. rewrite (IH _ w1 H).
  apply (tryClaim_refused_keeps_locks sha1 env (trim line) w w1 Hc).
Qed.

Lemma claimNextBucket_none_locks (env : Env) (r : nat)
  (acceptFn : string -> bool) (w : World) :
  fst (claimNextBucket sha1 env r acceptFn w) = None ->
  locks (snd (claimNextBucket sha1 env r acceptFn w)) = locks w.
Proof.
  unfold claimNextBucket. cbv zeta.
  set (w0 := ensureBucket r w).
  set (buf := stripBomBytes _).
  set (len := Z.of_nat (String.length buf)).
  assert (H0 : locks w0 = locks w) by apply locks_ensureBucket.
  destruct (len <? readOffset r w0)%Z.
  - rewrite Z.leb_refl. intros _. exact H0.
  - destruct (len <=? readOffset r w0)%Z; [intros _; exact H0|].
    intros H. rewrite (scanLines_none_locks _ _ _ _ _ _ _ H). exact H0.
Qed.

Lemma claimNextBucket_grant (env : Env) (r : nat) (acceptFn : string -> bool)
  (w : World) (url : string) (c : Claim) :
  fst (claimNextBucket sha1 env r acceptFn w) = Some (url, c) ->
  url <> EmptyString /\ acceptFn url = true
  /\ c = mkClaim (sha1 url ++ ".lock") (sha1 url ++ ".done")
  /\ existsSync (sha1 url ++ ".done") w = false
  /\ existsSync (sha1 url ++ ".lock") w = false
  /\ existsSync (sha1 url ++ ".lock")
       (snd (claimNextBucket sha1 env r acceptFn w)) = true.
Proof.
  unfold claimNextBucket. cbv zeta.
  set (w0 := ensureBucket r w).
  set (pos0 := readOffset r w0).
  set (buf := stripBomBytes _).
  set (len := Z.of_nat (String.length buf)).
  destruct (len <? pos0)%Z.
  - rewrite Z.leb_refl. discriminate.
  - destruct (len <=? pos0)%Z; [discriminate|].
    intros H.
    destruct (scanLines_grant sha1 env acceptFn r pos0 _ advanced0 w0 url c H)
      as (w1 & w2 & Hk & Hg & Hs & Hacc & Hne).
    destruct (tryClaim_grant sha1 env url w1 w2 c Hg)
      as (Hc & Hd & Hl & Hl' & _).
    subst c. cbn [lockPath donePath] in *.
    assert (Hw : locks w1 = locks w).
    { rewrite Hk. apply locks_ensureBucket. }
    repeat split.
    + intros ->. discriminate.
    + exact Hacc.
    + rewrite <- (existsSync_same_locks _ w1 w Hw). exact Hd.
    + rewrite <- (existsSync_same_locks _ w1 w Hw). exact Hl.
    + rewrite (existsSync_same_locks _ _ w2 Hs). exact Hl'.
Qed.

Lemma tryDonors_outcome (env : Env) (acceptFn : string -> bool)
  (ds : list (nat * Z)) :
  forall w,
    match fst (tryDonors sha1 env acceptFn ds w) with
    | Some (url, c) =>
        url <> EmptyString /\ acceptFn url = true
        /\ c = mkClaim (sha1 url ++ ".lock") (sha1 url ++ ".done")
        /\ existsSync (sha1 url ++ ".done") w = false
        /\ existsSync (sha1 url ++ ".lock") w = false
        /\ existsSync (sha1 url ++ ".lock")
             (snd (tryDonors sha1 env acceptFn ds w)) = true
    | None => locks (snd (tryDonors sha1 env acceptFn ds w)) = locks w
    end.
Proof.
  induction ds as [|[r p] ds IH]; intros w; cbn [tryDonors]; [reflexivity|].
  pose proof (claimNextBucket_grant env r acceptFn w) as G.
  pose proof (claimNextBucket_none_locks env r acceptFn w) as N.
  destruct (claimNextBucket sha1 env r acceptFn w) as [[[url c]|] w1];
    cbn [fst snd] in *.
  - apply G. reflexivity.
  - specialize (N eq_refl). specialize (IH w1).
    destruct (fst (tryDonors sha1 env acceptFn ds w1)) as [[url c]|].
    + rewrite <- !(existsSync_same_locks _ w1 w N). exact IH.
    + rewrite IH. exact N.
Qed.

(** X8. A URL that [claimNextAnyBucket] returns, from the home bucket or
    stolen from a donor, is not empty and passes [acceptFn]; it had
    neither a completion marker nor a lock when the call started and its
    lock file exists when the call returns.  A call that returns nothing
    leaves the claim ledger as it found it.  The counter [advanced] of the scan
    is taken to start at 0, see [advanced0]. *)
Theorem claimNextAnyBucket_outcome
  (env : Env) (startR parts : nat) (acceptFn : string -> bool)
  (w w' : World) (res : option (string * Claim)) :
  claimNextAnyBucket sha1 env startR parts acceptFn w = (res, w') ->
  match res with
  | Some (url, c) =>
      url <> EmptyString /\ acceptFn url = true
      /\ c = mkClaim (sha1 url ++ ".lock") (sha1 url ++ ".done")
      /\ existsSync (sha1 url ++ ".done") w = false
      /\ existsSync (sha1 url ++ ".lock") w = false
      /\ existsSync (sha1 url ++ ".lock") w' = true
  | None => locks w' = locks w
  end.
Proof.
  unfold claimNextAnyBucket.
  pose proof (claimNextBucket_grant env startR acceptFn w) as G.
  pose proof (claimNextBucket_none_locks env startR acceptFn w) as N.
  destruct (claimNextBucket sha1 env startR acceptFn w) as [[[url c]|] w1];
    cbn [fst snd] in *.
  - intros E. injection E as <- <-. apply G. reflexivity.
  - specialize (N eq_refl).
    pose proof (tryDonors_outcome env acceptFn (donors startR parts w1) w1) as D.
    intros E. rewrite E in D. cbn [fst snd] in D.
    destruct res as [[url c]|].
    + rewrite <- !(existsSync_same_locks _ w1 w N). exact D.
    + rewrite D. exact N.
Qed.

Lemma In_insertByPending (x a : nat * Z) (l : list (nat * Z)) :
  In x (insertByPending a l) <-> x = a \/ In x l.
Proof.
  induction l as [|y ys IH]; simpl; [intuition|].
  destruct (snd a <? snd y)%Z; simpl; [rewrite IH|]; intuition.
Qed.

Lemma In_sortByPending (x : nat * Z) (l : list (nat * Z)) :
  In x (sortByPending l) <-> In x l.
Proof.
  induction l as [|a l IH]; simpl; [tauto|].
  rewrite In_insertByPending, IH. intuition.
Qed.

Lemma desc_insertByPending (a : nat * Z) (l : list (nat * Z)) :
  descPending l -> descPending (insertByPending a l).
Proof.
  induction l as [|y ys IH]; simpl; [intros _; split; [constructor | exact I]|].
  intros [Hall Hd].
  destruct (Z.ltb_spec (snd a) (snd y)).
  - cbn [descPending]. split; [|apply IH, Hd].
    apply Forall_forall. intros z Hz. apply (proj1 (In_insertByPending _ _ _)) in Hz as [-> | Hz].
    + lia.
    + rewrite Forall_forall in Hall. apply Hall, Hz.
  - cbn [descPending]. split; [|split; assumption].
    constructor; [lia|].
    rewrite Forall_forall in *. intros z Hz. specialize (Hall z Hz). lia.
Qed.

Lemma desc_sortByPending (l : list (nat * Z)) : descPending (sortByPending l).
Proof.
  induction l as [|a l IH]; simpl; [exact I|].
  apply desc_insertByPending, IH.
Qed.

Lemma keys_insertByPending (a : nat * Z) (l : list (nat * Z)) (k : nat) :
  In k (map fst (insertByPending a l)) <-> k = fst a \/ In k (map fst l).
Proof.
  induction l as [|y ys IH]; simpl; [intuition|].
  destruct (snd a <? snd y)%Z; simpl; [rewrite IH|]; intuition.
Qed.

Lemma NoDup_insertByPending (a : nat * Z) (l : list (nat * Z)) :
  ~ In (fst a) (map fst l) -> NoDup (map fst l) ->
  NoDup (map fst (insertByPending a l)).
Proof.
  induction l as [|y ys IH]; simpl; intros Hn Hd.
  - constructor; [intros [] | constructor].
  - inversion Hd as [|? ? Hy Hd']; subst.
    destruct (snd a <? snd y)%Z; simpl.
    + constructor; [|apply IH; tauto].
      rewrite keys_insertByPending. intros [E | Hin]; [|contradiction].
      apply Hn. left. exact E.
    + constructor; [exact Hn | exact Hd].
Qed.

Lemma NoDup_sortByPending (l : list (nat * Z)) :
  NoDup (map fst l) -> NoDup (map fst (sortByPending l)).
Proof.
  induction l as [|a l IH]; simpl; intros Hd; [constructor|].
  inversion Hd as [|? ? Ha Hd']; subst.
  apply NoDup_insertByPending; [|apply IH, Hd'].
  intros Hin. apply Ha.
  apply in_map_iff in Hin as (x & Ex & Hx).
  apply (proj1 (In_sortByPending _ _)) in Hx. rewrite <- Ex. apply in_map, Hx.
Qed.

Lemma NoDup_keys_filter (p : nat * Z -> bool) (l : list (nat * Z)) :
  NoDup (map fst l) -> NoDup (map fst (filter p l)).
Proof.
  induction l as [|a l IH]; simpl; intros Hd; [constructor|].
  inversion Hd as [|? ? Ha Hd']; subst.
  destruct (p a); simpl; [|apply IH, Hd'].
  constructor; [|apply IH, Hd'].
  intros Hin. apply Ha.
  apply in_map_iff in Hin as (x & Ex & Hx).
  apply filter_In in Hx as [Hx _]. rewrite <- Ex. apply in_map, Hx.
Qed.

Lemma keys_allBucketPending (parts : nat) (w : World) :
  map fst (allBucketPending parts w) = seq 0 parts.
Proof.
  unfold allBucketPending. rewrite map_map. cbn [fst]. apply map_id.
Qed.

(** X9. The buckets from which [claimNextAnyBucket] tries to steal are
    exactly the buckets below [parts] other than the home bucket that have
    pending bytes, each once, in the order of descending pending bytes. *)
Theorem donors_by_descending_pending (startR parts : nat) (w : World) :
  (forall r p,
      In (r, p) (donors startR parts w)
      <-> r < parts /\ r <> startR
          /\ p = bucketPendingBytes r w /\ (0 < p)%Z)
  /\ NoDup (map fst (donors startR parts w))
  /\ descPending (donors startR parts w).
Proof.
  unfold donors. split; [|split].
  - intros r p. rewrite In_sortByPending, filter_In. cbn [fst snd].
    unfold allBucketPending. rewrite in_map_iff. split.
    + intros [(r0 & E & Hin) Hb]. injection E as -> ->.
      apply in_seq in Hin. apply andb_prop in Hb as [Hn Hp].
      apply negb_true_iff, Nat.eqb_neq in Hn. apply Z.ltb_lt in Hp.
      repeat split; try assumption. lia.
    + intros (Hr & Hn & -> & Hp). split.
      * exists r. split; [reflexivity | apply in_seq; lia].
      * apply andb_true_intro. split.
        -- apply negb_true_iff, Nat.eqb_neq, Hn.
        -- apply Z.ltb_lt, Hp.
  - apply NoDup_sortByPending, NoDup_keys_filter.
    rewrite keys_allBucketPending. apply seq_NoDup.
  - apply desc_sortByPending.
Qed.

Lemma ensureBucket_present (r : nat) (w : World) (b : string) :
  bucketFile w r = Some b -> ensureBucket r w = w.
Proof. unfold ensureBucket. intros ->. reflexivity. Qed.

Lemma readOffset_same (r : nat) (a b : World) :
  offsetFile a = offsetFile b -> readOffset r a = readOffset r b.
Proof. unfold readOffset. intros ->. reflexivity. Qed.

(** A call at or past the end of the bucket: nothing is scanned, and the
    cursor is brought back to the end. *)
Lemma claimNextBucket_at_end (env : Env) (r : nat) (acceptFn : string -> bool)
  (w : World) (b : string) :
  bucketFile w r = Some b ->
  (Z.of_nat (String.length (stripBomBytes b)) <= readOffset r w)%Z ->
  fst (claimNextBucket sha1 env r acceptFn w) = None
  /\ locks (snd (claimNextBucket sha1 env r acceptFn w)) = locks w
  /\ bucketFile (snd (claimNextBucket sha1 env r acceptFn w)) = bucketFile w
  /\ readOffset r (snd (claimNextBucket sha1 env r acceptFn w))
     = Z.of_nat (String.length (stripBomBytes b)).
Proof.
  intros Hb Hpos. unfold claimNextBucket. cbv zeta.
  rewrite (ensureBucket_present r w b Hb), Hb.
  destruct (Z.ltb_spec (Z.of_nat (String.length (stripBomBytes b)))
              (readOffset r w)) as [Hlt | Hge].
  - rewrite Z.leb_refl. cbn [fst snd].
    repeat split.
    apply readOffset_written; [lia | apply offsetFile_writeOffset].
  - destruct (Z.leb_spec (Z.of_nat (String.length (stripBomBytes b)))
                (readOffset r w)) as [_ | Hlt]; [|lia].
    cbn [fst snd]. repeat split. lia.
Qed.

(** X10. When [appendToBuckets] rotates an oversized bucket file away and
    starts a new one, a worker whose cursor is at or beyond the length of
    the new file gets nothing from the bucket: [claimNextBucket] returns
    null, moves the cursor to the end of the new file (the length of its
    text, a byte-order mark not counted), and returns null again on the
    next call, so the URLs just appended are never offered. *)
Theorem rotation_strands_appended_urls
  (maxEnv : option string) (env : Env) (urls : list string) (parts : Z)
  (r : nat) (acceptFn : string -> bool) (w : World) :
  rotationDue maxEnv (bucketFile w r) = true ->
  batchFor hashUrl parts r urls <> [] ->
  (Z.of_nat (String.length (linesText (batchFor hashUrl parts r urls)))
   <= readOffset r w)%Z ->
  let w1 := fst (appendToBuckets hashUrl maxEnv urls parts w) in
  let w2 := snd (claimNextBucket sha1 env r acceptFn w1) in
  bucketFile w1 r = Some (linesText (batchFor hashUrl parts r urls))
  /\ fst (claimNextBucket sha1 env r acceptFn w1) = None
  /\ fst (claimNextBucket sha1 env r acceptFn w2) = None
  /\ bucketFile w2 r = Some (linesText (batchFor hashUrl parts r urls))
  /\ locks w2 = locks w
  /\ readOffset r w2
     = Z.of_nat (String.length
                   (stripBomBytes (linesText (batchFor hashUrl parts r urls)))).
Proof.
  intros Hrot Hne Hpos. cbv zeta.
  destruct (appendToBuckets_effect hashUrl maxEnv urls parts w)
    as (Hfile & Hoff & Hlocks).
  set (w1 := fst (appendToBuckets hashUrl maxEnv urls parts w)) in *.
  assert (Hb : bucketFile w1 r
               = Some (linesText (batchFor hashUrl parts r urls))).
  { rewrite (Hfile r). unfold baseOf. rewrite Hrot.
    destruct (batchFor hashUrl parts r urls); [congruence | reflexivity]. }
  set (text := linesText (batchFor hashUrl parts r urls)) in *.
  assert (Hp1 : (Z.of_nat (String.length (stripBomBytes text))
                 <= readOffset r w1)%Z).
  { rewrite (readOffset_same r w1 w Hoff).
    pose proof (length_stripBomBytes text). lia. }
  destruct (claimNextBucket_at_end env r acceptFn w1 text Hb Hp1)
    as (Hn1 & Hl1 & Hf1 & Hr1).
  set (w2 := snd (claimNextBucket sha1 env r acceptFn w1)) in *.
  assert (Hb2 : bucketFile w2 r = Some text) by (rewrite Hf1; exact Hb).
  assert (Hp2 : (Z.of_nat (String.length (stripBomBytes text))
                 <= readOffset r w2)%Z) by lia.
  destruct (claimNextBucket_at_end env r acceptFn w2 text Hb2 Hp2)
    as (Hn2 & _).
  split; [exact Hb|]. split; [exact Hn1|]. split; [exact Hn2|].
  split; [exact Hb2|]. split; [congruence|]. exact Hr1.
Qed.

Lemma substring_app_tail (a b : string) :
  substring (String.length a) (String.length (a ++ b) - String.length a) (a ++ b)
  = b.
Proof.
  induction a as [|c a IH]; simpl.
  - rewrite Nat.sub_0_r. induction b as [|c b IHb]; [reflexivity|].
    simpl. rewrite IHb. reflexivity.
  - exact IH.
Qed.

Lemma replaceCRLF_line (u t : string) :
  Spec.noBreak u = true ->
  replaceCRLF (u ++ String LF t) = u ++ String LF (replaceCRLF t).
Proof.
  induction u as [|c u IH]; intros H.
  - change (EmptyString ++ String LF t) with (String LF t).
    destruct t as [|c' t']; reflexivity.
  - cbn [Spec.noBreak] in H. apply andb_prop in H as [H Hu].
    apply andb_prop in H as [_ Hcr]. apply negb_true_iff in Hcr.
    change (String c u ++ String LF t) with (String c (u ++ String LF t)).
    change (String c u ++ String LF (replaceCRLF t))
      with (String c (u ++ String LF (replaceCRLF t))).
    rewrite <- (IH Hu).
    destruct u as [|c' u']; cbn [append replaceCRLF]; rewrite Hcr; reflexivity.
Qed.

Lemma split_line (u t : string) :
  Spec.noBreak u = true -> split LF (u ++ String LF t) = u :: split LF t.
Proof.
  induction u as [|c u IH]; intros H.
  - cbn [append split]. rewrite Ascii.eqb_refl. reflexivity.
  - cbn [Spec.noBreak] in H. apply andb_prop in H as [H Hu].
    apply andb_prop in H as [Hlf _]. apply negb_true_iff in Hlf.
    cbn [append split]. rewrite Hlf, (IH Hu). reflexivity.
Qed.

Lemma appendOne_faults (maxEnv : option string)
  (acc : World * list (nat * string)) (e : nat * list string) :
  openFaults (fst (appendOne maxEnv acc e)) = openFaults (fst acc)
  /\ writeFaults (fst (appendOne maxEnv acc e)) = writeFaults (fst acc).
Proof.
  destruct acc as [w rot], e as [r l]. unfold appendOne.
  destruct (rotationDue maxEnv (bucketFile w r)); split; reflexivity.
Qed.

Lemma appendToBuckets_faults (maxEnv : option string) (urls : list string)
  (parts : Z) (w : World) :
  openFaults (fst (appendToBuckets hashUrl maxEnv urls parts w)) = openFaults w
  /\ writeFaults (fst (appendToBuckets hashUrl maxEnv urls parts w))
     = writeFaults w.
Proof.
  unfold appendToBuckets. destruct (_ =? 0); [auto|].
  generalize (perBucket hashUrl parts urls). intros m.
  change w with (fst (w, @nil (nat * string))) at 2 4.
  generalize (w, @nil (nat * string)).
  induction m as [|e m IH]; intros acc; simpl; [auto|].
  destruct (IH (appendOne maxEnv acc e)) as [H1 H2].
  destruct (appendOne_faults maxEnv acc e) as [H3 H4].
  split; congruence.
Qed.

(** With no fault from the operating system, no completion marker and no
    lock, the first attempt of [tryClaim] succeeds. *)
Lemma tryClaim_free (env : Env) (url : string) (w : World) :
  existsSync (sha1 url ++ ".done") w = false ->
  existsSync (sha1 url ++ ".lock") w = false ->
  openFaults w = [] -> writeFaults w = [] -> 0 < tries env ->
  fst (tryClaim sha1 env url w)
  = Some (mkClaim (sha1 url ++ ".lock") (sha1 url ++ ".done")).
Proof.
  intros Hd Hl Ho Hw Ht. unfold tryClaim. cbv zeta. rewrite Hd.
  destruct (tries env) as [|k]; [lia|].
  cbn [acquire]. unfold openExclusive. cbv zeta. rewrite Ho. cbn [hd tl].
  change (existsSync (sha1 url ++ ".lock")
            (mkWorld (locks w) (bucketFile w) (offsetFile w) []
                     (writeFaults w) (log w)))
    with (existsSync (sha1 url ++ ".lock") w).
  rewrite Hl. unfold writeLock. cbn [writeFaults setLocks emit]. rewrite Hw.
  reflexivity.
Qed.

(** X11. A URL appended to a bucket that a worker has read to its end is
    the next URL this worker claims from the bucket, and the cursor then
    stands just past its line.  This holds for a URL without white space
    around it and without line breaks that [acceptFn] lets through, when
    the bucket file is not rotated and carries no byte-order mark, the
    ledger holds neither a completion marker nor a lock for the URL, and
    the operating system raises no error.  The counter [advanced] of the scan
    is taken to start at 0, see [advanced0]. *)
Theorem appended_url_is_claimed_next
  (maxEnv : option string) (env : Env) (urls : list string) (parts : Z)
  (r : nat) (acceptFn : string -> bool) (w : World)
  (old u : string) (more : list string) :
  bucketFile w r = Some old ->
  rotationDue maxEnv (bucketFile w r) = false ->
  readOffset r w = Z.of_nat (String.length old) ->
  batchFor hashUrl parts r urls = u :: more ->
  startsWith (old ++ linesText (u :: more)) BOM = false ->
  Spec.lineSafe u = true -> trim u = u -> acceptFn u = true ->
  existsSync (sha1 u ++ ".done") w = false ->
  existsSync (sha1 u ++ ".lock") w = false ->
  openFaults w = [] -> writeFaults w = [] -> 0 < tries env ->
  let w1 := fst (appendToBuckets hashUrl maxEnv urls parts w) in
  fst (claimNextBucket sha1 env r acceptFn w1)
  = Some (u, mkClaim (sha1 u ++ ".lock") (sha1 u ++ ".done"))
  /\ readOffset r (snd (claimNextBucket sha1 env r acceptFn w1))
     = Z.of_nat (String.length old + String.length u + 1).
Proof.
  intros Hold Hrot Hpos Hmine Hbom Hsafe Htrim Hacc Hd Hl Hof Hwf Htries.
  cbv zeta.
  destruct (appendToBuckets_effect hashUrl maxEnv urls parts w)
    as (Hfile & Hoff & Hlocks).
  destruct (appendToBuckets_faults maxEnv urls parts w) as [Hof1 Hwf1].
  set (w1 := fst (appendToBuckets hashUrl maxEnv urls parts w)) in *.
  assert (Hb : bucketFile w1 r = Some (old ++ linesText (u :: more))).
  { rewrite (Hfile r), Hmine. unfold baseOf. rewrite Hrot, Hold. reflexivity. }
  apply andb_prop in Hsafe as [Hne Hnb].
  unfold claimNextBucket. cbv zeta.
  rewrite (ensureBucket_present r w1 _ Hb), Hb.
  rewrite (readOffset_same r w1 w Hoff), Hpos.
  unfold stripBomBytes. rewrite Hbom.
  set (buf := old ++ linesText (u :: more)).
  assert (Hlen : String.length buf
                 = String.length old + (String.length u
                                        + S (String.length (linesText more)))).
  { subst buf. cbn [linesText]. unfold NL.
    rewrite !length_append. reflexivity. }
  destruct (Z.ltb_spec (Z.of_nat (String.length buf))
              (Z.of_nat (String.length old))) as [Hlt | _]; [lia|].
  destruct (Z.leb_spec (Z.of_nat (String.length buf))
              (Z.of_nat (String.length old))) as [Hle | _]; [lia|].
  assert (Htail : bytesFrom (Z.of_nat (String.length old)) buf
                  = linesText (u :: more)).
  { unfold bytesFrom. rewrite Nat2Z.id. subst buf. apply substring_app_tail. }
  rewrite Htail. cbn [linesText]. unfold NL.
  change (u ++ String LF EmptyString ++ linesText more)
    with (u ++ String LF (linesText more)).
  rewrite (replaceCRLF_line u _ Hnb), (split_line u _ Hnb).
  destruct (split LF (replaceCRLF (linesText more))) as [|l1 ls] eqn:Es.
  { exfalso. exact (split_nonempty LF _ Es). }
  cbn [scanLines]. cbv zeta. rewrite Htrim, Hne, Hacc. cbn [negb].
  assert (Hgrant : fst (tryClaim sha1 env u w1)
                   = Some (mkClaim (sha1 u ++ ".lock") (sha1 u ++ ".done"))).
  { apply tryClaim_free; try assumption.
    - rewrite (existsSync_same_locks _ w1 w Hlocks). exact Hd.
    - rewrite (existsSync_same_locks _ w1 w Hlocks). exact Hl.
    - congruence.
    - congruence. }
  destruct (tryClaim sha1 env u w1) as [[c|] w2]; cbn [fst] in Hgrant;
    [|discriminate].
  injection Hgrant as ->. cbn [fst snd]. split; [reflexivity|].
  apply readOffset_written.
  - unfold advanced0. lia.
  - rewrite offsetFile_politeDelay, offsetFile_writeOffset.
    f_equal. f_equal. unfold advanced0, NL. rewrite length_append.
    cbn [String.length]. lia.
Qed.

End StealFacts.

Section StealWitnesses.
Import Js Frontier Buckets.

Lemma steal_witness :
  claimNextAnyBucket plainId defaultEnv 0 2 underDocs workElsewhere
  = (Some ("https://example.com/docs/a",
           mkClaim "https://example.com/docs/a.lock"
                   "https://example.com/docs/a.done"),
     snd (claimNextAnyBucket plainId defaultEnv 0 2 underDocs workElsewhere))
  /\ existsSync "https://example.com/docs/a.lock"
       (snd (claimNextAnyBucket plainId defaultEnv 0 2 underDocs workElsewhere))
     = true.
Proof.
  assert (H : claimNextAnyBucket plainId defaultEnv 0 2 underDocs workElsewhere
              = (Some ("https://example.com/docs/a",
                       mkClaim "https://example.com/docs/a.lock"
                               "https://example.com/docs/a.done"),
                 snd (claimNextAnyBucket plainId defaultEnv 0 2 underDocs
                        workElsewhere)))
    by (vm_compute; reflexivity).
  split; [exact H|].
  exact (proj2 (proj2 (proj2 (proj2 (proj2
           (claimNextAnyBucket_outcome plainId defaultEnv 0 2 underDocs
              workElsewhere _ _ H)))))).
Defined.

Lemma rotation_witness :
  rotationDue (Some "10") (bucketFile readToEnd 0) = true
  /\ batchFor lengthHash 1 0 ["https://example.com/a"] <> []
  /\ (Z.of_nat (String.length
                  (linesText (batchFor lengthHash 1 0 ["https://example.com/a"])))
      <= readOffset 0 readToEnd)%Z
  /\ fst (claimNextBucket plainId defaultEnv 0 (fun _ => true)
            (fst (appendToBuckets lengthHash (Some "10")
                    ["https://example.com/a"] 1 readToEnd)))
     = None
  /\ readOffset 0
       (snd (claimNextBucket plainId defaultEnv 0 (fun _ => true)
               (fst (appendToBuckets lengthHash (Some "10")
                       ["https://example.com/a"] 1 readToEnd))))
     = 22%Z.
Proof.
  assert (H1 : rotationDue (Some "10") (bucketFile readToEnd 0) = true)
    by (vm_compute; reflexivity).
  assert (H2 : batchFor lengthHash 1 0 ["https://example.com/a"] <> [])
    by (vm_compute; discriminate).
  assert (H3 : (Z.of_nat (String.length
                   (linesText (batchFor lengthHash 1 0 ["https://example.com/a"])))
                <= readOffset 0 readToEnd)%Z)
    by (vm_compute; discriminate).
  split; [exact H1|]. split; [exact H2|]. split; [exact H3|].
  pose proof (rotation_strands_appended_urls lengthHash plainId (Some "10")
                defaultEnv ["https://example.com/a"] 1 0 (fun _ => true)
                readToEnd H1 H2 H3) as (_ & Hnone & _ & _ & _ & Hcur).
  split; [exact Hnone|]. exact Hcur.
Defined.

Lemma appended_url_witness :
  fst (claimNextBucket plainId defaultEnv 0 underDocs
         (fst (appendToBuckets lengthHash None
                 ["https://example.com/docs/a"; "https://example.com/docs/b"]
                 1 readToEnd)))
  = Some ("https://example.com/docs/a",
          mkClaim "https://example.com/docs/a.lock"
                  "https://example.com/docs/a.done").
Proof.
  refine (proj1
    (appended_url_is_claimed_next lengthHash plainId None defaultEnv
       ["https://example.com/docs/a"; "https://example.com/docs/b"] 1 0
       underDocs readToEnd ("https://example.com/old/page-1" ++ NL)
       "https://example.com/docs/a" ["https://example.com/docs/b"]
       _ _ _ _ _ _ _ _ _ _ _ _ _));
    try (vm_compute; reflexivity).
  vm_compute. lia.
Defined.

Lemma donors_witness :
  In (1, bucketPendingBytes 1 workElsewhere) (donors 0 2 workElsewhere).
Proof.
  apply (proj1 (donors_by_descending_pending 0 2 workElsewhere)).
  split; [lia|]. split; [discriminate|]. split; [reflexivity|].
  vm_compute. reflexivity.
Defined.

End StealWitnesses.
(* ---------------------------------------------------------------------- *)
(** ** The work/idle loop: when it can and when it must exit               *)
(* ---------------------------------------------------------------------- *)

Section LoopFacts.
Import Js Crawler.

Lemma step_continue (maxPages : option nat) (l l' : Loop) (c : Cycle) :
  step maxPages l c = Continue l' ->
  (idle c = false /\ idleCycles l' = 0 /\ stableCycles l' = 0)
  \/ (idle c = true /\ idleCycles l' = idleCycles l + 1
      /\ stableCycles l' <= stableCycles l + 1
      /\ results l' = results l).
Proof.
  unfold step, idle.
  destruct (negb (belowCap (results l) maxPages)); [discriminate|].
  destruct (preferredWork c || stealWork c); cbn [negb].
  - intros E. injection E as <-. left. auto.
  - cbv zeta.
    destruct (_ && _ && _); [discriminate|].
    destruct (60 <=? _); [discriminate|].
    intros E. injection E as <-. right. cbn [idleCycles stableCycles results].
    repeat split. destruct (truthy (snap c) && String.eqb (snap c) (lastSnap l)); lia.
Qed.

Lemma step_idle_break (maxPages : option nat) (l l' : Loop) (c : Cycle)
  (e : Exit) :
  step maxPages l c = Break e l' -> e <> PageCap ->
  idle c = true /\ idleCycles l' = idleCycles l + 1
  /\ stableCycles l' <= stableCycles l + 1
  /\ match e with
     | FrontierEmpty => 5 <= stableCycles l' \/ 50 <= idleCycles l'
     | FrontierSettled => 60 <= stableCycles l'
     | PageCap => True
     end.
Proof.
  unfold step, idle.
  destruct (negb (belowCap (results l) maxPages)).
  { intros E. injection E as <- <-. congruence. }
  destruct (preferredWork c || stealWork c); cbn [negb]; [discriminate|].
  cbv zeta. intros E _.
  assert (Hs : (if truthy (snap c) && String.eqb (snap c) (lastSnap l)
                then stableCycles l + 1 else 0) <= stableCycles l + 1)
    by (destruct (truthy (snap c) && String.eqb (snap c) (lastSnap l)); lia).
  destruct (_ && _ && _) eqn:Hq.
  - injection E as <- <-. cbn [idleCycles stableCycles].
    repeat split; try assumption.
    apply andb_prop in Hq as [_ Hq]. apply orb_prop in Hq.
    destruct Hq as [Hq | Hq]; apply Nat.leb_le in Hq; [left | right]; exact Hq.
  - destruct (60 <=? _) eqn:H60; [|discriminate].
    injection E as <- <-. cbn [idleCycles stableCycles].
    repeat split; try assumption. apply Nat.leb_le, H60.
Qed.

Lemma endsWithIdle_zero (turns : list Cycle) : endsWithIdle 0 turns.
Proof. exists turns, []. rewrite app_nil_r. repeat split. constructor. Qed.

Lemma endsWithIdle_snoc (n : nat) (turns : list Cycle) (c : Cycle) :
  endsWithIdle n turns -> idle c = true -> endsWithIdle (n + 1) (turns ++ [c]).
Proof.
  intros (pre & run & -> & Hlen & Hall) Hc.
  exists pre, (run ++ [c])%list. rewrite app_assoc. repeat split.
  - rewrite length_app. cbn. lia.
  - apply Forall_app. split; [exact Hall | constructor; [exact Hc | constructor]].
Qed.

Lemma crawlSite_idle_streak (maxPages : option nat) (cs : list Cycle) :
  forall (done : list Cycle) (l l' : Loop) (e : Exit) (c : Cycle),
    stableCycles l <= idleCycles l ->
    endsWithIdle (idleCycles l) done ->
    crawlSite maxPages l cs = Exited e l' c -> e <> PageCap ->
    exists before after,
      cs = (before ++ c :: after)%list
      /\ endsWithIdle (idleCycles l') (done ++ before ++ [c])
      /\ stableCycles l' <= idleCycles l'
      /\ match e with
         | FrontierEmpty => 5 <= stableCycles l' \/ 50 <= idleCycles l'
         | FrontierSettled => 60 <= stableCycles l'
         | PageCap => True
         end.
Proof.
  induction cs as [|c0 cs IH]; intros done l l' e c Hinv Hrun; cbn [crawlSite];
    [discriminate|].
  destruct (step maxPages l c0) as [l1 | e1 l1] eqn:Hstep.
  - intros H Hne.
    assert (Hinv1 : stableCycles l1 <= idleCycles l1
                    /\ endsWithIdle (idleCycles l1) (done ++ [c0])).
    { destruct (step_continue maxPages l l1 c0 Hstep)
        as [(_ & Hi & Hs) | (Hc & Hi & Hs & _)].
      - rewrite Hi, Hs. split; [lia | apply endsWithIdle_zero].
      - rewrite Hi. split; [lia | apply endsWithIdle_snoc; assumption]. }
    destruct Hinv1 as [Hinv1 Hrun1].
    destruct (IH (done ++ [c0])%list l1 l' e c Hinv1 Hrun1 H Hne)
      as (before & after & -> & Hend & Hle & He).
    exists (c0 :: before), after. repeat split; try assumption.
    rewrite <- app_assoc in Hend. exact Hend.
  - intros E Hne. injection E as -> -> ->.
    destruct (step_idle_break maxPages l l' c e Hstep Hne)
      as (Hc & Hi & Hs & He).
    exists [], cs. repeat split; try assumption.
    + rewrite Hi. apply endsWithIdle_snoc; assumption.
    + lia.
Qed.

(** X12. A worker that leaves the work/idle loop through [frontier empty]
    or [frontier settled] has just spent [idleCycles] turns in a row
    without a claim, the exit turn included; the snapshot cannot have been
    stable for longer than that, so either exit comes after at least 5
    such turns and [frontier settled] after at least 60. *)
Theorem exit_follows_idle_streak
  (maxPages : option nat) (cs : list Cycle) (l : Loop) (e : Exit) (c : Cycle) :
  crawlSite maxPages start cs = Exited e l c -> e <> PageCap ->
  exists before after,
    cs = (before ++ c :: after)%list
    /\ endsWithIdle (idleCycles l) (before ++ [c])
    /\ stableCycles l <= idleCycles l
    /\ 5 <= idleCycles l
    /\ (e = FrontierSettled -> 60 <= idleCycles l).
Proof.
  intros H Hne.
  destruct (crawlSite_idle_streak maxPages cs [] start l e c
              (Nat.le_refl 0) (endsWithIdle_zero []) H Hne)
    as (before & after & Ecs & Hend & Hle & He).
  exists before, after. repeat split; try assumption.
  - destruct e; [lia | lia | congruence].
  - intros ->. lia.
Qed.

Lemma same_snapshot_exit (maxPages : option nat) (s : string)
  (cs : list Cycle) :
  forall l,
    belowCap (results l) maxPages = true ->
    truthy s = true -> lastSnap l = s ->
    Forall (fun c => idle c = true /\ snap c = s) cs ->
    60 <= stableCycles l + List.length cs -> cs <> [] ->
    exists e l' c,
      crawlSite maxPages l cs = Exited e l' c /\ e <> PageCap
      /\ idleCycles l' <= idleCycles l + List.length cs.
Proof.
  induction cs as [|c0 cs IH]; intros l Hcap Hs Hlast Hall Hlen Hne;
    [congruence|].
  inversion Hall as [|? ? [Hi Hsnap] Hall']; subst.
  cbn [crawlSite]. unfold step. rewrite Hcap. cbn [negb].
  unfold idle in Hi. apply negb_true_iff in Hi. rewrite Hi.
  cbv zeta. rewrite Hsnap, Hs, String.eqb_refl. cbn [andb].
  destruct (_ && _ && _).
  { eexists _, _, _. split; [reflexivity|]. split; [discriminate|].
    cbn [idleCycles List.length]. lia. }
  destruct (Nat.leb_spec 60 (stableCycles l + 1)).
  { eexists _, _, _. split; [reflexivity|]. split; [discriminate|].
    cbn [idleCycles List.length]. lia. }
  cbn [List.length] in Hlen.
  destruct (IH (mkLoop (results l) (idleCycles l + 1) (stableCycles l + 1)
                       (lastSnap l)))
    as (e & l' & c & Hrun & Hpc & Hidle); try assumption; try reflexivity.
  - cbn [stableCycles]. lia.
  - intros ->. cbn [List.length] in Hlen. lia.
  - exists e, l', c. split; [exact Hrun|]. split; [exact Hpc|].
    cbn [idleCycles List.length] in *. lia.
Qed.

(** X13. The loop cannot idle for ever on a frontier that does not move:
    from any state below the page cap, 61 turns in a row without a claim
    and with one and the same non-empty snapshot make the worker leave the
    loop, through [frontier empty] or [frontier settled], within these
    turns. *)
Theorem frozen_frontier_forces_exit
  (maxPages : option nat) (s : string) (cs : list Cycle) (l : Loop) :
  belowCap (results l) maxPages = true ->
  truthy s = true ->
  Forall (fun c => idle c = true /\ snap c = s) cs ->
  61 <= List.length cs ->
  exists e l' c,
    crawlSite maxPages l cs = Exited e l' c /\ e <> PageCap
    /\ idleCycles l' <= idleCycles l + 61.
Proof.
  intros Hcap Hs Hall Hlen.
  assert (Hcut : Forall (fun c => idle c = true /\ snap c = s) (firstn 61 cs)).
  { rewrite Forall_forall in *. intros c Hc. apply Hall.
    apply (In_firstn_In c 61 cs Hc). }
  assert (Hpre : forall cs1 cs2 l0 e l' c,
             crawlSite maxPages l0 cs1 = Exited e l' c ->
             crawlSite maxPages l0 (cs1 ++ cs2) = Exited e l' c).
  { induction cs1 as [|c1 cs1 IH1]; intros cs2 l0 e l' c; cbn [crawlSite app];
      [discriminate|].
    destruct (step maxPages l0 c1); [apply IH1 | auto]. }
  assert (H61 : List.length (firstn 61 cs) = 61)
    by (rewrite length_firstn; lia).
  destruct cs as [|c0 cs]; [cbn in Hlen; lia|].
  change (firstn 61 (c0 :: cs)) with (c0 :: firstn 60 cs) in *.
  inversion Hcut as [|? ? [Hi Hsnap] Hcut']; subst.
  cbn [List.length] in H61.
  assert (Hrest : crawlSite maxPages l (c0 :: firstn 60 cs)
                  = crawlSite maxPages l (c0 :: firstn 60 cs)) by reflexivity.
  assert (Hgoal : exists e l' c,
             crawlSite maxPages l (c0 :: firstn 60 cs) = Exited e l' c
             /\ e <> PageCap /\ idleCycles l' <= idleCycles l + 61).
  { cbn [crawlSite]. unfold step. rewrite Hcap. cbn [negb].
    unfold idle in Hi. apply negb_true_iff in Hi. rewrite Hi. cbv zeta.
    destruct (_ && _ && _).
    { eexists _, _, _. split; [reflexivity|]. split; [discriminate|].
      cbn [idleCycles]. lia. }
    destruct (60 <=? _).
    { eexists _, _, _. split; [reflexivity|]. split; [discriminate|].
      cbn [idleCycles]. lia. }
    set (l1 := mkLoop _ _ _ _).
    destruct (same_snapshot_exit maxPages (snap c0) (firstn 60 cs) l1)
      as (e & l' & c & Hrun & Hpc & Hidle); try assumption; try reflexivity.
    - cbn [stableCycles]. lia.
    - intros E. rewrite E in H61. cbn in H61. lia.
    - subst l1. cbn [idleCycles] in Hidle.
      exists e, l', c. repeat split; try assumption. lia. }
  destruct Hgoal as (e & l' & c & Hrun & Hpc & Hidle).
  exists e, l', c. split; [|split; assumption].
  rewrite <- (firstn_skipn 60 cs).
  change (c0 :: (firstn 60 cs ++ skipn 60 cs)%list)
    with ((c0 :: firstn 60 cs) ++ skipn 60 cs)%list.
  apply Hpre, Hrun.
Qed.

Lemma bucketStats_lines_acc (buckets : list (string * Z)) :
  forall acc,
    fst acc <= fst (fold_left
                      (fun acc f =>
                         (fst acc + List.length (filter truthy (splitLines (fst f))),
                          snd acc + String.length (fst f)))
                      buckets acc)
    /\ forall f, In f buckets ->
         List.length (filter truthy (splitLines (fst f)))
         <= fst (fold_left
                   (fun acc f =>
                      (fst acc + List.length (filter truthy (splitLines (fst f))),
                       snd acc + String.length (fst f)))
                   buckets acc).
Proof.
  induction buckets as [|b bs IH]; intros acc; cbn [fold_left].
  - split; [lia | intros f []].
  - destruct (IH (fst acc + List.length (filter truthy (splitLines (fst b))),
                  snd acc + String.length (fst b))) as [H1 H2].
    cbn [fst] in H1. split; [lia|].
    intros f [-> | Hin]; [lia | apply H2, Hin].
Qed.

Lemma filter_truthy_nil (ls : list string) :
  filter truthy ls = [] -> Forall (fun line => line = EmptyString) ls.
Proof.
  induction ls as [|x xs IH]; cbn [filter]; [constructor|].
  destruct x; cbn [truthy]; [|discriminate].
  intros H. constructor; [reflexivity | apply IH, H].
Qed.

(** X14. The [frontier empty] exit looks at the whole content of the
    bucket files, not at the cursors: a turn can end the loop this way
    only if the bucket files could not be read or none of them holds a
    non-empty line, and the ledger directory could not be listed or holds
    no [.lock] file.  A bucket file that is read and holds a URL closes
    this exit, however far the workers have read; a turn on which both
    readings fail takes it once the worker has idled for 50 turns, whatever
    the files hold. *)
Theorem frontier_empty_needs_blank_buckets
  (maxPages : option nat) (l l' : Loop) (seen : nat)
  (statted read : option (list (string * Z)))
  (snapLocks nowLocks : option (list string)) :
  (step maxPages l (idleTurn seen statted snapLocks read nowLocks)
   = Break FrontierEmpty l' ->
   match read with
   | Some buckets =>
       Forall (fun f => Forall (fun line => line = EmptyString)
                               (splitLines (fst f))) buckets
   | None => True
   end
   /\ match nowLocks with
      | Some listing => Forall (fun f => endsWith f ".lock" = false) listing
      | None => True
      end)
  /\ (belowCap (results l) maxPages = true ->
      49 <= idleCycles l ->
      exists l0,
        step maxPages l (idleTurn seen statted snapLocks None None)
        = Break FrontierEmpty l0).
Proof.
  split.
  - intros H. apply step_break in H. destruct H as (Hl & Hk & _).
    cbn [lines locksNow idleTurn] in Hl, Hk. split.
    + destruct read as [buckets|]; [|exact I].
      apply Forall_forall. intros f Hf. apply filter_truthy_nil.
      destruct (bucketStats_lines_acc buckets (0, 0)) as [_ Hb].
      specialize (Hb f Hf). unfold bucketStats in Hl.
      apply length_zero_iff_nil. lia.
    + destruct nowLocks as [listing|]; [|exact I].
      unfold countLocks in Hk. apply length_zero_iff_nil in Hk.
      apply Forall_forall. intros f Hf.
      destruct (endsWith f ".lock") eqn:E; [|reflexivity].
      assert (Hin : In f (filter (fun f => endsWith f ".lock") listing))
        by (apply filter_In; split; assumption).
      rewrite Hk in Hin. destruct Hin.
  - intros Hcap Hidle. unfold step. rewrite Hcap.
    cbn [negb idleTurn preferredWork stealWork orb lines locksNow
         bucketStats countLocks fst Nat.eqb andb].
    assert (E : (50 <=? idleCycles l + 1) = true) by (apply Nat.leb_le; lia).
    rewrite E, orb_true_r. eexists. reflexivity.
Qed.

End LoopFacts.

Section LoopWitnesses.
Import Js Crawler.

Lemma idle_streak_witness :
  crawlSite (Some 500) start (repeat allQuiet 6)
  = Exited FrontierEmpty (mkLoop 0 6 5 "0:5:0") allQuiet
  /\ 5 <= idleCycles (mkLoop 0 6 5 "0:5:0").
Proof.
  assert (H : crawlSite (Some 500) start (repeat allQuiet 6)
              = Exited FrontierEmpty (mkLoop 0 6 5 "0:5:0") allQuiet)
    by (vm_compute; reflexivity).
  split; [exact H|].
  destruct (exit_follows_idle_streak (Some 500) (repeat allQuiet 6)
              (mkLoop 0 6 5 "0:5:0") FrontierEmpty allQuiet H
              ltac:(discriminate))
    as (before & after & _ & _ & _ & H5 & _).
  exact H5.
Defined.

Lemma frozen_frontier_witness :
  exists e l' c,
    crawlSite (Some 500) start (repeat staleLock 61) = Exited e l' c
    /\ e <> PageCap /\ idleCycles l' <= idleCycles start + 61.
Proof.
  apply (frozen_frontier_forces_exit (Some 500) (snap staleLock)
           (repeat staleLock 61) start).
  - vm_compute. reflexivity.
  - vm_compute. reflexivity.
  - apply Forall_forall. intros c Hc. apply repeat_spec in Hc. subst c.
    split; reflexivity.
  - rewrite repeat_length. lia.
Defined.

Lemma frontier_empty_witness :
  step (Some 500) (mkLoop 0 5 4 "0:5:0")
    (idleTurn 0 (Some [(EmptyString, 5%Z)]) (Some [])
                (Some [(EmptyString, 5%Z)]) (Some []))
  = Break FrontierEmpty (mkLoop 0 6 5 "0:5:0")
  /\ Forall (fun f => Forall (fun line => line = EmptyString)
                             (splitLines (fst f)))
            [(EmptyString, 5%Z)].
Proof.
  assert (H : step (Some 500) (mkLoop 0 5 4 "0:5:0")
                (idleTurn 0 (Some [(EmptyString, 5%Z)]) (Some [])
                            (Some [(EmptyString, 5%Z)]) (Some []))
              = Break FrontierEmpty (mkLoop 0 6 5 "0:5:0"))
    by (vm_compute; reflexivity).
  split; [exact H|].
  exact (proj1 (proj1 (frontier_empty_needs_blank_buckets (Some 500) _ _ 0
                         (Some [(EmptyString, 5%Z)])
                         (Some [(EmptyString, 5%Z)]) (Some []) (Some [])) H)).
Defined.

End LoopWitnesses.
(* ---------------------------------------------------------------------- *)
(** ** A report line read back by [splitCsvLine]                           *)
(* ---------------------------------------------------------------------- *)

Section ReportsCsvFacts.
Import Js Csv ReportsCsv.

Lemma append_assoc3_str (a b c : string) : a ++ b ++ c = (a ++ b) ++ c.
Proof. induction a as [|x a IH]; [reflexivity|]. cbn [append]. rewrite IH. reflexivity. Qed.

Lemma scan_skip (a : string) :
  forall p b, scan (String.length a) p (a ++ b) = scan 0 (lastOr p a) b.
Proof.
  induction a as [|c a IH]; intros p b; [reflexivity|].
  cbn [String.length append scan lastOr]. apply IH.
Qed.

Lemma substring_app_head (a b : string) :
  substring 0 (String.length a) (a ++ b) = a.
Proof.
  induction a as [|c a IH]; cbn [String.length append].
  - destruct b; reflexivity.
  - cbn [substring]. rewrite IH. reflexivity.
Qed.

Lemma replaceBreaks_noBreak (v : string) :
  Spec.noBreak v = true -> replaceBreaks v = v.
Proof.
  induction v as [|c v IH]; [reflexivity|].
  cbn [Spec.noBreak]. intros H. apply andb_prop in H as [H Hv].
  apply andb_prop in H as [Hlf Hcr]. apply negb_true_iff in Hlf, Hcr.
  cbn [replaceBreaks]. rewrite Hlf, Hcr. cbn [andb].
  rewrite (IH Hv). destruct v; reflexivity.
Qed.

Lemma unescape_escape (v : string) : unescapeQuotes (escapeQuotes v) = v.
Proof.
  induction v as [|c v IH]; [reflexivity|].
  cbn [escapeQuotes]. destruct (Ascii.eqb_spec c DQUOTE) as [-> | Hc].
  - cbn [unescapeQuotes]. rewrite Ascii.eqb_refl. cbn [andb]. rewrite IH.
    reflexivity.
  - apply Ascii.eqb_neq in Hc.
    change (unescapeQuotes (String c (escapeQuotes v)))
      with (match escapeQuotes v with
            | String c' t' =>
                if Ascii.eqb c DQUOTE && Ascii.eqb c' DQUOTE
                then String DQUOTE (unescapeQuotes t')
                else String c (unescapeQuotes (escapeQuotes v))
            | EmptyString => String c EmptyString
            end).
    rewrite Hc. cbn [andb]. rewrite IH.
    destruct v as [|c' v']; [reflexivity|].
    cbn [escapeQuotes]. destruct (Ascii.eqb c' DQUOTE); reflexivity.
Qed.

Lemma quotedBody_escaped (v rest : string) :
  headChar rest <> Some DQUOTE ->
  quotedBody (escapeQuotes v ++ String DQUOTE rest)
  = Some (String.length (escapeQuotes v) + 1).
Proof.
  intros Hrest. induction v as [|c v IH].
  - cbn [escapeQuotes append quotedBody String.length]. rewrite Ascii.eqb_refl.
    destruct rest as [|c' t']; [reflexivity|].
    destruct (Ascii.eqb_spec c' DQUOTE) as [-> | _]; [|reflexivity].
    exfalso. apply Hrest. reflexivity.
  - cbn [escapeQuotes]. destruct (Ascii.eqb_spec c DQUOTE) as [-> | Hc].
    + cbn [append quotedBody String.length]. rewrite Ascii.eqb_refl, IH.
      reflexivity.
    + apply Ascii.eqb_neq in Hc.
      cbn [append quotedBody String.length]. rewrite Hc, IH. reflexivity.
Qed.

Lemma nonCommaRun_plain (v rest : string) :
  needsQuotes v = false ->
  (rest = EmptyString \/ headChar rest = Some COMMA) ->
  nonCommaRun (v ++ rest) = String.length v.
Proof.
  intros Hv Hrest. induction v as [|c v IH].
  - destruct Hrest as [-> | Hr]; [reflexivity|].
    destruct rest as [|c' t']; [discriminate|].
    injection Hr as ->. reflexivity.
  - unfold needsQuotes in Hv. cbn [anyChar] in Hv.
    apply orb_false_iff in Hv as [Hc Hv]. apply orb_false_iff in Hc as [_ Hc].
    cbn [append nonCommaRun String.length]. rewrite Hc, (IH Hv). reflexivity.
Qed.

Lemma trimEnd_last (s : string) (c : ascii) :
  isWhite c = false ->
  trimEnd (s ++ String c EmptyString) = s ++ String c EmptyString.
Proof.
  intros Hc. induction s as [|a s IH].
  - cbn [append trimEnd]. rewrite Hc. reflexivity.
  - cbn [append trimEnd]. rewrite IH. destruct s; reflexivity.
Qed.

Lemma lastOr_app (a : string) (c : ascii) :
  forall p, lastOr p (a ++ String c EmptyString) = Some c.
Proof.
  induction a as [|x a IH]; intros p; [reflexivity|].
  cbn [append lastOr]. apply IH.
Qed.

Lemma lastOr_plain (v : string) :
  forall p,
    needsQuotes v = false -> isComma p = false -> isComma (lastOr p v) = false.
Proof.
  induction v as [|c v IH]; intros p Hv Hp; [exact Hp|].
  unfold needsQuotes in Hv. cbn [anyChar] in Hv.
  apply orb_false_iff in Hv as [Hc Hv]. apply orb_false_iff in Hc as [_ Hc].
  cbn [lastOr]. apply IH; [exact Hv | exact Hc].
Qed.

Lemma endsWith_last (s : string) (c : ascii) :
  endsWith (s ++ String c EmptyString) (String c EmptyString) = true.
Proof.
  unfold endsWith. rewrite rev_string_app. cbn [rev_string append String.prefix].
  destruct (ascii_dec c c); [|congruence].
  destruct (rev_string s); reflexivity.
Qed.

Lemma length_app_last (s : string) (c : ascii) :
  String.length (s ++ String c EmptyString) = S (String.length s).
Proof. rewrite length_append. cbn. lia. Qed.

Lemma lastOr_some (s : string) :
  forall c, exists x, lastOr (Some c) s = Some x.
Proof.
  induction s as [|a s IH]; intros c; cbn [lastOr]; [exists c; reflexivity|].
  apply IH.
Qed.

(** The two shapes of a written cell. *)
Lemma csvEscape_cases (v : string) :
  roundTrips v = true ->
  (needsQuotes v = false /\ csvEscape (Some v) "," = v /\ trim v = v
   /\ v <> EmptyString)
  \/ (needsQuotes v = true
      /\ csvEscape (Some v) ","
         = String DQUOTE (escapeQuotes v ++ String DQUOTE EmptyString)).
Proof.
  unfold roundTrips. intros H. apply andb_prop in H as [H Ht].
  apply andb_prop in H as [Hne Hnb].
  unfold csvEscape. cbv zeta. rewrite (replaceBreaks_noBreak v Hnb).
  change (String.eqb "," (String TAB EmptyString)) with false. cbv iota.
  destruct (needsQuotes v) eqn:Hq.
  - right. split; reflexivity.
  - left. cbn [orb] in Ht. apply String.eqb_eq in Ht.
    repeat split; try assumption. intros ->. discriminate.
Qed.

Lemma scan_cell (v : string) (prev : option ascii) (rest : string) :
  roundTrips v = true ->
  (rest = EmptyString \/ exists c' r', rest = String COMMA (String c' r')) ->
  scan 0 prev (csvEscape (Some v) "," ++ rest)
  = csvEscape (Some v) ","
    :: match rest with
       | EmptyString => []
       | String c r' => scan 0 (Some c) r'
       end.
Proof.
  intros Hv Hrest.
  assert (Hhead : rest = EmptyString \/ headChar rest = Some COMMA).
  { destruct Hrest as [-> | (c' & r' & ->)]; [left | right]; reflexivity. }
  assert (Hq : headChar rest <> Some DQUOTE).
  { destruct Hhead as [-> | ->]; discriminate. }
  assert (Hafter : forall q x,
             q = Some x -> isComma q = false ->
             scan 0 q rest
             = match rest with
               | EmptyString => []
               | String c r' => scan 0 (Some c) r'
               end).
  { intros q x -> Hx. destruct Hrest as [-> | (c' & r' & ->)]; [reflexivity|].
    cbn [scan matchAt]. rewrite Ascii.eqb_refl, Hx. reflexivity. }
  destruct (csvEscape_cases v Hv) as [(Hn & -> & _ & Hne) | (Hn & ->)].
  - destruct v as [|c0 v']; [congruence|].
    assert (Hc0 : Ascii.eqb c0 DQUOTE = false /\ Ascii.eqb c0 COMMA = false).
    { unfold needsQuotes in Hn. cbn [anyChar] in Hn.
      apply orb_false_iff in Hn as [Hn _]. apply orb_false_iff in Hn. exact Hn. }
    destruct Hc0 as [Hdq Hcm].
    pose proof (nonCommaRun_plain (String c0 v') rest Hn Hhead) as Hrun.
    cbn [append] in Hrun |- *. cbn [scan matchAt]. rewrite Hcm, Hdq, Hrun.
    cbn [String.length]. f_equal.
    + change (String c0 (v' ++ rest)) with (String c0 v' ++ rest).
      apply (substring_app_head (String c0 v') rest).
    + rewrite scan_skip.
      destruct (lastOr_some v' c0) as (x & Hx).
      apply (Hafter _ x Hx).
      change (lastOr (Some c0) v') with (lastOr None (String c0 v')).
      apply lastOr_plain; [exact Hn | reflexivity].
  - assert (E : String DQUOTE (escapeQuotes v ++ String DQUOTE EmptyString) ++ rest
               = String DQUOTE (escapeQuotes v ++ String DQUOTE rest)).
    { cbn [append]. f_equal. rewrite <- append_assoc3_str. reflexivity. }
    rewrite E. cbn [scan matchAt].
    change (Ascii.eqb DQUOTE COMMA) with false. cbv iota.
    rewrite Ascii.eqb_refl.
    rewrite (quotedBody_escaped v rest Hq).
    replace (String.length (escapeQuotes v) + 1)
      with (S (String.length (escapeQuotes v))) by lia.
    f_equal.
    + rewrite <- E.
      rewrite <- (length_app_last (escapeQuotes v) DQUOTE).
      change (S (String.length (escapeQuotes v ++ String DQUOTE EmptyString)))
        with (String.length
                (String DQUOTE (escapeQuotes v ++ String DQUOTE EmptyString))).
      apply substring_app_head.
    + assert (E2 : escapeQuotes v ++ String DQUOTE rest
                   = (escapeQuotes v ++ String DQUOTE EmptyString) ++ rest).
      { rewrite <- append_assoc3_str. reflexivity. }
      rewrite E2.
      rewrite <- (length_app_last (escapeQuotes v) DQUOTE).
      rewrite scan_skip, lastOr_app.
      apply (Hafter _ DQUOTE eq_refl). reflexivity.
Qed.

Lemma cleanCell_csvEscape (v : string) :
  roundTrips v = true -> cleanCell (csvEscape (Some v) ",") = v.
Proof.
  intros Hv. unfold cleanCell. cbv zeta.
  destruct (csvEscape_cases v Hv) as [(Hn & -> & Ht & Hne) | (Hn & ->)].
  - rewrite Ht. destruct v as [|c0 v']; [congruence|].
    unfold needsQuotes in Hn. cbn [anyChar] in Hn.
    apply orb_false_iff in Hn as [Hn _]. apply orb_false_iff in Hn as [Hdq _].
    apply Ascii.eqb_neq in Hdq.
    unfold startsWith, QUOTE1. cbn [String.prefix].
    destruct (ascii_dec DQUOTE c0) as [E | _]; [congruence | reflexivity].
  - set (e := String DQUOTE (escapeQuotes v ++ String DQUOTE EmptyString)).
    assert (Ee : e = String DQUOTE (escapeQuotes v) ++ String DQUOTE EmptyString)
      by reflexivity.
    assert (Htrim : trim e = e).
    { unfold trim. change (trimStart e) with e.
      rewrite Ee. apply trimEnd_last. reflexivity. }
    rewrite Htrim.
    assert (Hs : startsWith e QUOTE1 = true).
    { unfold startsWith, QUOTE1, e. cbn [String.prefix].
      destruct (ascii_dec DQUOTE DQUOTE); [|congruence].
      destruct (escapeQuotes v ++ _); reflexivity. }
    assert (He : endsWith e QUOTE1 = true).
    { rewrite Ee. apply endsWith_last. }
    rewrite Hs, He. cbn [andb].
    assert (Hslice : slice_1_m1 e = escapeQuotes v).
    { unfold slice_1_m1, e. cbn [String.length substring].
      rewrite length_app_last. cbn [Nat.sub].
      rewrite Nat.sub_0_r. apply substring_app_head. }
    rewrite Hslice. apply unescape_escape.
Qed.

Lemma csvEscape_head (v : string) :
  roundTrips v = true ->
  exists c t, csvEscape (Some v) "," = String c t.
Proof.
  intros Hv.
  destruct (csvEscape_cases v Hv) as [(Hn & -> & Ht & Hne) | (Hn & ->)].
  - destruct v as [|c t]; [congruence | exists c, t; reflexivity].
  - eexists _, _. reflexivity.
Qed.

Lemma join_head (x : string) (l : list string) (c : ascii) (t : string) :
  x = String c t -> exists t', join "," (x :: l) = String c t'.
Proof.
  intros ->. destruct l as [|y l]; cbn [join].
  - exists t. reflexivity.
  - eexists. reflexivity.
Qed.

Lemma scan_line (cells : list string) :
  Forall (fun v => roundTrips v = true) cells ->
  forall prev,
    scan 0 prev (line "," (map Some cells))
    = map (fun v => csvEscape (Some v) ",") cells.
Proof.
  unfold line. rewrite map_map.
  induction cells as [|v vs IH]; intros Hall prev; [reflexivity|].
  inversion Hall as [|? ? Hv Hvs]; subst.
  cbn [map]. destruct vs as [|v' vs'].
  - cbn [map join].
    rewrite <- (append_empty_r (csvEscape (Some v) ",")) at 1.
    rewrite (scan_cell v prev EmptyString Hv); [reflexivity | left; reflexivity].
  - change (join "," (csvEscape (Some v) ","
                      :: map (fun x => csvEscape (Some x) ",") (v' :: vs')))
      with (csvEscape (Some v) "," ++ "," ++
            join "," (map (fun x => csvEscape (Some x) ",") (v' :: vs'))).
    inversion Hvs as [|? ? Hv' _]; subst.
    destruct (csvEscape_head v' Hv') as (c' & t' & Ec).
    destruct (join_head _ (map (fun x => csvEscape (Some x) ",") vs') c' t' Ec)
      as (r' & Ej).
    cbn [map] in IH |- *.
    rewrite (scan_cell v prev
               ("," ++ join "," (csvEscape (Some v') ","
                                 :: map (fun x => csvEscape (Some x) ",") vs'))
               Hv).
    + cbn [append]. f_equal. apply (IH Hvs).
    + right. rewrite Ej. exists c', r'. reflexivity.
Qed.

(** X15. A report line written with the comma separator is read back by
    [splitCsvLine] into the cells it was written from, when every cell is
    non-empty, free of line breaks, and either needs quotes (it holds a
    comma or a double quote) or has no white space around it. *)
Theorem written_line_splits_back (cells : list string) :
  Forall (fun v => roundTrips v = true) cells ->
  splitCsvLine (line "," (map Some cells)) = cells.
Proof.
  intros Hall. unfold splitCsvLine. rewrite (scan_line cells Hall None).
  rewrite map_map. induction Hall as [|v vs Hv _ IH]; [reflexivity|].
  cbn [map]. rewrite (cleanCell_csvEscape v Hv), IH. reflexivity.
Qed.

Lemma scan_prev_irrelevant (c : ascii) (t : string) (p q : option ascii) :
  Ascii.eqb c COMMA = false -> scan 0 p (String c t) = scan 0 q (String c t).
Proof. intros Hc. cbn [scan matchAt]. rewrite Hc. reflexivity. Qed.

(** X16. [splitCsvLine] loses an empty first cell: a line that starts
    with a comma followed by another character has the cells of the line
    without that comma. *)
Theorem leading_empty_cell_is_lost (c : ascii) (t : string) :
  c <> COMMA ->
  splitCsvLine (String COMMA (String c t)) = splitCsvLine (String c t).
Proof.
  intros Hc. apply Ascii.eqb_neq in Hc. unfold splitCsvLine. f_equal.
  change (scan 0 None (String COMMA (String c t)))
    with (match matchAt None (String COMMA (String c t)) with
          | Some O => EmptyString :: scan 0 (Some COMMA) (String c t)
          | Some (S n) =>
              substring 0 (S n) (String COMMA (String c t))
              :: scan n (Some COMMA) (String c t)
          | None => scan 0 (Some COMMA) (String c t)
          end).
  cbn [matchAt isComma headChar]. rewrite Ascii.eqb_refl, Hc.
  apply scan_prev_irrelevant, Hc.
Qed.

End ReportsCsvFacts.

Section ReportsCsvWitnesses.
Import Js Csv ReportsCsv.

Lemma written_line_witness :
  splitCsvLine
    (line "," (map Some ["https://example.com/a"; "Widgets, large"; "5"]))
  = ["https://example.com/a"; "Widgets, large"; "5"].
Proof.
  apply written_line_splits_back.
  repeat constructor.
Defined.

Lemma leading_empty_cell_witness :
  splitCsvLine ",Home,Welcome" = ["Home"; "Welcome"].
Proof.
  refine (eq_trans (leading_empty_cell_is_lost "H" "ome,Welcome" _) _);
    [discriminate | vm_compute; reflexivity].
Defined.

End ReportsCsvWitnesses.
(* ---------------------------------------------------------------------- *)
(** ** The shards share out the URL list                                   *)
(* ---------------------------------------------------------------------- *)

Section ShardFacts.
Import Js RunShard.

Lemma firstn_add_skipn {A} (a b : nat) (l : list A) :
  firstn (a + b) l = (firstn a l ++ firstn b (skipn a l))%list.
Proof.
  revert l. induction a as [|a IH]; intros l; [reflexivity|].
  destruct l as [|x l]; cbn [Nat.add firstn skipn app].
  - destruct b; reflexivity.
  - rewrite IH. reflexivity.
Qed.

Lemma slice_chunk {A} (l : list A) (per i : nat) :
  slice l (Z.of_nat per * Z.of_nat i)
        (Z.of_nat per * Z.of_nat i + Z.of_nat per)
  = firstn per (skipn (per * i) l).
Proof.
  unfold slice. cbv zeta.
  destruct (Z.ltb_spec (Z.of_nat per * Z.of_nat i) 0) as [H | _]; [lia|].
  destruct (Z.ltb_spec (Z.of_nat per * Z.of_nat i + Z.of_nat per) 0)
    as [H | _]; [lia|].
  destruct (Nat.le_gt_cases (per * i) (List.length l)) as [Hin | Hout].
  - replace (Z.to_nat (Z.min (Z.of_nat per * Z.of_nat i)
                             (Z.of_nat (List.length l))))
      with (per * i) by lia.
    assert (Hlen : List.length (skipn (per * i) l) = List.length l - per * i)
      by apply length_skipn.
    destruct (Nat.le_gt_cases per (List.length l - per * i)) as [Hfull | Hpart].
    + f_equal. lia.
    + rewrite (firstn_all2 (n := per)) by lia.
      apply firstn_all2. lia.
  - replace (Z.to_nat (Z.min (Z.of_nat per * Z.of_nat i)
                             (Z.of_nat (List.length l))))
      with (List.length l) by lia.
    rewrite !skipn_all2 by lia. rewrite !firstn_nil. reflexivity.
Qed.

Lemma chunks_concat {A} (l : list A) (per n : nat) :
  List.concat (map (fun i => firstn per (skipn (per * i) l)) (seq 0 n))
  = firstn (per * n) l.
Proof.
  induction n as [|n IH].
  - rewrite Nat.mul_0_r. reflexivity.
  - rewrite seq_S, map_app, concat_app, IH. cbn [map List.concat Nat.add].
    rewrite app_nil_r.
    replace (per * S n) with (per * n + per) by lia.
    rewrite firstn_add_skipn. reflexivity.
Qed.

Lemma ceilDiv_covers (n d : nat) : 0 < d -> n <= ceilDiv n d * d.
Proof.
  intros Hd. unfold ceilDiv.
  pose proof (Nat.div_mod_eq (n + d - 1) d) as E.
  pose proof (Nat.mod_upper_bound (n + d - 1) d ltac:(lia)) as U.
  nia.
Qed.

Lemma count_insertSorted (x u : string) (l : list string) :
  count_occ string_dec (insertSorted x l) u
  = count_occ string_dec (x :: l) u.
Proof.
  induction l as [|y ys IH]; [reflexivity|].
  cbn [insertSorted]. destruct (String.leb x y); [reflexivity|].
  cbn [count_occ] in *. rewrite IH.
  destruct (string_dec y u), (string_dec x u); reflexivity.
Qed.

Lemma count_sort (u : string) (l : list string) :
  count_occ string_dec (sort l) u = count_occ string_dec l u.
Proof.
  induction l as [|x l IH]; [reflexivity|].
  cbn [sort fold_right]. fold (sort l). rewrite count_insertSorted.
  cbn [count_occ]. rewrite IH. reflexivity.
Qed.

(** X17. With more than one shard, the slices that the shards 1 to
    [shards] take, put one after the other, are the sorted URL list:
    every URL of the list is crawled by exactly one shard, as often as it
    occurs in the list. *)
Theorem shards_partition_the_urls (urls : list string) (shards : nat) :
  1 < shards ->
  List.concat (map (fun k => shardSlice urls shards (Z.of_nat k)) (seq 1 shards))
  = sort urls
  /\ forall u, count_occ string_dec (sort urls) u = count_occ string_dec urls u.
Proof.
  intros Hs. split; [|intros u; apply count_sort].
  unfold shardSlice. apply Nat.ltb_lt in Hs. rewrite Hs. cbv zeta.
  apply Nat.ltb_lt in Hs.
  set (l := sort urls). set (per := ceilDiv (List.length l) shards).
  rewrite <- seq_shift, map_map.
  rewrite (map_ext _ (fun i => firstn per (skipn (per * i) l))).
  - rewrite chunks_concat. apply firstn_all2.
    pose proof (ceilDiv_covers (List.length l) shards ltac:(lia)). subst per. lia.
  - intros i.
    replace (Z.of_nat (S i) - 1)%Z with (Z.of_nat i) by lia.
    apply slice_chunk.
Qed.

End ShardFacts.

Section ShardWitnesses.
Import Js RunShard.

Lemma shards_partition_witness :
  List.concat (map (fun k => shardSlice ["/c"; "/a"; "/b"] 2 (Z.of_nat k)) (seq 1 2))
  = sort ["/c"; "/a"; "/b"].
Proof.
  exact (proj1 (shards_partition_the_urls ["/c"; "/a"; "/b"] 2
                  ltac:(vm_compute; lia))).
Defined.

End ShardWitnesses.
(* ---------------------------------------------------------------------- *)
(** ** The explicit URL list of an input file                              *)
(* ---------------------------------------------------------------------- *)

Section ExplicitFacts.
Import Js Run.

Lemma firstCol_of_csv_rows (rows : list Csv.Row) (r0 : Csv.Row) :
  filter truthy
    (map (fun r =>
            match r with
            | RArr cells => trim (nth 0 cells EmptyString)
            | RObj fields =>
                match map fst [("expectedUrl", Csv.expectedUrl r0);
                               ("expectedTitle", Csv.expectedTitle r0);
                               ("expectedDesc", Csv.expectedDesc r0)] with
                | h0 :: _ =>
                    trim (match find (fun kv => String.eqb (fst kv) h0) fields
                          with Some kv => snd kv | None => EmptyString end)
                | [] => EmptyString
                end
            end) (map ofCsvRow rows))
  = urlCells rows.
Proof.
  unfold urlCells. rewrite map_map. f_equal.
Qed.

Lemma geQ_ratio (a b : nat) :
  0 < b ->
  Telemetry.geQ (Telemetry.ratio a b) (9 # 10) = true -> 9 * b <= 10 * a.
Proof.
  intros Hb. unfold Telemetry.geQ, Telemetry.ratio, Qle_bool.
  cbn [Qnum Qden]. intros H. apply Z.leb_le in H.
  assert (E : Z.pos (Pos.of_nat b) = Z.of_nat b).
  { destruct b; [lia|]. rewrite <- Pos.of_nat_succ. lia. }
  rewrite E in H. lia.
Qed.

Lemma append_assoc (a b c : string) : (a ++ b) ++ c = a ++ b ++ c.
Proof.
  induction a as [|x a IH]; [reflexivity|]. cbn [append]. rewrite IH.
  reflexivity.
Qed.

Lemma append_empty (a : string) : a ++ EmptyString = a.
Proof.
  induction a as [|x a IH]; [reflexivity|]. cbn [append]. rewrite IH.
  reflexivity.
Qed.

(** What [rebase] returns for a plain cell. *)
Lemma rebase_plain (origin pathPrefix h u : string) (u0 : Normalize.URL) :
  Normalize.parseURL h = Some u0 ->
  startsWith (Normalize.pathname u0 ++ searchOf u0) "//" = false ->
  rebase origin pathPrefix h = Some u
  <-> originOf u0 = origin
      /\ (pathPrefix = EmptyString
          \/ startsWith (Normalize.pathname u0) pathPrefix = true)
      /\ u = stripTrailingSlashes
               (origin ++ Normalize.pathname u0 ++ searchOf u0).
Proof.
  intros Hp Hrel. unfold rebase, onOrigin. rewrite Hp. cbv zeta. rewrite Hrel.
  assert (Hhref :
            Normalize.href
              (Normalize.mkURL (Normalize.protocol u0) (Normalize.host u0)
                 (Normalize.pathname u0)
                 match Normalize.query u0 with
                 | Some (String c q) => Some (String c q)
                 | _ => None
                 end None
                 (Normalize.parseQuery
                    match Normalize.query u0 with
                    | Some (String c q) => Some (String c q)
                    | _ => None
                    end))
            = originOf u0 ++ Normalize.pathname u0 ++ searchOf u0).
  { unfold Normalize.href, originOf, searchOf.
    cbn [Normalize.protocol Normalize.host Normalize.pathname Normalize.query
         Normalize.fragment].
    rewrite !append_assoc.
    destruct (Normalize.query u0) as [[|c q]|]; rewrite ?append_empty;
      reflexivity. }
  rewrite Hhref.
  destruct (String.eqb_spec (originOf u0) origin) as [Eo | No]; cbn [negb].
  2:{ split; [discriminate | intros (E & _); congruence]. }
  rewrite Eo.
  destruct pathPrefix as [|c p]; cbn [truthy andb].
  - split.
    + intros E. injection E as <-. repeat split. left. reflexivity.
    + intros (_ & _ & ->). reflexivity.
  - destruct (startsWith (Normalize.pathname u0) (String c p)) eqn:Hpre;
      cbn [negb].
    + split.
      * intros E. injection E as <-. repeat split. right. reflexivity.
      * intros (_ & _ & ->). reflexivity.
    + split; [discriminate|].
      intros (_ & [E | E] & _); discriminate.
Qed.

(** X18. On the rows of [parseCsv] whose absolute http(s) cells are plain
    URLs, [sniffInputForExplicitUrls] reports an explicit list only when at
    least nine in ten of the non-empty URL cells are absolute http(s)
    URLs; its list is then non-empty and free of duplicates, and holds
    exactly the non-empty texts obtained from the absolute cells that lie
    on the base origin and under the path prefix: origin, path and
    non-empty query of the cell, without fragment and without trailing
    slashes.  When it reports no explicit list, the list is empty. *)
Theorem explicit_urls_are_rebased_and_distinct
  (rows : list Csv.Row) (origin pathPrefix : string)
  (explicit : bool) (urls : list string) :
  Forall (fun h => isAbsHttp h = true -> plainCell h = true) (urlCells rows) ->
  sniffInputForExplicitUrls (Some (map ofCsvRow rows)) origin pathPrefix
  = (explicit, urls) ->
  (explicit = false -> urls = [])
  /\ (explicit = true ->
      urls <> [] /\ NoDup urls
      /\ (forall u,
             In u urls
             <-> u <> EmptyString
                 /\ exists h u0,
                      In h (urlCells rows) /\ isAbsHttp h = true
                      /\ Normalize.parseURL h = Some u0
                      /\ originOf u0 = origin
                      /\ (pathPrefix = EmptyString
                          \/ startsWith (Normalize.pathname u0) pathPrefix
                             = true)
                      /\ u = stripTrailingSlashes
                               (origin ++ Normalize.pathname u0 ++ searchOf u0))
      /\ 9 * List.length (urlCells rows)
         <= 10 * List.length (filter isAbsHttp (urlCells rows))).
Proof.
  intros Hplain.
  destruct rows as [|r0 rows].
  { cbn. intros E. injection E as <- <-. split; [reflexivity | discriminate]. }
  unfold sniffInputForExplicitUrls.
  cbn [map ofCsvRow]. cbv zeta.
  change (existsb (fun k => String.eqb (toLowerCase k) "url")
            (map fst [("expectedUrl", Csv.expectedUrl r0);
                      ("expectedTitle", Csv.expectedTitle r0);
                      ("expectedDesc", Csv.expectedDesc r0)]))
    with false.
  cbn [orb].
  pose proof (firstCol_of_csv_rows (r0 :: rows) r0) as Hcol.
  cbn [map ofCsvRow] in Hcol. rewrite Hcol. clear Hcol.
  set (cells := urlCells (r0 :: rows)) in *.
  destruct (negb (List.length cells =? 0)
            && Telemetry.geQ
                 (Telemetry.ratio (List.length (filter isAbsHttp cells))
                                  (List.length cells)) (9 # 10)) eqn:Hlooks;
    cbn [negb].
  2:{ intros E. injection E as <- <-. split; [reflexivity | discriminate]. }
  apply andb_prop in Hlooks as [Hne Hratio].
  apply negb_true_iff, Nat.eqb_neq in Hne.
  set (normalized := uniq [] _).
  destruct (List.length normalized =? 0) eqn:Hlen.
  { intros E. injection E as <- <-. split; [reflexivity | discriminate]. }
  intros E. injection E as <- <-. split; [discriminate|]. intros _.
  apply Nat.eqb_neq in Hlen.
  split; [intros Hnil; rewrite Hnil in Hlen; apply Hlen; reflexivity|].
  split; [apply NoDup_uniq|].
  split.
  - assert (Hcell : forall h, In h cells -> isAbsHttp h = true ->
              exists u0, Normalize.parseURL h = Some u0
                /\ startsWith (Normalize.pathname u0 ++ searchOf u0) "//"
                   = false).
    { intros h Hh Habs. rewrite Forall_forall in Hplain.
      specialize (Hplain h Hh Habs). unfold plainCell in Hplain.
      destruct (Normalize.parseURL h) as [u0|]; [|discriminate].
      exists u0. split; [reflexivity|]. apply negb_true_iff, Hplain. }
    intros u. subst normalized. rewrite In_uniq, filter_In, in_flat_map.
    split.
    + intros [[(h & Hh & Hu) Ht] _].
      apply filter_In in Hh as [Hh Habs].
      destruct (rebase origin pathPrefix h) as [u'|] eqn:Hr; [|destruct Hu].
      destruct Hu as [-> | []].
      split; [intros ->; discriminate|].
      destruct (Hcell h Hh Habs) as (u0 & Hp & Hrel).
      apply (rebase_plain origin pathPrefix h u u0 Hp Hrel) in Hr.
      destruct Hr as (Ho & Hpre & Hu).
      exists h, u0. repeat split; assumption.
    + intros [Hu (h & u0 & Hh & Habs & Hp & Ho & Hpre & Eu)].
      destruct (Hcell h Hh Habs) as (u0' & Hp' & Hrel).
      assert (u0' = u0) by congruence. subst u0'.
      assert (Hr : rebase origin pathPrefix h = Some u).
      { apply (rebase_plain origin pathPrefix h u u0 Hp Hrel).
        repeat split; assumption. }
      split; [|intros []]. split.
      * exists h. split; [apply filter_In; split; assumption|].
        rewrite Hr. left. reflexivity.
      * destruct u; [congruence | reflexivity].
  - apply geQ_ratio; [lia | exact Hratio].
Qed.

End ExplicitFacts.

Section ExplicitWitnesses.
Import Js Run.

Lemma explicit_urls_witness :
  Forall (fun h => isAbsHttp h = true -> plainCell h = true)
    (urlCells [Csv.mkRow "https://example.com/a/" "Home" "Welcome";
               Csv.mkRow "https://example.com/a" "Home" "Welcome";
               Csv.mkRow "https://other.example/b" "B" "Elsewhere"])
  /\ sniffInputForExplicitUrls
       (Some (map ofCsvRow
                [Csv.mkRow "https://example.com/a/" "Home" "Welcome";
                 Csv.mkRow "https://example.com/a" "Home" "Welcome";
                 Csv.mkRow "https://other.example/b" "B" "Elsewhere"]))
       "https://example.com" EmptyString
     = (true, ["https://example.com/a"])
  /\ NoDup ["https://example.com/a"].
Proof.
  assert (Hp : Forall (fun h => isAbsHttp h = true -> plainCell h = true)
                 (urlCells
                    [Csv.mkRow "https://example.com/a/" "Home" "Welcome";
                     Csv.mkRow "https://example.com/a" "Home" "Welcome";
                     Csv.mkRow "https://other.example/b" "B" "Elsewhere"])).
  { repeat constructor; intros _; vm_compute; reflexivity. }
  assert (H : sniffInputForExplicitUrls
                (Some (map ofCsvRow
                         [Csv.mkRow "https://example.com/a/" "Home" "Welcome";
                          Csv.mkRow "https://example.com/a" "Home" "Welcome";
                          Csv.mkRow "https://other.example/b" "B" "Elsewhere"]))
                "https://example.com" EmptyString
              = (true, ["https://example.com/a"]))
    by (vm_compute; reflexivity).
  split; [exact Hp|]. split; [exact H|].
  exact (proj1 (proj2 (proj2 (explicit_urls_are_rebased_and_distinct
                                _ _ _ _ _ Hp H) eq_refl))).
Defined.

End ExplicitWitnesses.
(* ---------------------------------------------------------------------- *)
(** ** The Jaccard score                                                   *)
(* ---------------------------------------------------------------------- *)

Section JaccardFacts.
Import Js Matcher.

Lemma has_In (B : list string) (t : string) : has B t = true <-> In t B.
Proof. unfold has. apply existsb_eqb_In. Qed.

Lemma NoDup_tokens (s : string) : NoDup (tokens s).
Proof. apply NoDup_uniq. Qed.

Lemma inter_le_right (A B : list string) :
  NoDup A -> List.length (filter (has B) A) <= List.length B.
Proof.
  intros HA. apply NoDup_incl_length; [apply NoDup_filter, HA|].
  intros t Ht. apply filter_In in Ht as [_ Ht]. apply has_In, Ht.
Qed.

Lemma inter_comm (A B : list string) :
  NoDup A -> NoDup B ->
  List.length (filter (has B) A) = List.length (filter (has A) B).
Proof.
  intros HA HB. apply Nat.le_antisymm.
  - apply NoDup_incl_length; [apply NoDup_filter, HA|].
    intros t Ht. apply filter_In in Ht as [Ha Hb].
    apply filter_In. split; [apply has_In, Hb | apply has_In, Ha].
  - apply NoDup_incl_length; [apply NoDup_filter, HB|].
    intros t Ht. apply filter_In in Ht as [Hb Ha].
    apply filter_In. split; [apply has_In, Ha | apply has_In, Hb].
Qed.

Lemma inter_self (A : list string) : filter (has A) A = A.
Proof.
  assert (H : forall l, incl l A -> filter (has A) l = l).
  { induction l as [|x l IH]; intros Hl; [reflexivity|].
    cbn [filter]. rewrite (proj2 (has_In A x) (Hl x (or_introl eq_refl))).
    rewrite IH; [reflexivity|]. intros y Hy. apply Hl. right. exact Hy. }
  apply H, incl_refl.
Qed.

Lemma pos_of_nat (u : nat) : 0 < u -> Z.pos (Pos.of_nat u) = Z.of_nat u.
Proof. intros H. destruct u; [lia|]. rewrite <- Pos.of_nat_succ. lia. Qed.

(** X19. The Jaccard score of two titles is a rational between 0 and 1,
    it does not depend on the order of the two titles, and a title with at
    least one token scores 1 against itself. *)
Theorem jaccard_is_a_similarity (a b : string) :
  (0 <= jaccard a b)%Q /\ (jaccard a b <= 1)%Q
  /\ (jaccard a b == jaccard b a)%Q
  /\ (tokens a <> [] -> (jaccard a a == 1)%Q).
Proof.
  unfold jaccard. cbv zeta.
  pose proof (NoDup_tokens a) as HA. pose proof (NoDup_tokens b) as HB.
  set (A := tokens a) in *. set (B := tokens b) in *.
  pose proof (inter_le_right A B HA) as Hr.
  pose proof (filter_length_le (has B) A) as Hl.
  pose proof (inter_comm A B HA HB) as Hc.
  rewrite <- Hc.
  set (inter := List.length (filter (has B) A)) in *.
  replace (List.length B + List.length A - inter)
    with (List.length A + List.length B - inter) by lia.
  split; [|split; [|split]].
  - destruct (_ =? 0); [apply Qle_refl|].
    unfold Qle. cbn [Qnum Qden]. lia.
  - destruct (Nat.eqb_spec (List.length A + List.length B - inter) 0);
      [discriminate|].
    unfold Qle. cbn [Qnum Qden]. rewrite pos_of_nat by lia. lia.
  - apply Qeq_refl.
  - intros Hne. rewrite inter_self.
    assert (Hpos : 0 < List.length A).
    { destruct A; [congruence | cbn; lia]. }
    destruct (Nat.eqb_spec (List.length A + List.length A - List.length A) 0);
      [lia|].
    unfold Qeq. cbn [Qnum Qden]. rewrite pos_of_nat by lia. lia.
Qed.

End JaccardFacts.

Section JaccardWitnesses.
Import Js Matcher.

Lemma jaccard_witness :
  tokens "Home page" <> [] /\ (jaccard "Home page" "Home page" == 1)%Q.
Proof.
  assert (H : tokens "Home page" <> []) by (vm_compute; discriminate).
  split; [exact H|].
  exact (proj2 (proj2 (proj2 (jaccard_is_a_similarity "Home page" "Home page")))
           H).
Defined.

End JaccardWitnesses.

(* ---------------------------------------------------------------------- *)
(** ** [normalizeText] is a normal form                                    *)
(* ---------------------------------------------------------------------- *)

Section TextFacts.
Import Js Matcher.

Lemma straightenQuotes_id (s : string) : straightenQuotes s = s.
Proof.
  induction s as [|c s IH]; [reflexivity|].
  cbn [straightenQuotes]. rewrite IH. unfold isQuoteLike.
  destruct (Ascii.eqb_spec c "'") as [-> | _]; reflexivity.
Qed.

Lemma lowerChar_idem (c : ascii) : lowerFixed (lowerChar c) = true.
Proof. destruct c as [[] [] [] [] [] [] [] []]; vm_compute; reflexivity. Qed.

Lemma lowerFixed_toLowerCase (s : string) :
  Normalize.allChars lowerFixed (toLowerCase s) = true.
Proof.
  induction s as [|c s IH]; [reflexivity|].
  cbn [toLowerCase Normalize.allChars]. rewrite lowerChar_idem, IH. reflexivity.
Qed.

Lemma toLowerCase_fixed (s : string) :
  Normalize.allChars lowerFixed s = true -> toLowerCase s = s.
Proof.
  induction s as [|c s IH]; [reflexivity|].
  cbn [Normalize.allChars toLowerCase]. intros H. apply andb_prop in H as [Hc Hs].
  unfold lowerFixed in Hc. apply Ascii.eqb_eq in Hc. rewrite Hc, (IH Hs).
  reflexivity.
Qed.

Lemma lowerFixed_collapseWhite (s : string) :
  Normalize.allChars lowerFixed s = true ->
  Normalize.allChars lowerFixed (collapseWhite s) = true.
Proof.
  induction s as [|c s IH]; [reflexivity|].
  cbn [Normalize.allChars]. intros H. apply andb_prop in H as [Hc Hs].
  specialize (IH Hs). cbn [collapseWhite].
  destruct (isWhite c).
  - destruct s as [|c' s']; [reflexivity|].
    destruct (isWhite c'); [exact IH|].
    cbn [Normalize.allChars]. rewrite IH. reflexivity.
  - cbn [Normalize.allChars]. rewrite Hc, IH. reflexivity.
Qed.

Lemma lowerFixed_trimStart (s : string) :
  Normalize.allChars lowerFixed s = true ->
  Normalize.allChars lowerFixed (trimStart s) = true.
Proof.
  induction s as [|c s IH]; [reflexivity|].
  intros H. cbn [trimStart]. destruct (isWhite c); [|exact H].
  cbn [Normalize.allChars] in H. apply andb_prop in H as [_ Hs]. apply IH, Hs.
Qed.

Lemma lowerFixed_trimEnd (s : string) :
  Normalize.allChars lowerFixed s = true ->
  Normalize.allChars lowerFixed (trimEnd s) = true.
Proof.
  induction s as [|c s IH]; [reflexivity|].
  cbn [Normalize.allChars]. intros H. apply andb_prop in H as [Hc Hs].
  specialize (IH Hs). cbn [trimEnd].
  destruct (trimEnd s) as [|c1 t1].
  - destruct (isWhite c); [reflexivity|].
    cbn [Normalize.allChars]. rewrite Hc. reflexivity.
  - cbn [Normalize.allChars] in *. rewrite Hc, IH. reflexivity.
Qed.

Lemma collapsed_collapseWhite (s : string) : collapsed (collapseWhite s) = true.
Proof.
  induction s as [|c s IH]; [reflexivity|].
  cbn [collapseWhite]. destruct (isWhite c) eqn:Hc.
  - destruct s as [|c' s']; [reflexivity|].
    destruct (isWhite c') eqn:Hc'; [exact IH|].
    cbn [collapsed]. change (isWhite " ") with true. cbv iota.
    rewrite Ascii.eqb_refl, IH.
    cbn [collapseWhite]. rewrite Hc'. cbn [negb]. rewrite Hc'. reflexivity.
  - cbn [collapsed]. rewrite Hc, IH. reflexivity.
Qed.

Lemma collapseWhite_fixed (s : string) :
  collapsed s = true -> collapseWhite s = s.
Proof.
  induction s as [|c s IH]; [reflexivity|].
  cbn [collapsed]. intros H. apply andb_prop in H as [Hc Hs].
  cbn [collapseWhite]. rewrite (IH Hs).
  destruct (isWhite c); [|reflexivity].
  apply andb_prop in Hc as [Hsp Hnext]. apply Ascii.eqb_eq in Hsp. subst c.
  destruct s as [|c' s']; [reflexivity|].
  apply negb_true_iff in Hnext. rewrite Hnext. reflexivity.
Qed.

Lemma collapsed_trimStart (s : string) :
  collapsed s = true -> collapsed (trimStart s) = true.
Proof.
  induction s as [|c s IH]; [reflexivity|].
  intros H. cbn [trimStart]. destruct (isWhite c); [|exact H].
  cbn [collapsed] in H. apply andb_prop in H as [_ Hs]. apply IH, Hs.
Qed.

Lemma trimEnd_head (s : string) (c1 : ascii) (t1 : string) :
  trimEnd s = String c1 t1 -> exists t2, s = String c1 t2.
Proof.
  destruct s as [|c s]; [discriminate|].
  cbn [trimEnd]. destruct (trimEnd s).
  - destruct (isWhite c); [discriminate|].
    intros E. injection E as -> _. eexists. reflexivity.
  - intros E. injection E as -> _. eexists. reflexivity.
Qed.

Lemma collapsed_trimEnd (s : string) :
  collapsed s = true -> collapsed (trimEnd s) = true.
Proof.
  induction s as [|c s IH]; [reflexivity|].
  cbn [collapsed]. intros H. apply andb_prop in H as [Hc Hs].
  specialize (IH Hs). cbn [trimEnd].
  destruct (trimEnd s) as [|c1 t1] eqn:E.
  - destruct (isWhite c) eqn:Hw; [reflexivity|].
    cbn [collapsed]. rewrite Hw. reflexivity.
  - destruct (trimEnd_head s c1 t1 E) as (t2 & ->).
    cbn [collapsed] in IH |- *. rewrite IH.
    destruct (isWhite c); [|reflexivity].
    rewrite Hc. reflexivity.
Qed.

Lemma trimEnd_idem (s : string) : trimEnd (trimEnd s) = trimEnd s.
Proof.
  induction s as [|c s IH]; [reflexivity|].
  cbn [trimEnd]. destruct (trimEnd s) as [|c1 t1] eqn:E.
  - destruct (isWhite c) eqn:Hw; [reflexivity|].
    cbn [trimEnd]. rewrite Hw. reflexivity.
  - cbn [trimEnd] in IH |- *.
    change (trimEnd (String c (String c1 t1)))
      with (match trimEnd (String c1 t1) with
            | EmptyString =>
                if isWhite c then EmptyString else String c EmptyString
            | t' => String c t'
            end).
    cbn [trimEnd]. cbn [trimEnd] in IH. rewrite IH. reflexivity.
Qed.

Lemma trimStart_trimEnd (s : string) :
  trimStart s = s -> trimStart (trimEnd s) = trimEnd s.
Proof.
  destruct s as [|c s]; [reflexivity|].
  cbn [trimStart]. destruct (isWhite c) eqn:Hw.
  - intros E. exfalso.
    assert (Hlen : forall x, String.length (trimStart x) <= String.length x).
    { induction x as [|a x IHx]; [cbn; lia|].
      cbn [trimStart]. destruct (isWhite a); cbn [String.length]; lia. }
    pose proof (Hlen s) as H. rewrite E in H. cbn [String.length] in H. lia.
  - intros _. cbn [trimEnd].
    destruct (trimEnd s); rewrite ?Hw; cbn [trimStart]; rewrite Hw; reflexivity.
Qed.

Lemma trimStart_idem (s : string) : trimStart (trimStart s) = trimStart s.
Proof.
  induction s as [|c s IH]; [reflexivity|].
  cbn [trimStart]. destruct (isWhite c) eqn:Hw; [exact IH|].
  cbn [trimStart]. rewrite Hw. reflexivity.
Qed.

Lemma trim_idem (s : string) : trim (trim s) = trim s.
Proof.
  unfold trim.
  rewrite (trimStart_trimEnd (trimStart s) (trimStart_idem s)).
  apply trimEnd_idem.
Qed.

(** X20. [normalizeText] yields a normal form: normalizing a normalized
    text changes nothing.  The result is in lower case, its white space is
    single spaces inside the text only, and it is what the exact tier of
    the matcher compares. *)
Theorem normalizeText_idempotent (s : string) :
  normalizeText (normalizeText s) = normalizeText s
  /\ toLowerCase (normalizeText s) = normalizeText s
  /\ collapsed (normalizeText s) = true
  /\ trim (normalizeText s) = normalizeText s.
Proof.
  assert (Hlow : toLowerCase (normalizeText s) = normalizeText s).
  { apply toLowerCase_fixed. unfold normalizeText, trim.
    apply lowerFixed_trimEnd, lowerFixed_trimStart, lowerFixed_collapseWhite.
    rewrite straightenQuotes_id. apply lowerFixed_toLowerCase. }
  assert (Hcol : collapsed (normalizeText s) = true).
  { unfold normalizeText, trim.
    apply collapsed_trimEnd, collapsed_trimStart, collapsed_collapseWhite. }
  assert (Htrim : trim (normalizeText s) = normalizeText s).
  { unfold normalizeText. apply trim_idem. }
  repeat split; try assumption.
  unfold normalizeText at 1.
  rewrite Hlow, straightenQuotes_id, (collapseWhite_fixed _ Hcol).
  exact Htrim.
Qed.

End TextFacts.
(* ---------------------------------------------------------------------- *)
(** ** The shape classifier and the output gate                            *)
(* ---------------------------------------------------------------------- *)

Section ShapeFacts.
Import Js Telemetry.

Lemma pickDelim_cols (line0 : string) : 1 <= snd (pickDelim line0).
Proof.
  unfold pickDelim.
  set (f := fun (best : ascii * nat) (d : ascii) =>
              let c := List.length (split d line0) in
              if snd best <? c then (d, c) else best).
  assert (Hmono : forall ds best, snd best <= snd (fold_left f ds best)).
  { induction ds as [|d ds IH]; intros best; cbn [fold_left]; [lia|].
    eapply Nat.le_trans; [|apply IH].
    unfold f. cbv zeta. destruct (snd best <? _) eqn:E; cbn [snd]; [|lia].
    apply Nat.ltb_lt in E. lia. }
  change (fold_left f [COMMA; TAB; ";"%char] (COMMA, 0))
    with (fold_left f [TAB; ";"%char] (f (COMMA, 0) COMMA)).
  eapply Nat.le_trans; [|apply Hmono].
  unfold f. cbv zeta. cbn [snd].
  pose proof (split_nonempty COMMA line0) as H.
  destruct (split COMMA line0) as [|p ps]; [congruence|].
  cbn [List.length]. change (0 <? S (List.length ps)) with true. cbv iota.
  cbn [snd]. lia.
Qed.

Lemma countIf_le {A} (p : A -> bool) (l : list A) : countIf p l <= List.length l.
Proof. apply filter_length_le. Qed.

Lemma ratio_range (k n : nat) :
  0 < n -> k <= n -> (0 <= ratio k n)%Q /\ (ratio k n <= 1)%Q.
Proof.
  intros Hn Hk. unfold ratio, Qle. cbn [Qnum Qden].
  rewrite pos_of_nat by exact Hn. lia.
Qed.

(** What [sniffCsvShape] returns, by cases. *)
Lemma sniffCsvShape_cases (file : option string) :
  let sh := sniffCsvShape file in
  sh = noShape
  \/ (exists_ sh = true /\ 1 <= cols sh
      /\ (0 <= firstColUrlShare sh)%Q /\ (firstColUrlShare sh <= 1)%Q
      /\ (firstRowIsUrl sh = true -> (0 < firstColUrlShare sh)%Q)
      /\ (cols sh = 3 -> inferredRoles sh = ["url"; "title"; "description"])
      /\ (cols sh = 2 ->
          inferredRoles sh = ["url"; "title"]
          \/ inferredRoles sh = ["url"; "description"]
          \/ inferredRoles sh = ["title"; "description"]
          \/ inferredRoles sh = [])
      /\ (cols sh = 1 ->
          (geQ (firstColUrlShare sh) (6 # 10) = true
           /\ inferredRoles sh = ["url"])
          \/ (geQ (firstColUrlShare sh) (6 # 10) = false
              /\ (inferredRoles sh = ["title"]
                  \/ inferredRoles sh = ["description"])))
      /\ (4 <= cols sh -> inferredRoles sh = [])).
Proof.
  cbv zeta. unfold sniffCsvShape.
  destruct file as [content|]; [|left; reflexivity].
  cbv zeta.
  destruct (firstn 50 _) as [|line0 more] eqn:El; [left; reflexivity|].
  pose proof (pickDelim_cols line0) as Hc.
  destruct (pickDelim line0) as [d m]. cbn [snd] in Hc.
  right. cbn [exists_ cols firstColUrlShare firstRowIsUrl inferredRoles].
  set (rows := map (split d) (line0 :: more)).
  assert (Hn : 0 < List.length rows) by (subst rows; cbn; lia).
  pose proof (countIf_le (fun r => isUrl (cell r 0)) rows) as Hk.
  destruct (ratio_range _ _ Hn Hk) as [H0 H1].
  split; [reflexivity|]. split; [exact Hc|].
  split; [exact H0|]. split; [exact H1|].
  split.
  { intros Hfirst. unfold ratio, Qlt. cbn [Qnum Qden].
    assert (0 < countIf (fun r => isUrl (cell r 0)) rows); [|lia].
    subst rows. cbn [map hd] in Hfirst |- *. unfold countIf.
    cbn [filter]. rewrite Hfirst. cbn. lia. }
  split.
  { intros ->. reflexivity. }
  split.
  { intros ->. cbn [Nat.eqb].
    destruct (_ && _); [destruct (ltQ _ _); auto|].
    destruct (_ && _); auto. }
  split.
  { intros ->. cbn [Nat.eqb].
    destruct (geQ _ _); [left; auto|].
    right. split; [reflexivity|]. destruct (ltQ _ _); auto. }
  intros H4.
  destruct (Nat.eqb_spec m 3); [lia|].
  destruct (Nat.eqb_spec m 2); [lia|].
  destruct (Nat.eqb_spec m 1); [lia|]. reflexivity.
Qed.

(** X21. The shape that [sniffCsvShape] reports for a file with at least
    one non-blank line has one column or more and a first-column URL share
    between 0 and 1, which is positive when the first row is URL-ish; three
    columns always get the roles url, title, description, four or more
    columns get no roles, and one column gets exactly one role, which is
    url exactly when the URL share is at least 0.6.  A missing file and a
    file of blank lines get the same shape, that of no input; a file is
    reported as existing exactly when it has a non-blank line, so the
    invariants hold for every such file. *)
Theorem sniffCsvShape_invariants (file : option string) :
  let sh := sniffCsvShape file in
  (exists_ sh = false -> sh = noShape)
  /\ (exists_ sh = true ->
      1 <= cols sh
      /\ (0 <= firstColUrlShare sh)%Q /\ (firstColUrlShare sh <= 1)%Q
      /\ (firstRowIsUrl sh = true -> (0 < firstColUrlShare sh)%Q)
      /\ List.length (inferredRoles sh) <= cols sh
      /\ (cols sh = 3 -> inferredRoles sh = ["url"; "title"; "description"])
      /\ (4 <= cols sh -> inferredRoles sh = [])
      /\ (cols sh = 1 ->
          List.length (inferredRoles sh) = 1
          /\ (includesStr (inferredRoles sh) "url" = true
              <-> (6 # 10 <= firstColUrlShare sh)%Q)))
  /\ (forall content,
        Forall (fun l => trim l = EmptyString) (splitLines content) ->
        sniffCsvShape (Some content) = sniffCsvShape None)
  /\ (exists_ sh = true
      <-> exists content,
            file = Some content
            /\ Exists (fun l => trim l <> EmptyString) (splitLines content)).
Proof.
  cbv zeta. split; [|split; [|split]]; cycle 3.
  { unfold sniffCsvShape, stripBOM. destruct file as [content|].
    2:{ split; [discriminate | intros (c & E & _); discriminate]. }
    cbv zeta.
    assert (H : forall ls,
               filter (fun l => truthy (trim l)) ls <> []
               <-> Exists (fun l => trim l <> EmptyString) ls).
    { induction ls as [|l ls IH]; cbn [filter].
      - split; [congruence | intros H; inversion H].
      - destruct (trim l) eqn:Et; cbn [truthy].
        + rewrite IH. split; [intros H; right; exact H|].
          intros H. inversion H as [? ? Hl | ? ? Hl]; subst; [|exact Hl].
          rewrite Et in Hl. congruence.
        + split; [intros _; left; rewrite Et; discriminate | discriminate]. }
    destruct (filter (fun l => truthy (trim l)) (splitLines content))
      as [|line0 more] eqn:El.
    - cbn [firstn exists_ noShape]. split; [discriminate|].
      intros (c & E & Hex). injection E as <-.
      apply H in Hex. congruence.
    - cbn [firstn]. split.
      + intros _. exists content. split; [reflexivity|].
        apply H. rewrite El. discriminate.
      + intros _. destruct (pickDelim line0). reflexivity. }
  - destruct (sniffCsvShape_cases file) as [-> | (He & _)]; [reflexivity|].
    cbv zeta in He. congruence.
  - intros He.
    destruct (sniffCsvShape_cases file)
      as [E | (_ & Hc & H0 & H1 & Hf & H3 & H2 & Hone & H4)].
    { cbv zeta in E. rewrite E in He. discriminate. }
    cbv zeta in *.
    repeat (split; [assumption|]).
    split.
    { destruct (Nat.eq_dec (cols (sniffCsvShape file)) 1) as [E1 | N1].
      - destruct (Hone E1) as [[_ ->] | [_ [-> | ->]]]; cbn; lia.
      - destruct (Nat.eq_dec (cols (sniffCsvShape file)) 2) as [E2 | N2].
        + destruct (H2 E2) as [-> | [-> | [-> | ->]]]; cbn; lia.
        + destruct (Nat.eq_dec (cols (sniffCsvShape file)) 3) as [E3 | N3].
          * rewrite (H3 E3). cbn. lia.
          * rewrite H4 by lia. cbn. lia. }
    repeat (split; [assumption|]).
    intros E1. rewrite <- Qle_bool_iff. fold (geQ (firstColUrlShare (sniffCsvShape file)) (6 # 10)).
    destruct (Hone E1) as [[Hg ->] | [Hg [-> | ->]]]; rewrite Hg;
      (split; [reflexivity|]); cbn; split; congruence.
  - intros content Hall. unfold sniffCsvShape, stripBOM. cbv zeta.
    assert (E : filter (fun l => truthy (trim l)) (splitLines content) = []).
    { induction Hall as [|l ls Hl _ IH]; [reflexivity|].
      cbn [filter]. rewrite Hl. exact IH. }
    rewrite E. reflexivity.
Qed.

Lemma includesStr_push (l : list GateError) (k : string) (e : GateError) :
  existsb (names k) (push l e) = existsb (names k) l || names k e.
Proof.
  unfold push. rewrite existsb_app. cbn [existsb]. rewrite orb_false_r.
  reflexivity.
Qed.

(** X22. For a selection that contains [comparison_csv], the gate raises
    no error for that output exactly when an input file exists and the
    inferred roles contain title or description.  Every error of the gate
    names [existence_csv] or [comparison_csv], and names an output that is
    selected; a selection without these two passes whatever the input. *)
Theorem gate_comparison_csv (selected : list string) (shape : Shape) :
  (includesStr selected "comparison_csv" = true ->
   (existsb (names "comparison_csv") (validateOutputs selected shape) = false
    <-> exists_ shape = true
        /\ (includesStr (inferredRoles shape) "title" = true
            \/ includesStr (inferredRoles shape) "description" = true)))
  /\ (forall e, In e (validateOutputs selected shape) ->
        (key e = "existence_csv" \/ key e = "comparison_csv")
        /\ includesStr selected (key e) = true)
  /\ (includesStr selected "existence_csv" = false ->
      includesStr selected "comparison_csv" = false ->
      validateOutputs selected shape = []).
Proof.
  unfold validateOutputs, names.
  repeat match goal with
         | |- context [mkErr ?k ?r] =>
             lazymatch r with
             | String _ _ => generalize r; intro
             end
         end.
  split; [|split].
  - intros Hcmp. rewrite Hcmp.
    destruct (includesStr selected "existence_csv"), (exists_ shape),
      (includesStr (inferredRoles shape) "url"),
      (geQ (firstColUrlShare shape) (6 # 10)),
      (includesStr (inferredRoles shape) "title"),
      (includesStr (inferredRoles shape) "description");
      cbn; intuition congruence.
  - intros e.
    destruct (includesStr selected "existence_csv") eqn:Hex,
      (includesStr selected "comparison_csv") eqn:Hcmp,
      (exists_ shape),
      (includesStr (inferredRoles shape) "url"),
      (geQ (firstColUrlShare shape) (6 # 10)),
      (includesStr (inferredRoles shape) "title"),
      (includesStr (inferredRoles shape) "description");
      cbn; intros He;
      repeat (destruct He as [<- | He]; [cbn [key]; auto|]);
      destruct He.
  - intros -> ->. destruct (exists_ shape); reflexivity.
Qed.

(** X23. The gate on the shape that the classifier reports: a file with
    three columns passes every selection; a file with one column never
    passes a selection that holds both [existence_csv] and
    [comparison_csv]; and without an input file, or with a file of blank
    lines only, a selection that holds either of the two is refused. *)
Theorem gate_on_sniffed_shape (file : option string) (selected : list string) :
  let sh := sniffCsvShape file in
  (cols sh = 3 -> validateOutputs selected sh = [])
  /\ (cols sh = 1 ->
      includesStr selected "existence_csv" = true ->
      includesStr selected "comparison_csv" = true ->
      ok (gate selected sh) = false)
  /\ (exists_ sh = false ->
      includesStr selected "existence_csv" = true
      \/ includesStr selected "comparison_csv" = true ->
      ok (gate selected sh) = false).
Proof.
  cbv zeta.
  destruct (sniffCsvShape_cases file)
    as [E | (He & Hc & _ & _ & _ & H3 & _ & Hone & _)]; cbv zeta in *.
  - rewrite E. split; [discriminate|]. split; [discriminate|].
    intros _ Hsel. unfold gate, validateOutputs. cbn [exists_ inferredRoles noShape negb].
    destruct (includesStr selected "existence_csv"),
      (includesStr selected "comparison_csv"); cbn; try reflexivity.
    destruct Hsel; discriminate.
  - split; [|split].
    + intros E3. unfold validateOutputs. rewrite He, (H3 E3).
      destruct (includesStr selected "existence_csv"),
        (includesStr selected "comparison_csv"); reflexivity.
    + intros E1 Hex Hcmp. unfold gate, validateOutputs.
      rewrite He, Hex, Hcmp.
      destruct (Hone E1) as [[Hg ->] | [Hg [-> | ->]]]; rewrite ?Hg; reflexivity.
    + rewrite He. discriminate.
Qed.

End ShapeFacts.

Section ShapeWitnesses.
Import Js Telemetry.

Lemma sniff_invariants_witness :
  exists_ (sniffCsvShape (Some "/a,Home,Welcome")) = true
  /\ 1 <= cols (sniffCsvShape (Some "/a,Home,Welcome")).
Proof.
  assert (H : exists_ (sniffCsvShape (Some "/a,Home,Welcome")) = true)
    by (vm_compute; reflexivity).
  split; [exact H|].
  exact (proj1 (proj1 (proj2 (sniffCsvShape_invariants (Some "/a,Home,Welcome")))
                  H)).
Defined.

Lemma gate_comparison_witness :
  includesStr ["urls"; "comparison_csv"] "comparison_csv" = true
  /\ existsb (names "comparison_csv")
       (validateOutputs ["urls"; "comparison_csv"]
          (sniffCsvShape (Some titlesAndDescriptions))) = false.
Proof.
  assert (H : includesStr ["urls"; "comparison_csv"] "comparison_csv" = true)
    by reflexivity.
  split; [exact H|].
  apply (proj1 (gate_comparison_csv ["urls"; "comparison_csv"]
                  (sniffCsvShape (Some titlesAndDescriptions))) H).
  vm_compute. split; [reflexivity | left; reflexivity].
Defined.

Lemma gate_on_shape_witness :
  cols (sniffCsvShape (Some "/a,Home,Welcome")) = 3
  /\ validateOutputs ["existence_csv"; "comparison_csv"]
       (sniffCsvShape (Some "/a,Home,Welcome")) = [].
Proof.
  assert (H : cols (sniffCsvShape (Some "/a,Home,Welcome")) = 3)
    by (vm_compute; reflexivity).
  split; [exact H|].
  exact (proj1 (gate_on_sniffed_shape (Some "/a,Home,Welcome")
                  ["existence_csv"; "comparison_csv"]) H).
Defined.

End ShapeWitnesses.
(* ---------------------------------------------------------------------- *)
(** ** Seeding the buckets                                                 *)
(* ---------------------------------------------------------------------- *)

Section SeedFacts.
Import Js Frontier Buckets.

Variable hashUrl : string -> N.

Lemma bucketOf_below (parts : Z) (raw : string) :
  bucketOf hashUrl parts raw < Z.to_nat (normParts parts).
Proof.
  unfold bucketOf, normParts.
  pose proof (Z.mod_pos_bound (Z.of_N (hashUrl raw)) (Z.max 1 parts) ltac:(lia)).
  lia.
Qed.

Lemma batchFor_beyond (parts : Z) (r : nat) (urls : list string) :
  Z.to_nat (normParts parts) <= r -> batchFor hashUrl parts r urls = [].
Proof.
  intros Hr. unfold batchFor. induction urls as [|u urls IH]; [reflexivity|].
  cbn [filter]. pose proof (bucketOf_below parts u) as Hb.
  destruct (Nat.eqb_spec (bucketOf hashUrl parts u) r) as [E | _]; [lia|].
  rewrite andb_false_r. exact IH.
Qed.

Lemma ensureBucket_other (r r' : nat) (w : World) :
  r' <> r -> bucketFile (ensureBucket r w) r' = bucketFile w r'.
Proof.
  intros Hne. unfold ensureBucket. destruct (bucketFile w r); [reflexivity|].
  cbn [bucketFile]. destruct (Nat.eqb_spec r' r); [congruence | reflexivity].
Qed.

Lemma ensureBucket_same (r : nat) (w : World) :
  bucketFile (ensureBucket r w) r
  = Some (match bucketFile w r with Some b => b | None => EmptyString end).
Proof.
  unfold ensureBucket. destruct (bucketFile w r) eqn:E; [exact E|].
  cbn [bucketFile]. rewrite Nat.eqb_refl. reflexivity.
Qed.

Lemma ensureBucket_frame (r : nat) (w : World) :
  offsetFile (ensureBucket r w) = offsetFile w
  /\ locks (ensureBucket r w) = locks w.
Proof. unfold ensureBucket. destruct (bucketFile w r); split; reflexivity. Qed.

Lemma ensure_all (n : nat) :
  forall w,
    let w1 := fold_left (fun w r => ensureBucket r w) (seq 0 n) w in
    (forall r,
        bucketFile w1 r
        = if r <? n
          then Some (match bucketFile w r with
                     | Some b => b
                     | None => EmptyString
                     end)
          else bucketFile w r)
    /\ offsetFile w1 = offsetFile w /\ locks w1 = locks w.
Proof.
  induction n as [|n IH]; intros w; cbv zeta.
  - split; [intros r; reflexivity | split; reflexivity].
  - rewrite seq_S, fold_left_app. cbn [fold_left Nat.add].
    destruct (IH w) as (Hf & Ho & Hl). cbv zeta in Hf, Ho, Hl.
    set (w1 := fold_left (fun w r => ensureBucket r w) (seq 0 n) w) in *.
    destruct (ensureBucket_frame n w1) as [Ho1 Hl1].
    split; [|split; congruence].
    intros r. destruct (Nat.eq_dec r n) as [-> | Hne].
    + rewrite ensureBucket_same, Hf.
      rewrite Nat.ltb_irrefl.
      destruct (Nat.ltb_spec n (S n)); [reflexivity | lia].
    + rewrite (ensureBucket_other n r w1 Hne), Hf.
      destruct (Nat.ltb_spec r n), (Nat.ltb_spec r (S n)); try reflexivity; lia.
Qed.

(** X24. [seedBuckets] with a non-empty batch leaves a file for every
    bucket below [parts]: a bucket that gets no URL keeps its content, or
    is created empty, and a bucket that gets URLs holds them after its old
    content, one per line.  No URL lands in a bucket at or beyond [parts];
    those buckets, the cursors and the ledger are as before. *)
Theorem seedBuckets_fills_every_bucket
  (maxEnv : option string) (urls : list string) (parts : Z) (w : World) :
  urls <> [] ->
  let w' := fst (seedBuckets hashUrl maxEnv urls parts w) in
  (forall r,
      r < Z.to_nat (normParts parts) ->
      bucketFile w' r
      = Some (match batchFor hashUrl parts r urls with
              | [] => match bucketFile w r with
                      | Some b => b
                      | None => EmptyString
                      end
              | mine => baseOf maxEnv (bucketFile w r) ++ linesText mine
              end))
  /\ (forall r,
        Z.to_nat (normParts parts) <= r ->
        batchFor hashUrl parts r urls = [] /\ bucketFile w' r = bucketFile w r)
  /\ offsetFile w' = offsetFile w /\ locks w' = locks w.
Proof.
  intros Hne. cbv zeta. unfold seedBuckets.
  destruct urls as [|u0 us]; [congruence|].
  cbn [List.length Nat.eqb]. cbv zeta.
  destruct (ensure_all (Z.to_nat (normParts parts)) w) as (Hf & Ho & Hl).
  cbv zeta in Hf, Ho, Hl.
  set (w1 := fold_left (fun w r => ensureBucket r w)
                       (seq 0 (Z.to_nat (normParts parts))) w) in *.
  destruct (appendToBuckets_effect hashUrl maxEnv (u0 :: us) parts w1)
    as (Hb & Ho2 & Hl2).
  split; [|split; [|split; congruence]].
  - intros r Hr. rewrite (Hb r), (Hf r).
    destruct (Nat.ltb_spec r (Z.to_nat (normParts parts))) as [_ | H]; [|lia].
    destruct (batchFor hashUrl parts r (u0 :: us)); [reflexivity|].
    f_equal. f_equal. unfold baseOf, rotationDue.
    destruct (bucketFile w r) as [b|]; [reflexivity|].
    destruct (envInt maxEnv "134217728") as [m|]; [|reflexivity].
    destruct (m <? _)%Z; reflexivity.
  - intros r Hr. pose proof (batchFor_beyond parts r (u0 :: us) Hr) as E.
    split; [exact E|]. rewrite (Hb r), E, (Hf r).
    destruct (Nat.ltb_spec r (Z.to_nat (normParts parts))); [lia | reflexivity].
Qed.

End SeedFacts.

Section SeedWitnesses.
Import Js Frontier Buckets.

Lemma seedBuckets_witness :
  ["https://example.com/"] <> []
  /\ offsetFile (fst (seedBuckets lengthHash None ["https://example.com/"] 2
                        emptyWorld))
     = offsetFile emptyWorld.
Proof.
  assert (H : ["https://example.com/"] <> []) by discriminate.
  split; [exact H|].
  exact (proj1 (proj2 (proj2
           (seedBuckets_fills_every_bucket lengthHash None
              ["https://example.com/"] 2 emptyWorld H)))).
Defined.

End SeedWitnesses.
(* ---------------------------------------------------------------------- *)
(** ** What [normalizeUrl] removes                                         *)
(* ---------------------------------------------------------------------- *)

Section NormalizeMoreFacts.
Import Js Normalize.

Lemma deleteParam_effect (k : string) (u : URL) :
  searchParams (deleteParam k u)
  = filter (fun kv => negb (String.eqb (fst kv) k)) (searchParams u)
  /\ query (deleteParam k u) = written (searchParams (deleteParam k u))
  /\ protocol (deleteParam k u) = protocol u /\ host (deleteParam k u) = host u
  /\ pathname (deleteParam k u) = pathname u
  /\ fragment (deleteParam k u) = fragment u.
Proof. repeat split. Qed.

Lemma filter_filter {A} (p q : A -> bool) (l : list A) :
  (forall x, q x = true -> p x = true) ->
  filter q (filter p l) = filter q l.
Proof.
  intros Hqp. induction l as [|x l IH]; [reflexivity|].
  cbn [filter]. destruct (p x) eqn:Hp.
  - cbn [filter]. rewrite IH. reflexivity.
  - rewrite IH. destruct (q x) eqn:Hq; [|reflexivity].
    rewrite (Hqp x Hq) in Hp. discriminate.
Qed.

(** The first loop of [normalizeUrl]: the list it leaves. *)
Lemma drop_tracked (ks : list string) :
  forall u,
    (forall kv, In kv (searchParams u) -> tracked (fst kv) = true ->
                In (fst kv) ks) ->
    let u' :=
      fold_left
        (fun url k =>
           if existsb (String.eqb (toLowerCase k)) drop
           then deleteParam k url else url) ks u in
    searchParams u'
    = filter (fun kv => negb (tracked (fst kv))) (searchParams u)
    /\ protocol u' = protocol u /\ host u' = host u
    /\ pathname u' = pathname u /\ fragment u' = fragment u.
Proof.
  induction ks as [|k ks IH]; intros u Hcov; cbv zeta; cbn [fold_left].
  - repeat split. symmetry. apply forallb_filter_id.
    apply forallb_forall. intros kv Hin.
    destruct (tracked (fst kv)) eqn:E; [|reflexivity].
    destruct (Hcov kv Hin E).
  - destruct (existsb (String.eqb (toLowerCase k)) drop) eqn:Hk.
    + destruct (IH (deleteParam k u)) as (Hs & Hrest).
      { intros kv Hin Ht.
        rewrite (proj1 (deleteParam_effect k u)) in Hin.
        apply filter_In in Hin as [Hin Hne].
        apply negb_true_iff, String.eqb_neq in Hne.
        destruct (Hcov kv Hin Ht) as [E | Hin']; [congruence | exact Hin']. }
      cbv zeta in Hs, Hrest. split; [|exact Hrest].
      rewrite Hs, (proj1 (deleteParam_effect k u)). apply filter_filter.
      intros kv Hq. apply negb_true_iff.
      destruct (String.eqb_spec (fst kv) k) as [E | _]; [|reflexivity].
      unfold tracked in Hq. rewrite E, Hk in Hq. discriminate.
    + apply IH. intros kv Hin Ht.
      destruct (Hcov kv Hin Ht) as [E | Hin']; [|exact Hin'].
      unfold tracked in Ht. rewrite E, Ht in Hk. discriminate.
Qed.

(** The first loop of [normalizeUrl]: the query it leaves.  Once a
    [delete] has been called the query is the list written anew; without
    one the URL is untouched. *)
Lemma drop_query (ks : list string) :
  forall u,
    let u' :=
      fold_left
        (fun url k =>
           if existsb (String.eqb (toLowerCase k)) drop
           then deleteParam k url else url) ks u in
    (existsb tracked ks = true -> query u' = written (searchParams u'))
    /\ (existsb tracked ks = false -> u' = u).
Proof.
  induction ks as [|k ks IH]; intros u; cbv zeta; cbn [fold_left existsb].
  - split; [discriminate | reflexivity].
  - unfold tracked at 1 3.
    destruct (existsb (String.eqb (toLowerCase k)) drop) eqn:Hk; cbn [orb].
    + split; [|discriminate]. intros _.
      destruct (IH (deleteParam k u)) as [H1 H2]. cbv zeta in H1, H2.
      destruct (existsb tracked ks) eqn:E.
      * apply H1. reflexivity.
      * rewrite (H2 eq_refl). reflexivity.
    + apply IH.
Qed.

Lemma filter_and {A} (p q : A -> bool) (l : list A) :
  filter (fun x => p x && q x) l = filter q (filter p l).
Proof.
  induction l as [|x l IH]; [reflexivity|].
  cbn [filter]. destruct (p x); cbn [andb filter]; rewrite IH; reflexivity.
Qed.

Lemma filter_all {A} (p : A -> bool) (l : list A) :
  (forall x, In x l -> p x = true) -> filter p l = l.
Proof.
  intros H. apply forallb_filter_id, forallb_forall, H.
Qed.

Lemma toLowerCase_idem (s : string) : toLowerCase (toLowerCase s) = toLowerCase s.
Proof. apply toLowerCase_fixed, lowerFixed_toLowerCase. Qed.

Lemma existsb_map {A B} (f : A -> B) (p : B -> bool) (l : list A) :
  existsb p (map f l) = existsb (fun x => p (f x)) l.
Proof.
  induction l as [|x l IH]; [reflexivity|]. cbn [map existsb].
  rewrite IH. reflexivity.
Qed.

(** The state after the two removals of [normalizeUrl]. *)
Lemma removals (url : URL) (opts : Opts) :
  let url1 := setHashEmpty url in
  let url2 :=
    fold_left
      (fun url k =>
         if existsb (String.eqb (toLowerCase k)) drop
         then deleteParam k url else url)
      (keys url1) url1 in
  let url3 :=
    if negb (keepPageParam opts) && existsb (String.eqb "page") (keys url2)
    then deleteParam "page" url2 else url2 in
  searchParams url3
  = filter (fun kv => negb (removed opts (fst kv))) (searchParams url)
  /\ query url3
     = (if existsb (fun kv => removed opts (fst kv)) (searchParams url)
        then written (searchParams url3) else query url)
  /\ protocol url3 = protocol url /\ host url3 = host url
  /\ pathname url3 = pathname url /\ fragment url3 = None.
Proof.
  cbv zeta.
  set (url1 := setHashEmpty url).
  destruct (drop_tracked (keys url1) url1) as (Hs2 & Hp2 & Hh2 & Hn2 & Hf2).
  { intros kv Hin _. unfold keys. apply in_map, Hin. }
  destruct (drop_query (keys url1) url1) as (Hq2 & Hu2).
  cbv zeta in Hs2, Hp2, Hh2, Hn2, Hf2, Hq2, Hu2.
  set (url2 := fold_left _ (keys url1) url1) in *.
  change (protocol url1) with (protocol url) in Hp2.
  change (host url1) with (host url) in Hh2.
  change (pathname url1) with (pathname url) in Hn2.
  change (fragment url1) with (@None string) in Hf2.
  change (searchParams url1) with (searchParams url) in Hs2.
  unfold keys in Hq2, Hu2. rewrite existsb_map in Hq2, Hu2.
  change (searchParams url1) with (searchParams url) in Hq2, Hu2.
  set (l0 := searchParams url) in *.
  assert (Hsplit :
            filter (fun kv => negb (removed opts (fst kv))) l0
            = filter (fun kv => negb (negb (keepPageParam opts)
                                      && String.eqb (fst kv) "page"))
                (filter (fun kv => negb (tracked (fst kv))) l0)).
  { rewrite <- filter_and. apply filter_ext. intros kv.
    unfold removed, tracked. apply negb_orb. }
  assert (Hpage : existsb (String.eqb "page") (keys url2)
                  = existsb (fun kv => String.eqb (fst kv) "page") l0).
  { unfold keys. rewrite Hs2, existsb_map. clear.
    induction l0 as [|kv l IH]; [reflexivity|]. cbn [filter existsb].
    destruct (String.eqb_spec (fst kv) "page") as [E | N].
    - rewrite E. change (tracked "page") with false. cbn [negb existsb].
      rewrite E, String.eqb_refl. reflexivity.
    - destruct (tracked (fst kv)); cbn [negb existsb]; [exact IH|].
      rewrite IH.
      destruct (String.eqb_spec "page" (fst kv)) as [E' | _]; [congruence|].
      reflexivity. }
  assert (HR : existsb (fun kv => removed opts (fst kv)) l0
               = existsb (fun kv => tracked (fst kv)) l0
                 || (negb (keepPageParam opts)
                     && existsb (fun kv => String.eqb (fst kv) "page") l0)).
  { clear. induction l0 as [|kv l IH]; cbn [existsb].
    - rewrite andb_false_r. reflexivity.
    - rewrite IH. unfold removed, tracked.
      destruct (existsb (String.eqb (toLowerCase (fst kv))) drop),
               (negb (keepPageParam opts)),
               (String.eqb (fst kv) "page"),
               (existsb (fun kv => existsb (String.eqb (toLowerCase (fst kv))) drop) l),
               (existsb (fun kv => String.eqb (fst kv) "page") l);
        reflexivity. }
  rewrite HR, Hpage, Hsplit, <- Hs2.
  destruct (negb (keepPageParam opts)) eqn:Hkeep; cbn [andb].
  - destruct (existsb (fun kv => String.eqb (fst kv) "page") l0) eqn:Hp.
    + rewrite orb_true_r.
      destruct (deleteParam_effect "page" url2) as (Ha & Hb & Hc & Hd & He & Hf).
      rewrite Ha. split; [reflexivity|]. split; [exact Hb|].
      repeat split; congruence.
    + rewrite orb_false_r.
      split.
      { symmetry. apply filter_all. intros kv Hin. apply negb_true_iff.
        destruct (String.eqb_spec (fst kv) "page") as [E | _]; [|reflexivity].
        exfalso.
        assert (Hex : existsb (String.eqb "page") (keys url2) = true).
        { apply existsb_eqb_In. rewrite <- E. unfold keys. apply in_map, Hin. }
        rewrite Hpage in Hex. congruence. }
      split; [|repeat split; assumption].
      destruct (existsb (fun kv => tracked (fst kv)) l0) eqn:D.
      * apply Hq2. reflexivity.
      * rewrite (Hu2 eq_refl). reflexivity.
  - rewrite orb_false_r.
    split; [symmetry; apply filter_all; intros; reflexivity|].
    split; [|repeat split; assumption].
    destruct (existsb (fun kv => tracked (fst kv)) l0) eqn:D.
    * apply Hq2. reflexivity.
    * rewrite (Hu2 eq_refl). reflexivity.
Qed.

(** The URL record that [normalizeUrl] serialises. *)
Lemma normalizeParsed_record (url : URL) (opts : Opts) :
  exists url',
    normalizeParsed url opts = href url'
    /\ protocol url' = protocol url
    /\ host url' = toLowerCase (host url)
    /\ fragment url' = None
    /\ searchParams url'
       = filter (fun kv => negb (removed opts (fst kv))) (searchParams url)
    /\ query url'
       = match searchParams url' with
         | [] => None
         | kept =>
             if existsb (fun kv => removed opts (fst kv)) (searchParams url)
             then Some (serializeParams kept) else query url
         end
    /\ pathname url'
       = if (1 <? String.length (pathname url)) && endsWith (pathname url) "/"
         then (if startsWith (slice_0_m1 (pathname url)) "/"
               then slice_0_m1 (pathname url)
               else "/" ++ slice_0_m1 (pathname url))
         else pathname url.
Proof.
  unfold normalizeParsed. cbv zeta.
  destruct (removals url opts) as (Hs3 & Hq3 & Hp3 & Hh3 & Hn3 & Hf3).
  cbv zeta in Hs3, Hq3, Hp3, Hh3, Hn3, Hf3.
  set (url3 := if negb (keepPageParam opts) && _ then _ else _) in *.
  clearbody url3.
  set (url4 := setHost (toLowerCase (host url3)) url3).
  assert (H4 : searchParams url4 = searchParams url3) by reflexivity.
  set (url5 := if List.length (keys url4) =? 0 then setSearchEmpty url4 else url4).
  assert (H5 : searchParams url5 = searchParams url3
               /\ query url5
                  = match searchParams url5 with
                    | [] => None
                    | kept =>
                        if existsb (fun kv => removed opts (fst kv))
                                   (searchParams url)
                        then Some (serializeParams kept) else query url
                    end
               /\ protocol url5 = protocol url
               /\ host url5 = toLowerCase (host url)
               /\ pathname url5 = pathname url /\ fragment url5 = None).
  { subst url5. unfold keys. rewrite length_map.
    destruct (Nat.eqb_spec (List.length (searchParams url4)) 0) as [E | N].
    - apply length_zero_iff_nil in E. rewrite <- H4, E.
      repeat split; try assumption.
      cbn [host setSearchEmpty setHost url4].
      rewrite toLowerCase_idem, Hh3. reflexivity.
    - split; [exact H4|]. split.
      + change (query url4) with (query url3). rewrite H4 in N |- *.
        rewrite Hq3.
        destruct (searchParams url3) as [|kv l]; [cbn in N; congruence|].
        reflexivity.
      + repeat split; try assumption.
        cbn [host setHost url4]. rewrite toLowerCase_idem, Hh3. reflexivity. }
  clearbody url5. destruct H5 as (Hs5 & Hq5 & Hp5 & Hh5 & Hn5 & Hf5).
  rewrite Hn5.
  eexists. split; [reflexivity|].
  destruct ((1 <? String.length (pathname url)) && endsWith (pathname url) "/").
  - cbn [setPathname protocol host fragment pathname query searchParams params].
    fold (searchParams url5).
    split; [exact Hp5|]. split; [exact Hh5|]. split; [exact Hf5|].
    split; [congruence|]. split; [exact Hq5 | reflexivity].
  - split; [exact Hp5|]. split; [exact Hh5|]. split; [exact Hf5|].
    split; [congruence|]. split; [exact Hq5 | exact Hn5].
Qed.

Lemma parseURL_params (u : string) (url : URL) :
  parseURL u = Some url -> searchParams url = parseQuery (query url).
Proof.
  unfold parseURL.
  destruct (breakAt (Ascii.eqb ":") u) as [scheme r0].
  destruct (negb _); [discriminate|].
  destruct (negb _); [discriminate|].
  destruct (breakAt (Ascii.eqb "#") _) as [beforeHash h].
  destruct (breakAt (Ascii.eqb "?") beforeHash) as [beforeQuery q].
  destruct (breakAt (Ascii.eqb "/") beforeQuery) as [authority path].
  destruct (negb _); [discriminate|].
  intros E. injection E as <-. reflexivity.
Qed.

(** X25. When [normalizeUrl] returns, for a URL of the class covered, its
    result is the text of a URL with the same scheme and path, apart from
    one trailing slash taken off a path longer than the root, with the
    host in lower case and without fragment.  Its query parameters are
    those of the input in their order, except the ones named utm_source,
    utm_medium, utm_campaign, utm_term, utm_content, gclid or fbclid in
    any letter case and, unless [keepPageParam] is set, the ones named
    page.  With no parameter left there is no query; when a parameter has
    been removed the query is the rest written anew as form data, with
    percent-encoding; when none has been removed the query is kept as it
    was written. *)
Theorem normalizeUrl_strips_tracking (u : string) (opts : Opts) (out : string) :
  normalizeUrl u opts = Some out ->
  exists url url',
    parseURL u = Some url /\ out = href url'
    /\ searchParams url = parseQuery (query url)
    /\ protocol url' = protocol url
    /\ host url' = toLowerCase (host url)
    /\ fragment url' = None
    /\ searchParams url'
       = filter (fun kv => negb (removed opts (fst kv))) (searchParams url)
    /\ query url'
       = match searchParams url' with
         | [] => None
         | kept =>
             if existsb (fun kv => removed opts (fst kv)) (searchParams url)
             then Some (serializeParams kept) else query url
         end
    /\ pathname url'
       = if (1 <? String.length (pathname url)) && endsWith (pathname url) "/"
         then (if startsWith (slice_0_m1 (pathname url)) "/"
               then slice_0_m1 (pathname url)
               else "/" ++ slice_0_m1 (pathname url))
         else pathname url.
Proof.
  unfold normalizeUrl. destruct (parseURL u) as [url|] eqn:Hp; [|discriminate].
  intros E. injection E as <-.
  destruct (normalizeParsed_record url opts) as (url' & Hh & H).
  exists url, url'. split; [reflexivity|]. split; [exact Hh|].
  split; [exact (parseURL_params u url Hp) | exact H].
Qed.

End NormalizeMoreFacts.

Section NormalizeMoreWitnesses.
Import Js Normalize.

Lemma normalizeUrl_witness :
  normalizeUrl "https://Example.com/a/?next=/b&utm_source=x&page=2#top"
               (mkOpts false)
  = Some "https://example.com/a?next=%2Fb"
  /\ exists url url',
       parseURL "https://Example.com/a/?next=/b&utm_source=x&page=2#top"
       = Some url
       /\ "https://example.com/a?next=%2Fb" = href url'
       /\ searchParams url' = [("next", "/b")].
Proof.
  assert (H : normalizeUrl
                "https://Example.com/a/?next=/b&utm_source=x&page=2#top"
                (mkOpts false)
              = Some "https://example.com/a?next=%2Fb")
    by (vm_compute; reflexivity).
  split; [exact H|].
  destruct (normalizeUrl_strips_tracking _ _ _ H)
    as (url & url' & Hp & Hh & _ & _ & _ & _ & Hs & _).
  exists url, url'. split; [exact Hp|]. split; [exact Hh|].
  rewrite Hs.
  assert (E : parseURL "https://Example.com/a/?next=/b&utm_source=x&page=2#top"
              = Some (mkURL "https:" "example.com" "/a/"
                            (Some "next=/b&utm_source=x&page=2") (Some "top")
                            [("next", "/b"); ("utm_source", "x"); ("page", "2")]))
    by (vm_compute; reflexivity).
  rewrite E in Hp. injection Hp as <-. vm_compute. reflexivity.
Defined.

End NormalizeMoreWitnesses.
(* ---------------------------------------------------------------------- *)
(** ** Which rows can be reported as correct                               *)
(* ---------------------------------------------------------------------- *)

Section ClassifyFacts.
Import Js Matcher ReportsClassify.

Lemma pageByUrl_found (pages : list SitePage) (u : string) :
  In u (map pUrl pages) ->
  exists p, pageByUrl pages u = Some p /\ In p pages /\ pUrl p = u.
Proof.
  intros Hin. unfold pageByUrl.
  destruct (find (fun p => String.eqb (pUrl p) u) (rev pages)) as [p|] eqn:E.
  - apply find_some in E as [Hp Hu]. apply String.eqb_eq in Hu.
    exists p. repeat split; [apply in_rev, Hp | exact Hu].
  - exfalso. apply in_map_iff in Hin as (p & Hu & Hp).
    pose proof (find_none _ _ E p (proj1 (in_rev pages p) Hp)) as N.
    cbv beta in N. rewrite Hu, String.eqb_refl in N. discriminate.
Qed.

Lemma pageByUrl_in (pages : list SitePage) (u : string) (p : SitePage) :
  pageByUrl pages u = Some p -> In p pages /\ pUrl p = u.
Proof.
  unfold pageByUrl. intros E. apply find_some in E as [Hp Hu].
  apply String.eqb_eq in Hu. split; [apply in_rev, Hp | exact Hu].
Qed.

Lemma items_are_pages (pages : list Page) (expected : string) (opts : Opts) :
  forall p, In p (items (findByPrefixThenSimilarity pages expected opts)) ->
            In p pages.
Proof.
  intros p. unfold findByPrefixThenSimilarity. cbv zeta.
  destruct (negb (List.length (filter _ pages) =? 0)).
  { cbn [items]. intros H. apply filter_In in H. tauto. }
  destruct (negb (List.length (filter _ pages) =? 0)).
  { cbn [items]. intros H. apply filter_In in H. tauto. }
  destruct (sortDesc _) as [|top rest] eqn:Es; cbn [items]; [intros []|].
  intros H. apply in_map_iff in H as ([p' s] & <- & H).
  apply filter_In in H as [H _]. rewrite <- Es in H.
  apply (proj1 (In_sortDesc _ _)) in H. apply filter_In in H as [H _].
  apply in_map_iff in H as (p0 & E & H0). injection E as <- _. exact H0.
Qed.

Lemma later_tier_no_exact (pages : list Page) (expected : string) (opts : Opts) :
  type (findByPrefixThenSimilarity pages expected opts) <> TExact ->
  forall p, In p pages -> titleN p <> expected.
Proof.
  unfold findByPrefixThenSimilarity. cbv zeta.
  destruct (filter (fun p => String.eqb (titleN p) expected) pages)
    as [|h t] eqn:E; cbn [List.length Nat.eqb negb].
  2:{ cbn [type]. congruence. }
  intros _ p Hp Ht.
  assert (Hin : In p (filter (fun p => String.eqb (titleN p) expected) pages)).
  { apply filter_In. split; [exact Hp | apply String.eqb_eq, Ht]. }
  rewrite E in Hin. destruct Hin.
Qed.

Lemma titleBased_compare (pages : list Page) (cfg : Opts) (title : string)
  (t : MatchType) (u : string) :
  Reports.titleBased pages cfg title = Reports.ToCompare t u ->
  type (findByPrefixThenSimilarity pages (normalizeText title) cfg) = t
  /\ In u (map url pages).
Proof.
  unfold Reports.titleBased. cbv zeta.
  pose proof (items_are_pages pages (normalizeText title) cfg) as Hin.
  destruct (findByPrefixThenSimilarity pages (normalizeText title) cfg)
    as [ty its sc]. cbn [type items] in *.
  destruct ty; [discriminate| | |];
    (destruct its as [|p [|q its']]; [discriminate | | discriminate];
     intros E; injection E as <- <-;
     split; [reflexivity | apply in_map, Hin; left; reflexivity]).
Qed.

(** X26. The classification of a row always ends in one of the reports:
    the page that a single title match names is in the catalog.  A row
    without an explicit URL that is matched through the prefix or the
    fuzzy tier is never reported as correct nor as a description-only
    mismatch; it goes to the other mismatches with a note that starts with
    [title mismatch], because a page whose normalized title equals the
    expected one would have been an exact hit. *)
Theorem only_exact_title_matches_are_correct
  (pages : list SitePage) (cfg : Opts) (row : Csv.Row) :
  classify pages cfg row <> None
  /\ (forall t u,
        trim (Csv.expectedUrl row) = EmptyString ->
        Reports.titleBased (map asPage pages) cfg (Csv.expectedTitle row)
        = Reports.ToCompare t u ->
        t <> TExact ->
        exists rest,
          classify pages cfg row
          = Some (MismatchOther ("title mismatch; " ++ rest))).
Proof.
  split.
  - unfold classify. cbv zeta.
    destruct (truthy (trim (Csv.expectedUrl row))).
    { destruct (pageByUrl pages _); discriminate. }
    destruct (Reports.titleBased (map asPage pages) cfg (Csv.expectedTitle row))
      as [| t c | t u] eqn:E; try discriminate.
    destruct (titleBased_compare _ _ _ _ _ E) as [_ Hu].
    rewrite map_map in Hu. cbn [asPage url] in Hu.
    destruct (pageByUrl_found pages u Hu) as (p & -> & _). discriminate.
  - intros t u Hurl E Ht. unfold classify. cbv zeta. rewrite Hurl, E.
    cbn [truthy].
    destruct (titleBased_compare _ _ _ _ _ E) as [Hty Hu].
    rewrite map_map in Hu. cbn [asPage url] in Hu.
    destruct (pageByUrl_found pages u Hu) as (p & -> & Hp & _).
    assert (Hne : pTitleN p <> normalizeText (Csv.expectedTitle row)).
    { apply (later_tier_no_exact (map asPage pages)
               (normalizeText (Csv.expectedTitle row)) cfg
               ltac:(rewrite Hty; exact Ht) (asPage p)).
      apply in_map, Hp. }
    unfold compare. cbv zeta.
    destruct (String.eqb_spec (normalizeText (Csv.expectedTitle row)) (pTitleN p))
      as [E1 | _]; [congruence|].
    cbn [andb negb]. eexists. reflexivity.
Qed.

End ClassifyFacts.

Section ClassifyWitnesses.
Import Js Matcher ReportsClassify.

Lemma classify_witness :
  exists rest,
    classify [mkSitePage "https://example.com/" "home pages" "Welcome"]
             (Matcher.mkOpts None None) (Csv.mkRow "" "Home page" "Welcome")
    = Some (MismatchOther ("title mismatch; " ++ rest)).
Proof.
  apply (proj2 (only_exact_title_matches_are_correct
                  [mkSitePage "https://example.com/" "home pages" "Welcome"]
                  (Matcher.mkOpts None None)
                  (Csv.mkRow "" "Home page" "Welcome"))
           TPrefix "https://example.com/").
  - reflexivity.
  - vm_compute. reflexivity.
  - discriminate.
Defined.

End ClassifyWitnesses.
(* ---------------------------------------------------------------------- *)
(** ** The run mode on the rows that [parseCsv] delivers                   *)
(* ---------------------------------------------------------------------- *)

Section RunModeFacts.
Import Js Run.

(** X27. The rows of [parseCsv] are objects with three keys, so the
    shape that [run] sniffs from them always has three columns: the
    branches for one and for two columns are never taken.  A worker
    without a shard URL file that is not forced into frontier mode reports
    [explicit-urls] for every input file with at least one parsed row,
    also for a file of titles and descriptions, and [discovery] for an
    input file without one; with a shard URL file or in frontier mode it
    reports [discovery] for every input file, and [no-input] without
    one. *)
Theorem run_mode_of_parsed_input
  (usingUrlsFile forceFrontier : bool) (input : option string)
  (origin pathPrefix : string) :
  runMode usingUrlsFile forceFrontier input origin pathPrefix
  = match input with
    | None => "no-input"
    | Some raw =>
        if negb usingUrlsFile && negb forceFrontier
           && negb (List.length (Csv.parseCsv raw "auto") =? 0)
        then "explicit-urls"
        else "discovery"
    end.
Proof. apply runMode_of_rows. Qed.

End RunModeFacts.
(* ---------------------------------------------------------------------- *)
(** ** Merging the working-URL lists of the workers                        *)
(* ---------------------------------------------------------------------- *)

Section ShardMergeFacts.
Import Js ShardMerge.

Lemma partText_lines (urls : list string) :
  urls <> [] -> partText urls = linesText urls.
Proof.
  unfold partText. induction urls as [|u [|v us] IH]; intros Hne.
  - congruence.
  - cbn [join linesText]. rewrite append_empty_r. reflexivity.
  - change (join NL (u :: v :: us)) with (u ++ NL ++ join NL (v :: us)).
    rewrite !append_assoc3, IH by discriminate. reflexivity.
Qed.

Lemma partText_read_back (urls : list string) :
  Forall (fun u => Spec.lineSafe u = true) urls ->
  filter truthy (splitLines (partText urls)) = urls.
Proof.
  intros Hall. destruct urls as [|u us]; [reflexivity|].
  rewrite partText_lines by discriminate. apply splitLines_linesText, Hall.
Qed.

Lemma collectTxt_parts (parts : list (list string)) :
  Forall (Forall (fun u => Spec.lineSafe u = true)) parts ->
  collectTxt (map partText parts) = List.concat parts.
Proof.
  unfold collectTxt. induction 1 as [|p ps Hp _ IH]; [reflexivity|].
  cbn [map flat_map List.concat]. rewrite IH, (partText_read_back p Hp).
  reflexivity.
Qed.

(** X28. When every worker has written its working URLs, non-empty and
    free of line breaks, to its part file, the merge of [finalizeSitemap]
    writes them to [working-urls.txt] once each, in the order of their first
    occurrence: the merged file holds a URL exactly when some worker
    reported it, and reading the merged file back gives these URLs.  When
    no worker reported a URL the file is left as it was. *)
Theorem merged_working_urls (parts : list (list string)) (old : option string) :
  Forall (Forall (fun u => Spec.lineSafe u = true)) parts ->
  let all := uniq [] (List.concat parts) in
  mergeTxt (map partText parts) old
  = (if List.length all =? 0 then old else Some (partText all))
  /\ NoDup all
  /\ (forall u, In u all <-> exists p, In p parts /\ In u p)
  /\ filter truthy (splitLines (partText all)) = all.
Proof.
  intros Hall. cbv zeta.
  assert (Hin : forall u, In u (uniq [] (List.concat parts))
                          <-> exists p, In p parts /\ In u p).
  { intros u. rewrite In_uniq, in_concat. cbn [In]. split.
    - intros [(p & Hp & Hu) _]. exists p. auto.
    - intros (p & Hp & Hu). split; [exists p; auto | tauto]. }
  split; [|split; [apply NoDup_uniq | split; [exact Hin|]]].
  - unfold mergeTxt, uniqLines. cbv zeta. rewrite (collectTxt_parts parts Hall).
    destruct (List.length (uniq [] (List.concat parts)) =? 0); reflexivity.
  - apply partText_read_back. apply Forall_forall. intros u Hu.
    apply Hin in Hu as (p & Hp & Hu).
    rewrite Forall_forall in Hall. specialize (Hall p Hp).
    rewrite Forall_forall in Hall. apply Hall, Hu.
Qed.

End ShardMergeFacts.

Section ShardMergeWitnesses.
Import Js ShardMerge.

Lemma working_urls_merge_witness :
  mergeTxt (map partText [["https://example.com/"; "https://example.com/a"];
                          [];
                          ["https://example.com/a"; "https://example.com/b"]])
           None
  = Some (partText ["https://example.com/"; "https://example.com/a";
                    "https://example.com/b"]).
Proof.
  refine (proj1 (merged_working_urls
                   [["https://example.com/"; "https://example.com/a"];
                    [];
                    ["https://example.com/a"; "https://example.com/b"]]
                   None _)).
  repeat constructor.
Defined.

End ShardMergeWitnesses.
(* ---------------------------------------------------------------------- *)
(** ** The retry wrappers                                                  *)
(* ---------------------------------------------------------------------- *)

Section RetryFacts.
Import Js Frontier Retry.

Lemma loop_spec (fuel : nat) :
  forall i last outcomes,
    let r := fst (loop fuel i last outcomes) in
    let sleeps := snd (loop fuel i last outcomes) in
    let k := List.length sleeps in
    k <= fuel
    /\ (forall j, j < k -> nth j sleeps 0%Z = (20 + (i + Z.of_nat j) * 10)%Z)
    /\ (forall j, j < k ->
          exists e, nth j outcomes None = Some e /\ retried e = true)
    /\ match r with
       | Returned => k < fuel /\ nth k outcomes None = None
       | Threw x =>
           (k = fuel
            /\ x = match k with
                   | O => last
                   | S k' => nth k' outcomes None
                   end)
           \/ (k < fuel
               /\ exists e, x = Some e /\ retried e = false
                            /\ nth k outcomes None = Some e)
       end.
Proof.
  induction fuel as [|fuel IH]; intros i last outcomes; cbv zeta.
  - cbn [loop fst snd List.length].
    split; [lia|]. split; [intros j Hj; lia|]. split; [intros j Hj; lia|].
    left. split; reflexivity.
  - cbn [loop]. destruct outcomes as [|[e|] os]; cbn [hd tl].
    + cbn [fst snd List.length]. split; [lia|].
      split; [intros j Hj; lia|]. split; [intros j Hj; lia|].
      split; [lia | reflexivity].
    + destruct (retried e) eqn:He.
      * specialize (IH (i + 1)%Z (Some e) os). cbv zeta in IH.
        destruct (loop fuel (i + 1)%Z (Some e) os) as [r sleeps].
        cbn [fst snd List.length] in *.
        destruct IH as (Hle & Hsl & Hout & Hr).
        split; [lia|]. split; [|split].
        -- intros [|j] Hj; cbn [nth]; [f_equal; lia|].
           rewrite Hsl by lia. lia.
        -- intros [|j] Hj; cbn [nth]; [exists e; auto|].
           apply Hout. lia.
        -- destruct r as [|x].
           ++ destruct Hr as [Hk Hn]. split; [lia | exact Hn].
           ++ destruct Hr as [[Hk Hx] | (Hk & e' & Hx & He' & Hn)].
              ** left. split; [lia|]. cbn [nth].
                 destruct (List.length sleeps); exact Hx.
              ** right. split; [lia|]. exists e'. cbn [nth]. auto.
      * cbn [fst snd List.length]. split; [lia|].
        split; [intros j Hj; lia|]. split; [intros j Hj; lia|].
        right. split; [lia|]. exists e. auto.
    + cbn [fst snd List.length]. split; [lia|].
      split; [intros j Hj; lia|]. split; [intros j Hj; lia|].
      split; [lia | reflexivity].
Qed.

Lemma total_of_sleeps (sleeps : list Z) :
  forall i,
    (forall j, j < List.length sleeps ->
               nth j sleeps 0%Z = (20 + (i + Z.of_nat j) * 10)%Z) ->
    total sleeps
    = (let k := Z.of_nat (List.length sleeps) in
       20 * k + 10 * i * k + 5 * k * (k - 1))%Z.
Proof.
  induction sleeps as [|s sleeps IH]; intros i H; cbv zeta;
    [cbn [total fold_right List.length]; lia|].
  cbn [total fold_right]. fold (total sleeps).
  rewrite (IH (i + 1)%Z).
  - pose proof (H 0 ltac:(cbn; lia)) as H0. cbn [nth] in H0. rewrite H0.
    cbv zeta. cbn [List.length]. nia.
  - intros j Hj. pose proof (H (S j) ltac:(cbn; lia)) as Hs.
    cbn [nth] in Hs. rewrite Hs. lia.
Qed.

(** X29. The retry wrappers of the file operations try at most [tries]
    times (40 by default).  They sleep only after a failure with EBUSY or
    EPERM, 20 + 10 i milliseconds after the attempt number i (from 0), so a
    call sleeps 20 n + 5 n (n - 1) milliseconds at most for n tries, 8600
    by default.  A call returns exactly after a successful attempt; any
    other error is thrown at once, without a sleep after it; and when all
    tries failed with EBUSY or EPERM the last of these errors is thrown. *)
Theorem retry_wrapper_is_bounded (tries : Z) (outcomes : list (option Errno)) :
  let r := fst (withRetry tries outcomes) in
  let sleeps := snd (withRetry tries outcomes) in
  let k := List.length sleeps in
  let n := Z.to_nat tries in
  k <= n
  /\ (forall j, j < k -> nth j sleeps 0%Z = (20 + Z.of_nat j * 10)%Z)
  /\ (total sleeps
      <= 20 * Z.of_nat n + 5 * Z.of_nat n * (Z.of_nat n - 1))%Z
  /\ (tries = 40%Z -> (total sleeps <= 8600)%Z)
  /\ (forall j, j < k ->
        exists e, nth j outcomes None = Some e /\ retried e = true)
  /\ match r with
     | Returned => k < n /\ nth k outcomes None = None
     | Threw None => n = 0
     | Threw (Some e) =>
         nth (if retried e then k - 1 else k) outcomes None = Some e
         /\ (if retried e then k = n else k < n)
     end.
Proof.
  cbv zeta. unfold withRetry.
  pose proof (loop_spec (Z.to_nat tries) 0%Z None outcomes) as H.
  cbv zeta in H. destruct H as (Hle & Hsl & Hout & Hr).
  set (r := fst (loop (Z.to_nat tries) 0 None outcomes)) in *.
  set (sleeps := snd (loop (Z.to_nat tries) 0 None outcomes)) in *.
  assert (Htot : (total sleeps
                  <= 20 * Z.of_nat (Z.to_nat tries)
                     + 5 * Z.of_nat (Z.to_nat tries)
                       * (Z.of_nat (Z.to_nat tries) - 1))%Z).
  { rewrite (total_of_sleeps sleeps 0%Z Hsl). cbv zeta. nia. }
  split; [exact Hle|]. split; [|split; [exact Htot|split; [|split]]].
  - intros j Hj. rewrite (Hsl j Hj). lia.
  - intros ->. change (Z.to_nat 40) with 40 in Htot. lia.
  - exact Hout.
  - destruct r as [|[e|]].
    + exact Hr.
    + destruct Hr as [[Hk Hx] | (Hk & e' & Hx & He' & Hn)].
      * destruct (List.length sleeps) as [|k'] eqn:Ek; [discriminate|].
        destruct (Hout k' ltac:(lia)) as (e1 & Hn1 & Hr1).
        assert (e1 = e) by congruence. subst e1. rewrite Hr1.
        cbn [Nat.sub]. rewrite Nat.sub_0_r. split; [exact Hn1 | exact Hk].
      * injection Hx as <-. rewrite He'. split; [exact Hn | exact Hk].
    + destruct Hr as [[Hk Hx] | (Hk & e' & Hx & _)]; [|discriminate].
      destruct (List.length sleeps) as [|k'] eqn:Ek; [lia|].
      destruct (Hout k' ltac:(lia)) as (e1 & Hn1 & _). congruence.
Qed.

End RetryFacts.

Section RetryWitnesses.
Import Js Frontier Retry.

Lemma retry_wrapper_witness :
  (total (snd (withRetry 40 [Some EBUSY; Some EPERM; None])) <= 8600)%Z.
Proof.
  exact (proj1 (proj2 (proj2 (proj2
           (retry_wrapper_is_bounded 40 [Some EBUSY; Some EPERM; None]))))
           eq_refl).
Defined.

End RetryWitnesses.
(* ---------------------------------------------------------------------- *)
(** ** The legacy frontier shares the URLs out by their hash               *)
(* ---------------------------------------------------------------------- *)

Section LegacyFacts.
Import Js Frontier Legacy.

Variable hashUrl : string -> N.
Variable sha1 : string -> string.

Lemma scanFrontier_claim (env : Env) (partIndex partTotal : Z)
  (acceptFn : string -> bool) (urls : list string) :
  forall w url c,
    fst (scanFrontier hashUrl sha1 env partIndex partTotal acceptFn urls w)
    = Some (url, c) ->
    In url urls /\ acceptFn url = true
    /\ otherPart hashUrl url partIndex partTotal = false
    /\ existsSync (sha1 url ++ ".done") w = false
    /\ existsSync (sha1 url ++ ".lock") w = false
    /\ existsSync (sha1 url ++ ".lock")
         (snd (scanFrontier hashUrl sha1 env partIndex partTotal acceptFn urls w))
       = true.
Proof.
  induction urls as [|u rest IH]; intros w url c; cbn [scanFrontier];
    [discriminate|].
  destruct (acceptFn u) eqn:Ha; cbn [negb].
  2:{ intros H. destruct (IH w url c H) as (Hin & Hrest).
      split; [right; exact Hin | exact Hrest]. }
  destruct (otherPart hashUrl u partIndex partTotal) eqn:Ho.
  { intros H. destruct (IH w url c H) as (Hin & Hrest).
    split; [right; exact Hin | exact Hrest]. }
  destruct (tryClaim sha1 env u w) as [[c1|] w1] eqn:Hc.
  - cbn [fst snd]. intros E. injection E as <- <-.
    destruct (tryClaim_grant sha1 env u w w1 c1 Hc) as (Ec & Hd & Hl & Hl' & _).
    subst c1. cbn [lockPath donePath] in *.
    repeat split; try assumption. left. reflexivity.
  - intros H. destruct (IH w1 url c H) as (Hin & Hacc & Hpart & Hd & Hl & Hl').
    pose proof (tryClaim_refused_keeps_locks sha1 env u w w1 Hc) as Hk.
    repeat split; try assumption; [right; exact Hin | |].
    + rewrite <- (existsSync_same_locks _ w1 w Hk). exact Hd.
    + rewrite <- (existsSync_same_locks _ w1 w Hk). exact Hl.
Qed.

(** X30. A URL that the legacy [claimNext] returns is a trimmed non-empty
    line of the frontier file that passes [acceptFn] and whose hash leaves
    the remainder [partIndex] modulo [partTotal]; it had neither completion
    marker nor lock before and holds the lock after.  So two workers with
    different part indices never get the same URL, whatever the ledger
    holds, and with [partTotal = 0] nothing is ever claimed. *)
Theorem legacy_claims_are_shared_by_hash
  (env : Env) (frontierFile : option string) (partTotal : Z)
  (acceptFn : string -> bool) :
  (forall partIndex w url c,
      fst (claimNext hashUrl sha1 env frontierFile partIndex partTotal
             acceptFn w) = Some (url, c) ->
      In url (readFrontier frontierFile) /\ acceptFn url = true
      /\ partTotal <> 0%Z
      /\ (Z.of_N (hashUrl url) mod Z.abs partTotal)%Z = partIndex
      /\ existsSync (sha1 url ++ ".done") w = false
      /\ existsSync (sha1 url ++ ".lock") w = false
      /\ existsSync (sha1 url ++ ".lock")
           (snd (claimNext hashUrl sha1 env frontierFile partIndex partTotal
                   acceptFn w)) = true)
  /\ (forall p1 p2 w1 w2 u1 c1 u2 c2,
        p1 <> p2 ->
        fst (claimNext hashUrl sha1 env frontierFile p1 partTotal acceptFn w1)
        = Some (u1, c1) ->
        fst (claimNext hashUrl sha1 env frontierFile p2 partTotal acceptFn w2)
        = Some (u2, c2) ->
        u1 <> u2).
Proof.
  assert (Hone : forall partIndex w url c,
             fst (claimNext hashUrl sha1 env frontierFile partIndex partTotal
                    acceptFn w) = Some (url, c) ->
             In url (readFrontier frontierFile) /\ acceptFn url = true
             /\ partTotal <> 0%Z
             /\ (Z.of_N (hashUrl url) mod Z.abs partTotal)%Z = partIndex
             /\ existsSync (sha1 url ++ ".done") w = false
             /\ existsSync (sha1 url ++ ".lock") w = false
             /\ existsSync (sha1 url ++ ".lock")
                  (snd (claimNext hashUrl sha1 env frontierFile partIndex
                          partTotal acceptFn w)) = true).
  { intros partIndex w url c H. unfold claimNext in *.
    destruct (scanFrontier_claim env partIndex partTotal acceptFn _ w url c H)
      as (Hin & Hacc & Hpart & Hrest).
    unfold otherPart in Hpart.
    destruct (Z.eqb_spec partTotal 0) as [_ | Hnz]; [discriminate|].
    apply negb_false_iff, Z.eqb_eq in Hpart.
    repeat split; try assumption; apply Hrest. }
  split; [exact Hone|].
  intros p1 p2 w1 w2 u1 c1 u2 c2 Hne H1 H2 E. subst u2.
  destruct (Hone p1 w1 u1 c1 H1) as (_ & _ & _ & E1 & _).
  destruct (Hone p2 w2 u1 c2 H2) as (_ & _ & _ & E2 & _).
  congruence.
Qed.

End LegacyFacts.

Section LegacyWitnesses.
Import Js Frontier Legacy.

Lemma legacy_claims_witness :
  fst (claimNext lengthHash plainId defaultEnv (Some twoUrls) 1 2
         (fun _ => true) emptyWorld)
  = Some ("https://example.com/a",
          mkClaim "https://example.com/a.lock" "https://example.com/a.done")
  /\ (Z.of_N (lengthHash "https://example.com/a") mod Z.abs 2)%Z = 1%Z.
Proof.
  assert (H : fst (claimNext lengthHash plainId defaultEnv (Some twoUrls) 1 2
                     (fun _ => true) emptyWorld)
              = Some ("https://example.com/a",
                      mkClaim "https://example.com/a.lock"
                              "https://example.com/a.done"))
    by (vm_compute; reflexivity).
  split; [exact H|].
  exact (proj1 (proj2 (proj2 (proj2
           (proj1 (legacy_claims_are_shared_by_hash lengthHash plainId
                     defaultEnv (Some twoUrls) 2 (fun _ => true))
              1%Z emptyWorld _ _ H))))).
Defined.

End LegacyWitnesses.
